(** * Invisible-text detector: a shallow embedding of [invisible_detection-new.py]

    The development follows the Python module top-down:

    - [PyStr]: the [str] methods the module calls ([strip], [lower],
      [isdigit], [split], slicing, ...), on strings of characters below
      U+0100;
    - [PyFloat]: Python's [float] as IEEE binary64 ([PrimFloat]), with the
      conversions the module relies on: [float(str)], [int(float)], [round],
      [repr] and the [.2f] format;
    - [Regex]: a backtracking matcher for the fragment of [re] used by the
      precompiled patterns, and the patterns themselves;
    - [Py]: exceptions, dynamic values, mappings, colours, styles and the
      module's constants;
    - [Colors]: the colour parser, compositing and the contrast ratio;
    - [Dom]: the parsed tree, with the BeautifulSoup accessors the analyzer
      uses;
    - [Analyzer]: the methods of [DOMAnalyzer], one definition per method,
      under the method's name;
    - [Helpers]: the methods the analysis does not call, the patterns of
      the conditional markers and the functions of the processing log;
    - [Reference]: instances of the library parameters, to run examples.

    Conventions.  A Python function that can raise returns [res A], with
    the class of the exception; a bare [try: ... except:] is a [match] on
    that result.  A method that mutates its object returns the new state.
    The C library's [pow], the [webcolors] name table, BeautifulSoup's
    parser and serialiser, and the iteration order of a set are parameters
    of the sections that use them.

    Limits of the embedding, each recalled where it applies:

    - a string is a sequence of characters below U+0100, one [ascii] for
      each: on these [str.strip], [str.split], [str.lower], [str.isdigit],
      [float], [\s] and [\d] are Python's (U+0085 and U+00A0 are white
      space, the superscripts U+00B2, U+00B3 and U+00B9 are digits for
      [isdigit] and not for [int]); a text with a character above U+00FF
      is not represented;
    - a colour has three [int] channels and a [float] alpha, as every colour
      built from markup does; tuples and mappings with components of another
      shape, which only a caller outside the module can pass, are not
      represented;
    - the order in which a run of the interpreter visits the set
      [offset_props] is a parameter, [offset_order], of the classifier and
      of what calls it; [Reference] gives the order of the source text;
    - the replacement text of [re.sub] in [_handle_split_conditionals] is
      inserted literally;
    - the nesting of analyzers built for merged conditional blocks is
      bounded by a [depth], as it is by the interpreter's recursion limit. *)

From Stdlib Require Import ZArith List String Ascii Bool Lia.
From Stdlib Require Import DecimalString.
From Stdlib Require Import Floats.
Import ListNotations.

Set Warnings "-inexact-float,-register-all".

Local Open Scope string_scope.
Local Open Scope Z_scope.

(* ================================================================== *)
(** * Python [str] methods *)
(* ================================================================== *)

Module PyStr.

Definition code (c : ascii) : Z := Z.of_nat (nat_of_ascii c).

(** [str.isspace] on one character, which [str.strip], [str.split] and
    the class [\s] of [re] follow: tab, LF, VT, FF, CR, the four separators
    0x1c-0x1f, the space, the next-line character U+0085 and the no-break
    space U+00A0. *)
Definition is_space (c : ascii) : bool :=
  let n := code c in
  ((9 <=? n) && (n <=? 13)) || ((28 <=? n) && (n <=? 31)) || (n =? 32)
  || (n =? 133) || (n =? 160).

(** A decimal digit: the class [\d] of [re], and the digits [int] and
    [float] read. *)
Definition is_digit (c : ascii) : bool :=
  let n := code c in (48 <=? n) && (n <=? 57).

(** [str.isdigit] on one character: a decimal digit or one of the
    superscripts U+00B2, U+00B3 and U+00B9. *)
Definition isdigit_char (c : ascii) : bool :=
  let n := code c in
  is_digit c || (n =? 178) || (n =? 179) || (n =? 185).

Definition is_upper (c : ascii) : bool :=
  let n := code c in (65 <=? n) && (n <=? 90).

Definition is_lower (c : ascii) : bool :=
  let n := code c in (97 <=? n) && (n <=? 122).

Definition is_alpha (c : ascii) : bool := is_upper c || is_lower c.

(** [str.lower] on one character: the letters [A] to [Z], and the
    capital letters U+00C0 to U+00DE (the sign U+00D7 is not one). *)
Definition lower_char (c : ascii) : ascii :=
  let n := code c in
  if is_upper c || ((192 <=? n) && (n <=? 222) && negb (n =? 215))
  then ascii_of_nat (nat_of_ascii c + 32) else c.

Fixpoint lower (s : string) : string :=
  match s with
  | EmptyString => EmptyString
  | String c r => String (lower_char c) (lower r)
  end.

Fixpoint rev_onto (s acc : string) : string :=
  match s with
  | EmptyString => acc
  | String c r => rev_onto r (String c acc)
  end.

Definition rev (s : string) : string := rev_onto s EmptyString.

Fixpoint lstrip_by (p : ascii -> bool) (s : string) : string :=
  match s with
  | EmptyString => EmptyString
  | String c r => if p c then lstrip_by p r else s
  end.

Definition rstrip_by (p : ascii -> bool) (s : string) : string :=
  rev (lstrip_by p (rev s)).

Definition strip_by (p : ascii -> bool) (s : string) : string :=
  rstrip_by p (lstrip_by p s).

(** [s.strip()] *)
Definition strip (s : string) : string := strip_by is_space s.

(** [s.strip(chars)] for a one-character [chars] *)
Definition strip_char (ch : ascii) (s : string) : string :=
  strip_by (Ascii.eqb ch) s.

Fixpoint all_chars (p : ascii -> bool) (s : string) : bool :=
  match s with
  | EmptyString => true
  | String c r => p c && all_chars p r
  end.

(** [s.isdigit()]: non-empty and made of digits. *)
Definition isdigit (s : string) : bool :=
  match s with
  | EmptyString => false
  | _ => all_chars isdigit_char s
  end.

(** [s.startswith(p)] *)
Definition startswith (p s : string) : bool := String.prefix p s.

(** [sub in s] *)
Fixpoint contains (sub s : string) : bool :=
  String.prefix sub s ||
  match s with
  | EmptyString => false
  | String _ r => contains sub r
  end.

(** [c in s] for one character *)
Fixpoint has_char (ch : ascii) (s : string) : bool :=
  match s with
  | EmptyString => false
  | String c r => Ascii.eqb c ch || has_char ch r
  end.

(** [s.replace(ch, '')] for one character *)
Fixpoint remove_char (ch : ascii) (s : string) : string :=
  match s with
  | EmptyString => EmptyString
  | String c r =>
      if Ascii.eqb c ch then remove_char ch r else String c (remove_char ch r)
  end.

Fixpoint drop (n : nat) (s : string) : string :=
  match n, s with
  | O, _ => s
  | S _, EmptyString => EmptyString
  | S n', String _ r => drop n' r
  end.

Fixpoint take (n : nat) (s : string) : string :=
  match n, s with
  | O, _ => EmptyString
  | S _, EmptyString => EmptyString
  | S n', String c r => String c (take n' r)
  end.

(** [s[a:b]] for non-negative [a], [b] *)
Definition slice (a b : nat) (s : string) : string :=
  take (b - a) (drop a s).

(** [s[a:-1]] *)
Definition slice_to_last (a : nat) (s : string) : string :=
  take (String.length s - 1 - a) (drop a s).

(** [sep.join(l)] *)
Fixpoint join (sep : string) (l : list string) : string :=
  match l with
  | [] => EmptyString
  | [x] => x
  | x :: r => x ++ sep ++ join sep r
  end.

(** [s.split()]: the maximal runs of non-space characters. *)
Fixpoint split_ws_aux (s : string) (cur : string) : list string :=
  let flush := match cur with EmptyString => [] | _ => [rev cur] end in
  match s with
  | EmptyString => flush
  | String c r =>
      if is_space c then flush ++ split_ws_aux r EmptyString
      else split_ws_aux r (String c cur)
  end.

Definition split_ws (s : string) : list string := split_ws_aux s EmptyString.

(** [s.replace(old, new)] for a non-empty [old]; the fuel is the length of
    [s], which bounds the number of steps. *)
Fixpoint replace_all_aux (fuel : nat) (old new s : string) : string :=
  match fuel with
  | O => s
  | S fuel' =>
      if String.prefix old s
      then new ++ replace_all_aux fuel' old new (drop (String.length old) s)
      else match s with
           | EmptyString => EmptyString
           | String c r => String c (replace_all_aux fuel' old new r)
           end
  end.

Definition replace_all (old new s : string) : string :=
  match old with
  | EmptyString => s
  | _ => replace_all_aux (S (String.length s)) old new s
  end.

(** [c * 2 for c in s], joined *)
Fixpoint double_chars (s : string) : string :=
  match s with
  | EmptyString => EmptyString
  | String c r => String c (String c (double_chars r))
  end.

Definition digit_val (c : ascii) : Z := code c - 48.

(** [int(s)] for a string of decimal digits (of any length: a limit of the
    interpreter on the number of digits is not modelled) *)
Definition int_of_digits (s : string) : Z :=
  (fix go (s : string) (acc : Z) : Z :=
     match s with
     | EmptyString => acc
     | String c r => go r (10 * acc + digit_val c)
     end) s 0.

Definition hex_val (c : ascii) : option Z :=
  let n := code c in
  if is_digit c then Some (n - 48)
  else if (97 <=? n) && (n <=? 102) then Some (n - 87)
  else if (65 <=? n) && (n <=? 70) then Some (n - 55)
  else None.

(** [int(s, 16)] for a plain string of hex digits; [None] is [ValueError]. *)
Definition int_of_hex (s : string) : option Z :=
  match s with
  | EmptyString => None
  | _ =>
      (fix go (s : string) (acc : Z) : option Z :=
         match s with
         | EmptyString => Some acc
         | String c r =>
             match hex_val c with
             | Some d => go r (16 * acc + d)
             | None => None
             end
         end) s 0
  end.

(** [str(n)] for an [int] *)
Definition of_Z (z : Z) : string := NilZero.string_of_int (Z.to_int z).

Fixpoint repeat_char (c : ascii) (n : nat) : string :=
  match n with
  | O => EmptyString
  | S n' => String c (repeat_char c n')
  end.

Definition eqb (a b : string) : bool := String.eqb a b.

(** [x in l] for a list or set of strings *)
Definition mem (x : string) (l : list string) : bool :=
  existsb (String.eqb x) l.

End PyStr.

(* ================================================================== *)
(** * Python [float]: IEEE binary64 and its conversions *)
(* ================================================================== *)

Module PyFloat.

Import PyStr.

(** The nearest binary64 value (ties to even) of the rational [n / d]. *)
Definition of_ratio (n d : positive) : float :=
  SF2Prim (SFdiv prec emax (S754_finite false n 0) (S754_finite false d 0)).

(** [float(z)] for an [int]: the nearest binary64 value; CPython raises
    [OverflowError] when the rounded value is not finite. *)
Definition of_Z_round (z : Z) : float :=
  SF2Prim (binary_normalize prec emax z 0 false).

Definition of_Z (z : Z) : option float :=
  let f := of_Z_round z in
  if PrimFloat.is_infinity f then None else Some f.

(** The value [m * 10^e] rounded to binary64, for [m >= 0]. *)
Definition of_decimal (m e : Z) : float :=
  match m with
  | Zpos p =>
      if 0 <=? e then
        (if 400 <? e then PrimFloat.infinity else of_Z_round (m * 10 ^ e))
      else
        (if Z.log2 m + 1 + 1100 <? 3 * (- e) then PrimFloat.zero
         else of_ratio p (Z.to_pos (10 ^ (- e))))
  | _ => PrimFloat.zero
  end.

(** ** [float(s)] *)

(** PEP 515: every underscore stands between two digits. *)
Fixpoint underscores_ok (prev_digit : bool) (s : string) : bool :=
  match s with
  | EmptyString => true
  | String c r =>
      if Ascii.eqb c "_"
      then prev_digit
           && match r with
              | String d _ => is_digit d
              | EmptyString => false
              end
           && underscores_ok false r
      else underscores_ok (is_digit c) r
  end.

Fixpoint span_digits (s : string) : string * string :=
  match s with
  | EmptyString => (EmptyString, EmptyString)
  | String c r =>
      if is_digit c
      then let (d, t) := span_digits r in (String c d, t)
      else (EmptyString, s)
  end.

Definition split_sign (s : string) : bool * string :=
  match s with
  | String "-" r => (true, r)
  | String "+" r => (false, r)
  | _ => (false, s)
  end.

(** The exponent part: empty, or [e], a sign and digits. *)
Definition parse_exponent (s : string) : option Z :=
  match s with
  | EmptyString => Some 0
  | String c r =>
      if Ascii.eqb (lower_char c) "e" then
        let (neg, r1) := split_sign r in
        let (ds, r2) := span_digits r1 in
        match ds, r2 with
        | EmptyString, _ => None
        | _, EmptyString =>
            Some (if neg then - int_of_digits ds else int_of_digits ds)
        | _, _ => None
        end
      else None
  end.

(** An unsigned decimal literal [digits [. digits] [exponent]] with at least
    one digit in the mantissa. *)
Definition parse_unsigned (s : string) : option float :=
  let (ip, r1) := span_digits s in
  let (fp, r2) :=
    match r1 with
    | String "." r => span_digits r
    | _ => (EmptyString, r1)
    end in
  match ip ++ fp with
  | EmptyString => None
  | ds =>
      match parse_exponent r2 with
      | Some ex =>
          Some (of_decimal (int_of_digits ds) (ex - Z.of_nat (String.length fp)))
      | None => None
      end
  end.

(** The white space [float] removes around a number: [str.isspace]
    without the four separators 0x1c-0x1f. *)
Definition is_float_space (c : ascii) : bool :=
  let n := code c in
  ((9 <=? n) && (n <=? 13)) || (n =? 32) || (n =? 133) || (n =? 160).

(** [float(s)] on a string; [None] is [ValueError]. *)
Definition of_string (s : string) : option float :=
  let (neg, body) := split_sign (strip_by is_float_space s) in
  let sign (f : float) := if neg then PrimFloat.opp f else f in
  let low := lower body in
  if String.eqb low "inf" || String.eqb low "infinity"
  then Some (sign PrimFloat.infinity)
  else if String.eqb low "nan" then Some PrimFloat.nan
  else if underscores_ok false body
  then option_map sign (parse_unsigned (remove_char "_" body))
  else None.

(** ** [int(x)], [round(x)] *)

(** [int(x)]: truncation towards zero; [None] is the [OverflowError] or
    [ValueError] raised on an infinity or a NaN. *)
Definition trunc (x : float) : option Z :=
  match Prim2SF x with
  | S754_zero _ => Some 0
  | S754_finite s m e =>
      let a := if 0 <=? e then Zpos m * 2 ^ e else Zpos m / 2 ^ (- e) in
      Some (if s then - a else a)
  | _ => None
  end.

(** The integer nearest to [n / d], ties to even, for [n >= 0], [d > 0]. *)
Definition div_half_even (n d : Z) : Z :=
  let q := n / d in
  let r := n mod d in
  match 2 * r ?= d with
  | Lt => q
  | Gt => q + 1
  | Eq => if Z.even q then q else q + 1
  end.

(** [|x| * 10^k] rounded to an integer (ties to even), for finite [x]. *)
Definition scaled_abs (k : Z) (x : float) : option Z :=
  match Prim2SF x with
  | S754_zero _ => Some 0
  | S754_finite _ m e =>
      let n0 := Zpos m * (if 0 <=? e then 2 ^ e else 1) in
      let d0 := if 0 <=? e then 1 else 2 ^ (- e) in
      let n := n0 * (if 0 <=? k then 10 ^ k else 1) in
      let d := d0 * (if 0 <=? k then 1 else 10 ^ (- k)) in
      Some (div_half_even n d)
  | _ => None
  end.

Definition is_negative (x : float) : bool :=
  match Prim2SF x with
  | S754_zero s | S754_infinity s | S754_finite s _ _ => s
  | S754_nan => false
  end.

(** [round(x)] with one argument: an [int], ties to even. *)
Definition round_int (x : float) : option Z :=
  match scaled_abs 0 x with
  | Some a => Some (if is_negative x then - a else a)
  | None => None
  end.

(** ** Formatting *)

Definition digits_of (z : Z) : string := PyStr.of_Z z.

(** [m] written with at least [d + 1] digits and a point before the last
    [d] of them. *)
Definition with_point (d : nat) (m : Z) : string :=
  let s := digits_of m in
  let s := repeat_char "0" (S d - String.length s) ++ s in
  let n := (String.length s - d)%nat in
  match d with
  | O => s
  | _ => take n s ++ "." ++ drop n s
  end.

(** [format(x, '.<d>f')] *)
Definition format_fixed (d : nat) (x : float) : string :=
  match Prim2SF x with
  | S754_nan => "nan"
  | S754_infinity s => if s then "-inf" else "inf"
  | _ =>
      match scaled_abs (Z.of_nat d) x with
      | Some m => (if is_negative x then "-" else EmptyString) ++ with_point d m
      | None => "nan"
      end
  end.

(** [f"{x:.2f}"] *)
Definition format_2f (x : float) : string := format_fixed 2 x.

(** [round(x, 2)]: the [float] nearest to the two-decimal rounding of [x];
    non-finite values are returned unchanged. *)
Definition round2 (x : float) : float :=
  match scaled_abs 2 x with
  | Some m =>
      let r := of_decimal m (-2) in
      if is_negative x then PrimFloat.opp r else r
  | None => x
  end.

(** [floor(log10 v)] for the positive rational [v = n / d], searched
    downwards from an upper estimate. *)
Fixpoint log10_down (fuel : nat) (n d k : Z) : Z :=
  match fuel with
  | O => k
  | S fuel' =>
      let ok := if 0 <=? k then d * 10 ^ k <=? n else d <=? n * 10 ^ (- k) in
      if ok then k else log10_down fuel' n d (k - 1)
  end.

Definition log10_floor (n d : Z) : Z :=
  let hi := (Z.log2 n + 1 - Z.log2 d) * 30103 / 100000 + 2 in
  log10_down 8 n d hi.

(** The candidates with [p] significant digits around [n / d]: the digit
    strings [q] and [q + 1] with their decimal exponent, where
    [q = floor ((n / d) / 10^ex)] and [ex = log10_floor - p + 1]. *)
Definition candidates (p : Z) (n d : Z) : Z * Z * Z :=
  let ex := log10_floor n d - p + 1 in
  let q := if 0 <=? ex then n / (d * 10 ^ ex) else (n * 10 ^ (- ex)) / d in
  (q, q + 1, ex).

(** Twice the distance of [c * 10^ex] from [n / d], times [d * 10^max(0,-ex)]:
    only used to compare two candidates. *)
Definition dist (n d c ex : Z) : Z :=
  if 0 <=? ex then Z.abs (c * 10 ^ ex * d - n)
  else Z.abs (c * d - n * 10 ^ (- ex)).

(** The shortest digit string that reads back as [x] (the one nearest to
    [x] when two have that length), for finite positive [x]: digits and
    decimal exponent. *)
Fixpoint shortest_aux (fuel : nat) (p : Z) (x : float) (n d : Z) : Z * Z :=
  let '(lo, hi, ex) := candidates p n d in
  match fuel with
  | O => (lo, ex)
  | S fuel' =>
      let ok c := PrimFloat.eqb (of_decimal c ex) x in
      match ok lo, ok hi with
      | true, true =>
          if dist n d hi ex <? dist n d lo ex then (hi, ex) else (lo, ex)
      | true, false => (lo, ex)
      | false, true => (hi, ex)
      | false, false => shortest_aux fuel' (p + 1) x n d
      end
  end.

Fixpoint strip_zeros (fuel : nat) (c ex : Z) : Z * Z :=
  match fuel with
  | O => (c, ex)
  | S fuel' =>
      if (c mod 10 =? 0) && negb (c =? 0)
      then strip_zeros fuel' (c / 10) (ex + 1)
      else (c, ex)
  end.

Definition exponent_text (e : Z) : string :=
  let a := digits_of (Z.abs e) in
  (if e <? 0 then "-" else "+")
    ++ (if (String.length a <? 2)%nat then "0" ++ a else a).

(** [repr(x)], which is also [str(x)] and [f"{x}"]. *)
Definition repr (x : float) : string :=
  match Prim2SF x with
  | S754_nan => "nan"
  | S754_infinity s => if s then "-inf" else "inf"
  | S754_zero s => if s then "-0.0" else "0.0"
  | S754_finite s m e =>
      let n := Zpos m * (if 0 <=? e then 2 ^ e else 1) in
      let d := if 0 <=? e then 1 else 2 ^ (- e) in
      let '(c0, ex0) := shortest_aux 17 1 (PrimFloat.abs x) n d in
      let '(c, ex) := strip_zeros 20 c0 ex0 in
      let ds := digits_of c in
      let nd := Z.of_nat (String.length ds) in
      let decpt := nd + ex in
      let body :=
        if (-4 <? decpt) && (decpt <=? 16) then
          if decpt <=? 0 then
            "0." ++ repeat_char "0" (Z.to_nat (- decpt)) ++ ds
          else if nd <=? decpt then
            ds ++ repeat_char "0" (Z.to_nat (decpt - nd)) ++ ".0"
          else
            take (Z.to_nat decpt) ds ++ "." ++ drop (Z.to_nat decpt) ds
        else
          take 1 ds
            ++ (if 1 <? nd then "." ++ drop 1 ds else EmptyString)
            ++ "e" ++ exponent_text (decpt - 1)
      in
      (if s then "-" else EmptyString) ++ body
  end.

End PyFloat.

(* ================================================================== *)
(** * The fragment of [re] used by the module *)
(* ================================================================== *)

Module Regex.

Import PyStr.

Inductive regex : Type :=
| Eps                                   (* the empty pattern *)
| Chr (p : ascii -> bool)               (* one character of a class *)
| Seq (a b : regex)                     (* [ab] *)
| Alt (a b : regex)                     (* [a|b], [a] tried first *)
| Star (greedy : bool) (a : regex)      (* [a*] and [a*?] *)
| Group (i : nat) (a : regex)           (* capturing group number [i] *)
| Bol                                   (* [^] *)
| Eol.                                  (* [$], without [re.MULTILINE] *)

(** A position in the subject: the offset, what is left to read, and the
    groups captured so far (latest first). *)
Record mstate : Type := MState {
  m_pos : nat;
  m_rest : string;
  m_groups : list (nat * string)
}.

Definition or_else {A} (x : option A) (y : unit -> option A) : option A :=
  match x with
  | Some v => Some v
  | None => y tt
  end.

(** [$] matches at the end of the subject and just before a newline that
    ends it. *)
Definition at_eol (s : string) : bool :=
  match s with
  | EmptyString => true
  | String c EmptyString => Ascii.eqb c "010"
  | _ => false
  end.

(** Backtracking matcher in continuation-passing style: [run r st k] tries
    the ways [r] can match at [st] in [re]'s order of preference and
    returns the first one the continuation accepts.  An iteration of a
    repetition must consume input (none of the patterns below repeats a
    nullable body), so the length of the rest bounds the iterations. *)
Fixpoint run (r : regex) (st : mstate) (k : mstate -> option mstate)
  {struct r} : option mstate :=
  match r with
  | Eps => k st
  | Chr p =>
      match m_rest st with
      | String c rest =>
          if p c then k (MState (S (m_pos st)) rest (m_groups st)) else None
      | EmptyString => None
      end
  | Seq a b => run a st (fun st1 => run b st1 k)
  | Alt a b => or_else (run a st k) (fun _ => run b st k)
  | Star greedy a =>
      (fix loop (n : nat) (st : mstate) {struct n} : option mstate :=
         match n with
         | O => k st
         | S n' =>
             let again (_ : unit) :=
               run a st (fun st1 =>
                 if (m_pos st <? m_pos st1)%nat then loop n' st1 else None) in
             if greedy then or_else (again tt) (fun _ => k st)
             else or_else (k st) again
         end) (String.length (m_rest st)) st
  | Group i a =>
      run a st (fun st1 =>
        k (MState (m_pos st1) (m_rest st1)
             ((i, take (m_pos st1 - m_pos st) (m_rest st)) :: m_groups st1)))
  | Bol => if (m_pos st =? 0)%nat then k st else None
  | Eol => if at_eol (m_rest st) then k st else None
  end.

Definition start (pos : nat) (s : string) : mstate := MState pos s [].

(** [pattern.match(s)] *)
Definition rmatch (r : regex) (s : string) : option mstate :=
  run r (start 0 s) Some.

(** [m.group(i)]; [None] when the group took no part in the match. *)
Fixpoint lookup (i : nat) (gs : list (nat * string)) : option string :=
  match gs with
  | [] => None
  | (j, v) :: r => if (i =? j)%nat then Some v else lookup i r
  end.

Definition group (i : nat) (m : mstate) : option string :=
  lookup i (m_groups m).

(** The text of a group as [findall] reports it. *)
Definition group_text (i : nat) (m : mstate) : string :=
  match group i m with
  | Some v => v
  | None => EmptyString
  end.

(** The non-overlapping matches from left to right, for [finditer] and
    [findall]. *)
Fixpoint scan (fuel : nat) (r : regex) (pos : nat) (s : string)
  : list mstate :=
  match fuel with
  | O => []
  | S fuel' =>
      let step (_ : unit) :=
        match s with
        | EmptyString => []
        | String _ s' => scan fuel' r (S pos) s'
        end in
      match run r (start pos s) Some with
      | Some m =>
          m :: (if (pos <? m_pos m)%nat
                then scan fuel' r (m_pos m) (m_rest m)
                else step tt)
      | None => step tt
      end
  end.

Definition finditer (r : regex) (s : string) : list mstate :=
  scan (S (String.length s)) r 0 s.

(** ** Pattern combinators *)

Definition chr (c : ascii) : regex := Chr (Ascii.eqb c).

(** One character under [re.IGNORECASE]. *)
Definition chr_ci (c : ascii) : regex :=
  Chr (fun x => Ascii.eqb (lower_char x) (lower_char c)).

Fixpoint lit (s : string) : regex :=
  match s with
  | EmptyString => Eps
  | String c r => Seq (chr c) (lit r)
  end.

Fixpoint lit_ci (s : string) : regex :=
  match s with
  | EmptyString => Eps
  | String c r => Seq (chr_ci c) (lit_ci r)
  end.

Definition plus (a : regex) : regex := Seq a (Star true a).
Definition star (a : regex) : regex := Star true a.
Definition lazy_star (a : regex) : regex := Star false a.
Definition opt (a : regex) : regex := Alt a Eps.

(** [a{n}] and [a{n,m}], greedy. *)
Fixpoint times (n : nat) (a : regex) : regex :=
  match n with
  | O => Eps
  | S n' => Seq a (times n' a)
  end.

Fixpoint upto (n : nat) (a : regex) : regex :=
  match n with
  | O => Eps
  | S n' => opt (Seq a (upto n' a))
  end.

Definition between (n m : nat) (a : regex) : regex :=
  Seq (times n a) (upto (m - n) a).

Fixpoint seqs (l : list regex) : regex :=
  match l with
  | [] => Eps
  | [a] => a
  | a :: r => Seq a (seqs r)
  end.

Fixpoint alts (l : list regex) : regex :=
  match l with
  | [] => Eps
  | [a] => a
  | a :: r => Alt a (alts r)
  end.

(** [\s], [\d], [[\d.]], [[\s\S]] *)
Definition ws : regex := Chr is_space.
Definition digit : regex := Chr is_digit.
Definition digit_or_dot : regex :=
  Chr (fun c => is_digit c || Ascii.eqb c ".").
Definition any_char : regex := Chr (fun c => is_space c || negb (is_space c)).

(** ** The module's patterns *)

(** [([a-zA-Z-]+)\s*:\s*([^;]+)], [re.IGNORECASE] *)
Definition STYLE_PROP_RE : regex :=
  seqs [ Group 1 (plus (Chr (fun c => is_alpha c || Ascii.eqb c "-")));
         star ws; chr ":"; star ws;
         Group 2 (plus (Chr (fun c => negb (Ascii.eqb c ";")))) ].

(** [^#([0-9a-f]{3,8})$], [re.IGNORECASE] *)
Definition COLOR_HEX_RE : regex :=
  seqs [ Bol; chr "#";
         Group 1 (between 3 8
                    (Chr (fun c => match hex_val c with
                                   | Some _ => true
                                   | None => false
                                   end)));
         Eol ].

(** [rgba?\(\s*(\d+)\s*,\s*(\d+)\s*,\s*(\d+)\s*,?\s*([\d.]+)?\s*\)],
    [re.IGNORECASE] *)
Definition RGB_RE : regex :=
  seqs [ lit_ci "rgb"; opt (chr_ci "a"); chr "("; star ws;
         Group 1 (plus digit); star ws; chr ","; star ws;
         Group 2 (plus digit); star ws; chr ","; star ws;
         Group 3 (plus digit); star ws; opt (chr ","); star ws;
         opt (Group 4 (plus digit_or_dot)); star ws; chr ")" ].

(** [hsla?\(\s*(\d+)\s*,\s*(\d+)%\s*,\s*(\d+)%\s*,?\s*([\d.]+)?\s*\)],
    [re.IGNORECASE] *)
Definition HSL_RE : regex :=
  seqs [ lit_ci "hsl"; opt (chr_ci "a"); chr "("; star ws;
         Group 1 (plus digit); star ws; chr ","; star ws;
         Group 2 (plus digit); chr "%"; star ws; chr ","; star ws;
         Group 3 (plus digit); chr "%"; star ws; opt (chr ","); star ws;
         opt (Group 4 (plus digit_or_dot)); star ws; chr ")" ].

(** [([-+]?[\d.]+)(px|pt|em|rem|%)?] *)
Definition LENGTH_RE : regex :=
  seqs [ Group 1 (Seq (opt (Chr (fun c => Ascii.eqb c "-" || Ascii.eqb c "+")))
                      (plus digit_or_dot));
         opt (Group 2 (alts [lit "px"; lit "pt"; lit "em"; lit "rem"; lit "%"])) ].

(** [^([\d.]+)(px|pt|em|%)$], the pattern of [_parse_font_size] *)
Definition FONT_SIZE_RE : regex :=
  seqs [ Bol; Group 1 (plus digit_or_dot);
         Group 2 (alts [lit "px"; lit "pt"; lit "em"; lit "%"]); Eol ].

(** [^\d+$], the pattern applied to a [width] attribute *)
Definition DIGITS_RE : regex := seqs [ Bol; plus digit; Eol ].

(** [<!$$if\s+([^>]+)$$>([\s\S]*?)<!$$endif$$>], [re.IGNORECASE]: the
    pattern as the module compiles it, each [$] an end-of-subject
    assertion. *)
Definition SPLIT_CONDITIONAL_RE : regex :=
  seqs [ chr "<"; chr "!"; Eol; Eol; lit_ci "if"; plus ws;
         Group 1 (plus (Chr (fun c => negb (Ascii.eqb c ">"))));
         Eol; Eol; chr ">";
         Group 2 (lazy_star any_char);
         chr "<"; chr "!"; Eol; Eol; lit_ci "endif"; Eol; Eol; chr ">" ].

End Regex.

(* ================================================================== *)
(** * Exceptions, dynamic values, colours and styles *)
(* ================================================================== *)

Module Py.

Import PyStr.

Inductive exn : Type :=
| KeyError | ValueError | TypeError | AttributeError | IndexError
| OverflowError | ZeroDivisionError | RecursionError.

(** The outcome of a call: a value, or the exception it raised. *)
Inductive res (A : Type) : Type :=
| Ok (a : A)
| Raise (e : exn).
Arguments Ok {A} a.
Arguments Raise {A} e.

Definition bind {A B} (x : res A) (f : A -> res B) : res B :=
  match x with
  | Ok a => f a
  | Raise e => Raise e
  end.

Definition of_option {A} (e : exn) (x : option A) : res A :=
  match x with
  | Some a => Ok a
  | None => Raise e
  end.

Definition is_ok {A} (x : res A) : bool :=
  match x with
  | Ok _ => true
  | Raise _ => false
  end.

Module Import Notations.
Notation "x <- c1 ;; c2" := (bind c1 (fun x => c2))
  (at level 61, c1 at next level, right associativity).
Notation "' p <- c1 ;; c2" := (bind c1 (fun x => let 'p := x in c2))
  (at level 61, p pattern, c1 at next level, right associativity).
End Notations.

(** Sequential [for] loop over a list whose body can raise. *)
Fixpoint mapM {A B} (f : A -> res B) (l : list A) : res (list B) :=
  match l with
  | [] => Ok []
  | x :: r => y <- f x ;; ys <- mapM f r ;; Ok (y :: ys)
  end.

(** [any(f(x) for x in l)]: stops at the first true element, so a later
    element that would raise is not reached. *)
Fixpoint anyM {A} (f : A -> res bool) (l : list A) : res bool :=
  match l with
  | [] => Ok false
  | x :: r => b <- f x ;; if b then Ok true else anyM f r
  end.

(** The values the analyzer handles: [None], [int], [float], [str],
    tuples, lists, and mappings with string keys. *)
Inductive pyval : Type :=
| VNone
| VInt (z : Z)
| VFloat (f : float)
| VStr (s : string)
| VTuple (l : list pyval)
| VList (l : list pyval)
| VDict (d : list (string * pyval)).

(** ** Mappings in insertion order *)

Section Dict.
Context {V : Type}.

Fixpoint dget (k : string) (d : list (string * V)) : option V :=
  match d with
  | [] => None
  | (k', v) :: r => if String.eqb k k' then Some v else dget k r
  end.

(** [d[k] = v]: an existing key keeps its place. *)
Fixpoint dset (k : string) (v : V) (d : list (string * V))
  : list (string * V) :=
  match d with
  | [] => [(k, v)]
  | (k', v') :: r =>
      if String.eqb k k' then (k, v) :: r else (k', v') :: dset k v r
  end.

(** [k in d] *)
Definition dmem (k : string) (d : list (string * V)) : bool :=
  match dget k d with
  | Some _ => true
  | None => false
  end.

(** [dict(pairs)] *)
Definition dict_of (pairs : list (string * V)) : list (string * V) :=
  fold_left (fun d kv => dset (fst kv) (snd kv) d) pairs [].
End Dict.

(** ** Colours *)

(** A colour as every parse path of the module builds it: the mapping
    [{'rgb': (r, g, b), 'alpha': a}] with [int] channels and a [float]
    alpha. *)
Record Color : Type := mkColor {
  rgb : Z * Z * Z;
  alpha : float
}.

Definition color_val (c : Color) : pyval :=
  let '(r, g, b) := rgb c in
  VDict [("rgb", VTuple [VInt r; VInt g; VInt b]); ("alpha", VFloat (alpha c))].

Definition opaque_black : Color := mkColor (0, 0, 0) 1.0.
Definition opaque_white : Color := mkColor (255, 255, 255) 1.0.
Definition transparent_black : Color := mkColor (0, 0, 0) 0.0.

(** [a == b] on two colour mappings: the channels as integers, the
    alphas by the [float] comparison. *)
Definition color_eqb (a b : Color) : bool :=
  let '(r1, g1, b1) := rgb a in
  let '(r2, g2, b2) := rgb b in
  (r1 =? r2) && (g1 =? g2) && (b1 =? b2) && PrimFloat.eqb (alpha a) (alpha b).

(** ** Conversions *)

(** [float(v)] *)
Definition py_float (v : pyval) : res float :=
  match v with
  | VFloat f => Ok f
  | VInt z => of_option OverflowError (PyFloat.of_Z z)
  | VStr s => of_option ValueError (PyFloat.of_string s)
  | _ => Raise TypeError
  end.

(** A number used in [float] arithmetic. *)
Definition as_number (v : pyval) : res float :=
  match v with
  | VFloat f => Ok f
  | VInt z => of_option OverflowError (PyFloat.of_Z z)
  | _ => Raise TypeError
  end.

(** [str(v)]; strings inside containers are quoted without escapes. *)
Fixpoint py_repr (v : pyval) : string :=
  let items := fix items (l : list pyval) : list string :=
    match l with
    | [] => []
    | x :: r => py_repr x :: items r
    end in
  let entries := fix entries (d : list (string * pyval)) : list string :=
    match d with
    | [] => []
    | (k, x) :: r => ("'" ++ k ++ "': " ++ py_repr x) :: entries r
    end in
  match v with
  | VNone => "None"
  | VInt z => PyStr.of_Z z
  | VFloat f => PyFloat.repr f
  | VStr s => "'" ++ s ++ "'"
  | VTuple [x] => "(" ++ py_repr x ++ ",)"
  | VTuple l => "(" ++ join ", " (items l) ++ ")"
  | VList l => "[" ++ join ", " (items l) ++ "]"
  | VDict d => "{" ++ join ", " (entries d) ++ "}"
  end.

Definition py_str (v : pyval) : string :=
  match v with
  | VStr s => s
  | _ => py_repr v
  end.

(** [v == s] for a string literal [s] *)
Definition is_str (s : string) (v : option pyval) : bool :=
  match v with
  | Some (VStr t) => String.eqb t s
  | _ => false
  end.

(** ** Styles *)

(** A style maps property names to colours (as mappings) and strings. *)
Definition style : Type := list (string * pyval).

(** [INHERITABLE_PROPS] *)
Definition INHERITABLE_PROPS : list string :=
  [ "color"; "font-family"; "font-size"; "font-weight";
    "font-style"; "line-height"; "text-indent"; "visibility";
    "opacity"; "background-color"; "bgcolor" ].

(** [DEFAULT_STYLE] *)
Definition DEFAULT_STYLE : style :=
  [ ("color", color_val opaque_black);
    ("background-color", color_val opaque_white);
    ("font-size", VStr "16px");
    ("opacity", VStr "1") ].

(** [EXCLUDED_TAGS] and [NON_STYLABLE_TAGS] *)
Definition EXCLUDED_TAGS : list string :=
  [ "script"; "style"; "meta"; "link"; "noscript"; "svg"; "img"; "title" ].

Definition NON_STYLABLE_TAGS : list string :=
  EXCLUDED_TAGS ++ [ "br"; "hr"; "img"; "meta"; "link" ].

(** [{k: copy.deepcopy(v) for k, v in st.items() if k in INHERITABLE_PROPS}] *)
Definition inheritable (st : style) : style :=
  filter (fun kv => mem (fst kv) INHERITABLE_PROPS) st.

End Py.

(* ================================================================== *)
(** * Colour handling *)
(* ================================================================== *)

Module Colors.

Import PyStr Regex Py Py.Notations.
Local Open Scope float_scope.

(** Python's [min(a, b)] and [max(a, b)] on floats: the first argument is
    kept unless the second compares strictly better. *)
Definition fmin (a b : float) : float := if PrimFloat.ltb b a then b else a.
Definition fmax (a b : float) : float := if PrimFloat.ltb a b then b else a.

(** [hue_to_rgb(p, q, t)], the helper nested in [_hsl_to_rgb] *)
Definition hue_to_rgb (p q t : float) : float :=
  let t := t + (if PrimFloat.ltb t 0 then 1 else 0) in
  let t := t - (if PrimFloat.ltb 1 t then 1 else 0) in
  if PrimFloat.ltb t (1 / 6) then p + (q - p) * 6 * t
  else if PrimFloat.ltb t (1 / 2) then q
  else if PrimFloat.ltb t (2 / 3) then p + (q - p) * (2 / 3 - t) * 6
  else p.

(** [int(round(x * 255))] *)
Definition to_channel (x : float) : res Z :=
  match Prim2SF (x * 255) with
  | S754_nan => Raise ValueError
  | S754_infinity _ => Raise OverflowError
  | _ => of_option OverflowError (PyFloat.round_int (x * 255))
  end.

(** [_hsl_to_rgb(h, s, l, alpha)] on the integers read from the pattern *)
Definition _hsl_to_rgb (h s l : Z) (alpha : float) : res Color :=
  h <- as_number (VInt h) ;;
  s <- as_number (VInt s) ;;
  l <- as_number (VInt l) ;;
  let h := h / 360.0 in
  let s := s / 100.0 in
  let l := l / 100.0 in
  let '(r, g, b) :=
    if PrimFloat.eqb s 0 then (l, l, l)
    else
      let q := if PrimFloat.ltb l 0.5 then l * (1 + s) else l + s - l * s in
      let p := 2 * l - q in
      (hue_to_rgb p q (h + 1 / 3), hue_to_rgb p q h, hue_to_rgb p q (h - 1 / 3)) in
  r <- to_channel r ;;
  g <- to_channel g ;;
  b <- to_channel b ;;
  Ok (mkColor (r, g, b) alpha).

(** [float(m.group(4) or 1)] *)
Definition alpha_group (m : mstate) : res float :=
  match group 4 m with
  | None | Some EmptyString => Ok 1
  | Some s => py_float (VStr s)
  end.

Definition int_group (i : nat) (m : mstate) : Z :=
  int_of_digits (group_text i m).

Section WithNames.

(** [webcolors.name_to_rgb]; [None] stands for its [ValueError]. *)
Variable name_to_rgb : string -> option (Z * Z * Z).

(** [_parse_color_string(value)] *)
Definition _parse_color_string (value : string) : res Color :=
  let value := lower (strip value) in
  if String.eqb value "transparent" then Ok transparent_black
  else
  match rmatch COLOR_HEX_RE value with
  | Some hex_match =>
      let hex_val := group_text 1 hex_match in
      let hex_val :=
        if (String.length hex_val =? 3)%nat || (String.length hex_val =? 4)%nat
        then double_chars hex_val else hex_val in
      let rgb_part := take 6 hex_val in
      let alpha_hex :=
        if (6 <? String.length hex_val)%nat then drop 6 hex_val else EmptyString in
      let alpha_hex := take 2 (alpha_hex ++ "ff") in
      a <- of_option ValueError (int_of_hex alpha_hex) ;;
      a <- as_number (VInt a) ;;
      r <- of_option ValueError (int_of_hex (slice 0 2 rgb_part)) ;;
      g <- of_option ValueError (int_of_hex (slice 2 4 rgb_part)) ;;
      b <- of_option ValueError (int_of_hex (slice 4 6 rgb_part)) ;;
      Ok (mkColor (r, g, b) (a / 255.0))
  | None =>
  match rmatch RGB_RE value with
  | Some rgb_match =>
      a <- alpha_group rgb_match ;;
      Ok (mkColor (int_group 1 rgb_match, int_group 2 rgb_match,
                   int_group 3 rgb_match) a)
  | None =>
  match rmatch HSL_RE value with
  | Some hsl_match =>
      let h := int_group 1 hsl_match in
      let s := int_of_digits (remove_char "%" (group_text 2 hsl_match)) in
      let l := int_of_digits (remove_char "%" (group_text 3 hsl_match)) in
      a <- alpha_group hsl_match ;;
      _hsl_to_rgb h s l a
  | None =>
      c <- of_option ValueError (name_to_rgb value) ;;
      Ok (mkColor c 1.0)
  end end end.

(** [clamp(x)], the helper nested in [_parse_color_tuple]:
    [max(0, min(x, 255))].  The channels of [Color] are integers, so the
    embedding is restricted to [int] components: a [float] component,
    which Python would clamp and keep as a [float] channel, is reported
    like the components Python rejects. *)
Definition clamp (x : pyval) : res Z :=
  match x with
  | VInt z =>
      let m := if (255 <? z)%Z then 255%Z else z in
      Ok (if (0 <? m)%Z then m else 0%Z)
  | _ => Raise TypeError
  end.

(** [max(0.0, min(alpha, 1.0))]; an [int] result (only [1]) is read as
    the equal [float]. *)
Definition clamp_alpha (a : pyval) : res float :=
  match a with
  | VInt z => Ok (if (0 <? z)%Z then 1.0 else 0.0)
  | VFloat a =>
      let m := if PrimFloat.ltb 1.0 a then 1.0 else a in
      Ok (if PrimFloat.ltb 0.0 m then m else 0.0)
  | _ => Raise TypeError
  end.

(** [_parse_color_tuple(value_tuple)] *)
Definition _parse_color_tuple (value_tuple : list pyval) : res Color :=
  match value_tuple with
  | r :: g :: b :: rest =>
      match rest with
      | [] | [_] =>
          let a := match rest with [a] => a | _ => VFloat 1.0 end in
          r <- clamp r ;;
          g <- clamp g ;;
          b <- clamp b ;;
          a <- clamp_alpha a ;;
          Ok (mkColor (r, g, b) a)
      | _ => Ok opaque_black
      end
  | _ => Ok opaque_black
  end.

(** [tuple(v)] read as three [int] channels; a sequence of another shape
    is outside [Color] and reported as an error. *)
Definition channels_of (v : pyval) : res (Z * Z * Z) :=
  match v with
  | VTuple [VInt r; VInt g; VInt b] | VList [VInt r; VInt g; VInt b] =>
      Ok (r, g, b)
  | _ => Raise TypeError
  end.

(** [_parse_color_dict(value_dict)] *)
Definition _parse_color_dict (value_dict : pyval) : res Color :=
  match value_dict with
  | VDict d =>
      match dget "rgb" d, dget "alpha" d with
      | Some c, Some a =>
          c <- channels_of c ;;
          a <- py_float a ;;
          Ok (mkColor c a)
      | _, _ => Ok opaque_black
      end
  | _ => Raise TypeError
  end.

(** [_parse_color(value, colortype)] *)
Definition _parse_color (value : pyval) (colortype : string) : Color :=
  let parsed :=
    match value with
    | VStr s => _parse_color_string s
    | VTuple l => _parse_color_tuple l
    | VList l => _parse_color_tuple l
    | _ => _parse_color_dict value
    end in
  match parsed with
  | Ok c => c
  | Raise _ =>
      if String.eqb colortype "fg" then opaque_black else opaque_white
  end.

(** [d['alpha']] and [d['rgb'][i]] as the blend reads them from a
    mapping, in [float] arithmetic. *)
Definition alpha_of (d : list (string * pyval)) : res float :=
  v <- of_option KeyError (dget "alpha" d) ;; as_number v.

Definition channel_of (d : list (string * pyval)) (i : nat) : res float :=
  v <- of_option KeyError (dget "rgb" d) ;;
  match v with
  | VTuple l | VList l =>
      x <- of_option IndexError (nth_error l i) ;; as_number x
  | VDict _ => Raise KeyError
  | _ => Raise TypeError
  end.

Definition as_mapping (v : pyval) (colortype : string)
  : list (string * pyval) :=
  match v with
  | VDict d => d
  | _ => match color_val (_parse_color v colortype) with
         | VDict d => d
         | _ => []
         end
  end.

(** [int(min(255, x))] *)
Definition blend_channel (x : float) : res Z :=
  if PrimFloat.ltb x 255 then of_option OverflowError (PyFloat.trunc x)
  else Ok 255%Z.

(** [_blend_colors(fg, bg)] *)
Definition _blend_colors (fg bg : pyval) : res Color :=
  let fg := as_mapping fg "fg" in
  let bg := as_mapping bg "bg" in
  fa <- alpha_of fg ;;
  ba <- alpha_of bg ;;
  if PrimFloat.eqb fa 0 then Ok transparent_black
  else
    let blended (i : nat) : res Z :=
      f <- channel_of fg i ;;
      b <- channel_of bg i ;;
      blend_channel (f * fa + b * ba * (1 - fa)) in
    r <- blended 0%nat ;;
    g <- blended 1%nat ;;
    b <- blended 2%nat ;;
    Ok (mkColor (r, g, b) (fa + ba * (1 - fa))).

End WithNames.

Section WithPow.

(** The C library's [pow], which [float.__pow__] calls. *)
Variable float_pow : float -> float -> float.

(** [linearize(c)], the helper nested in [_calculate_contrast] *)
Definition linearize (c : Z) : res float :=
  c <- as_number (VInt c) ;;
  let c := c / 255.0 in
  Ok (if PrimFloat.leb c 0.03928 then c / 12.92
      else float_pow ((c + 0.055) / 1.055) 2.4).

(** [sum(coeff * linearize(c) for coeff, c in zip([0.2126, 0.7152, 0.0722], rgb))] *)
Definition luminance (c : Color) : res float :=
  let '(r, g, b) := rgb c in
  lr <- linearize r ;;
  lg <- linearize g ;;
  lb <- linearize b ;;
  Ok (0 + 0.2126 * lr + 0.7152 * lg + 0.0722 * lb).

(** [_calculate_contrast(fg, bg)] *)
Definition _calculate_contrast (fg bg : Color) : res float :=
  l1 <- luminance fg ;;
  l2 <- luminance bg ;;
  let l1 := l1 + 0.05 in
  let l2 := l2 + 0.05 in
  let hi := fmax l1 l2 in
  let lo := fmin l1 l2 in
  if PrimFloat.eqb lo 0 then Raise ZeroDivisionError
  else Ok (PyFloat.round2 (hi / lo)).

End WithPow.

End Colors.

(* ================================================================== *)
(** * The parsed document *)
(* ================================================================== *)

Module Dom.

Import PyStr Py.

(** The classes of string nodes BeautifulSoup builds. *)
Inductive strkind : Type :=
| NavigableString        (* plain text *)
| CData
| Comment
| Declaration
| Doctype
| ProcessingInstruction
| Stylesheet             (* text of a [style] element *)
| Script                 (* text of a [script] element *)
| TemplateString         (* text of a [template] element *)
| RubyTextString         (* text of an [rt] element *)
| RubyParenthesisString. (* text of an [rp] element *)

(** A node of the tree: an element with its attributes and children, or a
    string.  The root is the element named ["[document]"]. *)
Inductive node : Type :=
| Tag (name : string) (attrs : list (string * string)) (children : list node)
| Str (kind : strkind) (text : string).

Definition is_tag (n : node) : bool :=
  match n with
  | Tag _ _ _ => true
  | Str _ _ => false
  end.

Definition name (n : node) : option string :=
  match n with
  | Tag nm _ _ => Some nm
  | Str _ _ => None
  end.

Definition has_name (nm : string) (n : node) : bool :=
  match n with
  | Tag nm' _ _ => String.eqb nm' nm
  | Str _ _ => false
  end.

(** [node.children], [node.contents] *)
Definition children (n : node) : list node :=
  match n with
  | Tag _ _ cs => cs
  | Str _ _ => []
  end.

Definition attrs (n : node) : list (string * string) :=
  match n with
  | Tag _ a _ => a
  | Str _ _ => []
  end.

(** [node.get(key, default)] *)
Definition get (n : node) (key default : string) : string :=
  match dget key (attrs n) with
  | Some v => v
  | None => default
  end.

(** [node.get('class', [])]: BeautifulSoup keeps [class] as the list of
    its whitespace-separated values. *)
Definition get_class (n : node) : list string :=
  match dget "class" (attrs n) with
  | Some v => split_ws v
  | None => []
  end.

(** [{k.lower(): v for k, v in node.attrs.items()}] *)
Definition lower_attrs (n : node) : list (string * string) :=
  dict_of (map (fun kv => (lower (fst kv), snd kv)) (attrs n)).

(** [node.descendants]: every node below [n], in document order. *)
Fixpoint descendants (n : node) : list node :=
  match n with
  | Tag _ _ cs =>
      (fix each (l : list node) : list node :=
         match l with
         | [] => []
         | c :: r => (c :: descendants c ++ each r)%list
         end) cs
  | Str _ _ => []
  end.

Fixpoint size (n : node) : nat :=
  match n with
  | Tag _ _ cs => S (fold_right (fun c acc => (size c + acc)%nat) O cs)
  | Str _ _ => 1%nat
  end.

(** [tag.interesting_string_types]: the string classes that count as the
    text of an element. *)
Definition kind_eqb (a b : strkind) : bool :=
  match a, b with
  | NavigableString, NavigableString | CData, CData | Comment, Comment
  | Declaration, Declaration | Doctype, Doctype
  | ProcessingInstruction, ProcessingInstruction
  | Stylesheet, Stylesheet | Script, Script
  | TemplateString, TemplateString | RubyTextString, RubyTextString
  | RubyParenthesisString, RubyParenthesisString => true
  | _, _ => false
  end.

Definition interesting (tag_name : string) (k : strkind) : bool :=
  if String.eqb tag_name "style" then kind_eqb k Stylesheet
  else if String.eqb tag_name "script" then kind_eqb k Script
  else if String.eqb tag_name "template" then kind_eqb k TemplateString
  else if String.eqb tag_name "rt" then kind_eqb k RubyTextString
  else if String.eqb tag_name "rp" then kind_eqb k RubyParenthesisString
  else kind_eqb k NavigableString || kind_eqb k CData.

(** [node.stripped_strings]: the interesting strings below [n], stripped,
    the empty ones left out. *)
Definition stripped_strings (n : node) : list string :=
  match n with
  | Tag nm _ _ =>
      flat_map (fun d =>
                  match d with
                  | Str k s =>
                      if interesting nm k
                      then match strip s with
                           | EmptyString => []
                           | t => [t]
                           end
                      else []
                  | Tag _ _ _ => []
                  end) (descendants n)
  | Str _ _ => []
  end.

(** [soup.find('body')]: the first element named [body] below [n]. *)
Definition find_body (n : node) : option node :=
  find (has_name "body") (descendants n).

(** The comments below [n] in document order, each with its parent, as
    [find_all(string=lambda t: isinstance(t, Comment))] and [.parent] give
    them. *)
Fixpoint comments (n : node) : list (string * node) :=
  match n with
  | Tag _ _ cs =>
      (fix each (l : list node) : list (string * node) :=
         match l with
         | [] => []
         | Str Comment s :: r => (s, n) :: each r
         | c :: r => (comments c ++ each r)%list
         end) cs
  | Str _ _ => []
  end.

(** Applies [f] in place to the first element named [body] below the
    root; [None] when there is none. *)
Fixpoint at_body (f : node -> node) (n : node) : option node :=
  match n with
  | Tag nm a cs =>
      option_map (Tag nm a)
        ((fix each (l : list node) : option (list node) :=
            match l with
            | [] => None
            | c :: r =>
                if has_name "body" c then Some (f c :: r)
                else match at_body f c with
                     | Some c' => Some (c' :: r)
                     | None => option_map (cons c) (each r)
                     end
            end) cs)
  | Str _ _ => None
  end.

End Dom.

(* ================================================================== *)
(** * The analyzer: style resolution and the visibility checks *)
(* ================================================================== *)

Module Analyzer.

Import PyStr Regex Py Py.Notations Colors Dom.
Local Open Scope float_scope.
Local Open Scope list_scope.

(** The reasons [_check_visibility] reports, one constructor per message;
    a message built with an f-string carries the interpolated value. *)
Inductive reason : Type :=
| Visibility                      (* visibility is hidden or collapse *)
| DisplayNone                     (* display:none *)
| Opacity (shown : pyval)         (* opacity:{style["opacity"]} *)
| SameColor                       (* same_color *)
| LowContrast (contrast : float)  (* low_contrast({contrast}) *)
| PositionOffset                  (* position_offset *)
| Clipping                        (* clipping *)
| FontTooSmall (px : float)       (* {font_size}px *)
| FilterEffect.                   (* filter_effect *)

Inductive record_type : Type :=
| text_record | link_record | conditional_comment | html_comment.

(** One line of the output; the keys a record does not have are [None]. *)
Record record : Type := mkRecord {
  r_text : string;
  r_type : record_type;
  r_url : option string;
  r_style : option style;
  r_visible : bool;
  r_hidden_reasons : option (list reason)
}.

(** [_parse_opacity(current_value, parent_opacity)] *)
Definition _parse_opacity (current_value parent_opacity : pyval) : string :=
  let parent_alpha :=
    match py_float parent_opacity with
    | Ok f => f
    | Raise _ => 1.0
    end in
  let current_alpha :=
    match current_value with
    | VStr s =>
        match py_float (VStr (remove_char "%" (strip s))) with
        | Ok a =>
            let a := if has_char "%" s then a / 100.0 else a in
            fmax 0.0 (fmin 1.0 a)
        | Raise _ => 1.0
        end
    | _ => 1.0                    (* no [strip] method: AttributeError *)
    end in
  PyFloat.format_2f (parent_alpha * current_alpha).

(** [int(s)] on a string for which [s.isdigit()] holds: every character
    has to be a decimal digit. *)
Definition py_int (s : string) : res Z :=
  if all_chars is_digit s then Ok (int_of_digits s) else Raise ValueError.

(** The table [sizes] of [_parse_font_size] *)
Definition sizes : list (Z * Z) :=
  [ (1, 10); (2, 13); (3, 16); (4, 18); (5, 24); (6, 32); (7, 48) ]%Z.

Fixpoint sizes_get (k : Z) (t : list (Z * Z)) : option Z :=
  match t with
  | [] => None
  | (k', v) :: r => if (k =? k')%Z then Some v else sizes_get k r
  end.

(** [_parse_font_size(value)] *)
Definition _parse_font_size (value : string) : res string :=
  let value := lower (strip value) in
  legacy <-
    (if isdigit value then
       n <- py_int value ;;
       Ok ((1 <=? n)%Z && (n <=? 7)%Z)
     else Ok false) ;;
  if legacy
  then
    px <- of_option KeyError (sizes_get (int_of_digits value) sizes) ;;
    Ok (PyStr.of_Z px ++ "px")%string
  else
    match rmatch FONT_SIZE_RE value with
    | Some m =>
        let unit := group_text 2 m in
        num <- py_float (VStr (group_text 1 m)) ;;
        if String.eqb unit "pt" then
          match Prim2SF (num * 1.333) with
          | S754_nan => Raise ValueError
          | S754_infinity _ => Raise OverflowError
          | _ =>
              n <- of_option OverflowError (PyFloat.round_int (num * 1.333)) ;;
              Ok (PyStr.of_Z n ++ "px")%string
          end
        else Ok (PyFloat.repr num ++ unit)%string
    | None => Ok "16px"%string
    end.

(** [_parse_length(value)], with [base_size = 16]; [Ok None] is the
    [None] it returns when the pattern does not match. *)
Definition _parse_length (value : pyval) : res (option float) :=
  match rmatch LENGTH_RE (py_str value) with
  | None => Ok None
  | Some m =>
      num <- py_float (VStr (group_text 1 m)) ;;
      let unit_is u := match group 2 m with
                       | Some v => String.eqb v u
                       | None => false
                       end in
      Ok (Some (if unit_is "pt"%string then num * 1.333
                else if unit_is "em"%string then num * 16
                else if unit_is "rem"%string then num * 16
                else if unit_is "%"%string then num / 100 * 16
                else num))
  end.

(** [_is_large_offset(value)], read as a truth value: [parsed and
    abs(parsed) > threshold] with [threshold = 1000]. *)
Definition _is_large_offset (value : pyval) : res bool :=
  parsed <- _parse_length value ;;
  Ok (match parsed with
      | None => false
      | Some p =>
          if PrimFloat.eqb p 0 then false
          else PrimFloat.ltb 1000 (PrimFloat.abs p)
      end).

(** The set [offset_props] of [_check_position_offset], in the order of
    the source text. *)
Definition offset_props : list string :=
  [ "left"; "right"; "top"; "bottom";
    "margin-left"; "margin-right"; "margin-top"; "margin-bottom";
    "text-indent" ]%string.

(** [_check_position_offset(style)].  [any] visits the set
    [offset_props] in the order of its hash table, which changes from one
    run of the interpreter to the next, and stops at the first large
    offset or at the first value that cannot be read: [offset_order] is
    the order of the run. *)
Definition _check_position_offset (offset_order : list string) (st : style)
  : res bool :=
  anyM (fun prop =>
          _is_large_offset (match dget prop st with
                            | Some v => v
                            | None => VStr "0"
                            end)) offset_order.

(** [_is_hidden_clip(value)] *)
Definition _is_hidden_clip (value : pyval) : res bool :=
  match value with
  | VStr s =>
      let value := lower s in
      Ok (existsb (fun pattern => contains pattern value)
            [ "inset(100%"; "rect(0"; "circle(0"; "polygon(0 0" ]%string)
  | _ => Raise AttributeError
  end.

(** [_check_clipping(style)] *)
Definition _check_clipping (st : style) : res bool :=
  anyM (fun prop =>
          match dget prop st with
          | Some v => _is_hidden_clip v
          | None => Ok false
          end) [ "clip-path"; "clip" ]%string.

(** [_is_hiding_filter(filter_func)] *)
Definition _is_hiding_filter (filter_func : string) : res bool :=
  let filter_func := lower filter_func in
  if startswith "opacity(" filter_func then
    x <- py_float (VStr (strip_char "%" (slice_to_last 7 filter_func))) ;;
    Ok (PrimFloat.leb x 5)
  else if startswith "blur(" filter_func then
    let blur_val := slice_to_last 5 filter_func in
    v <- _parse_length (VStr blur_val) ;;
    match v with
    | Some x => Ok (PrimFloat.ltb 10 x)
    | None => Raise TypeError
    end
  else Ok false.

(** [_check_filter(style)] *)
Definition _check_filter (st : style) : res bool :=
  match dget "filter" st with
  | None => Ok false
  | Some (VStr s) => anyM _is_hiding_filter (split_ws s)
  | Some _ => Raise AttributeError
  end.

Section WithLibraries.

(** The order in which this run of the interpreter visits the set
    [offset_props]. *)
Variable offset_order : list string.

Variable float_pow : float -> float -> float.
Variable name_to_rgb : string -> option (Z * Z * Z).

Local Abbreviation parse_color := (_parse_color name_to_rgb).
Local Abbreviation blend_colors := (_blend_colors name_to_rgb).

(** The attribute branch shared by [color], [text] and the inline
    [color] declaration: the parsed colour goes to [style['color']] and
    its alpha is handed to [_parse_opacity]. *)
Definition set_color (value : string) (state : style * string)
  : style * string :=
  let '(st, current_opacity) := state in
  let c := parse_color (VStr value) "fg" in
  (dset "color" (color_val c) st,
   _parse_opacity (VFloat (alpha c)) (VStr current_opacity)).

(** The [font] branch of [_parse_node_style] *)
Definition font_attributes (node : Dom.node) (state : style * string)
  : res (style * string) :=
  if has_name "font" node then
    let attrs := lower_attrs node in
    let state :=
      match dget "color" attrs with
      | Some v => set_color v state
      | None => state
      end in
    match dget "size" attrs with
    | Some v =>
        fs <- _parse_font_size v ;;
        Ok (dset "font-size" (VStr fs) (fst state), snd state)
    | None => Ok state
    end
  else Ok state.

(** [align_map.get(attrs['align'].lower(), 'left')] *)
Definition align_map (v : string) : string :=
  let v := lower v in
  if String.eqb v "left" then "left"
  else if String.eqb v "right" then "right"
  else if String.eqb v "center" then "center"
  else if String.eqb v "middle" then "center"
  else if String.eqb v "justify" then "justify"
  else "left".

(** The [bgcolor] / [text] / [align] / [width] branch *)
Definition table_attributes (node : Dom.node) (state : style * string)
  : res (style * string) :=
  if existsb (fun t => has_name t node)
       [ "table"; "tr"; "td"; "th"; "font"; "body" ]%string
  then
    let attrs := lower_attrs node in
    state <-
      match dget "bgcolor" attrs with
      | Some v =>
          let parsed_color := parse_color (VStr v) "bg" in
          match dget "background-color" (fst state) with
          | Some existing_bg =>
              new_bg <- blend_colors (color_val parsed_color) existing_bg ;;
              Ok (dset "background-color" (color_val new_bg) (fst state),
                  snd state)
          | None =>
              Ok (dset "background-color" (color_val parsed_color)
                    (fst state), snd state)
          end
      | None => Ok state
      end ;;
    let state :=
      match dget "text" attrs with
      | Some v => set_color v state
      | None => state
      end in
    let state :=
      match dget "align" attrs with
      | Some v => (dset "text-align" (VStr (align_map v)) (fst state),
                   snd state)
      | None => state
      end in
    let state :=
      match dget "width" attrs with
      | Some width =>
          (dset "width"
             (VStr (match rmatch DIGITS_RE width with
                    | Some _ => width ++ "px"
                    | None => width
                    end)%string) (fst state), snd state)
      | None => state
      end in
    Ok state
  else Ok state.

(** One turn of the loop over the inline declarations *)
Definition inline_declaration (decl : string * string)
  (state : style * string) : res (style * string) :=
  let '(prop, value) := decl in
  let prop := lower prop in
  if String.eqb prop "background-color" || String.eqb prop "bgcolor" then
    Ok (dset "background-color"
          (color_val (parse_color (VStr value) "bg")) (fst state),
        snd state)
  else if String.eqb prop "color" then Ok (set_color value state)
  else if String.eqb prop "font-size" then
    fs <- _parse_font_size value ;;
    Ok (dset prop (VStr fs) (fst state), snd state)
  else if String.eqb prop "opacity" then
    Ok (fst state, _parse_opacity (VStr value) (VStr (snd state)))
  else Ok (dset prop (VStr value) (fst state), snd state).

Fixpoint inline_declarations (decls : list (string * string))
  (state : style * string) : res (style * string) :=
  match decls with
  | [] => Ok state
  | d :: r =>
      state <- inline_declaration d state ;; inline_declarations r state
  end.

(** [dict(STYLE_PROP_RE.findall(text))] *)
Definition inline_style (text : string) : list (string * string) :=
  dict_of (map (fun m => (group_text 1 m, group_text 2 m))
             (finditer STYLE_PROP_RE text)).

(** [_parse_node_style(node, inherited_style)] *)
Definition _parse_node_style (node : Dom.node) (inherited_style : style)
  : res style :=
  match node with
  | Str _ _ => Raise AttributeError
  | Tag _ _ _ =>
      let st := inherited_style in
      let current_opacity :=
        _parse_opacity (VStr (get node "opacity" "1"))
          (match dget "opacity" inherited_style with
           | Some v => v
           | None => VStr "1.0"
           end) in
      state <- font_attributes node (st, current_opacity) ;;
      state <- table_attributes node state ;;
      state <-
        match dget "style" (attrs node) with
        | Some text => inline_declarations (inline_style text) state
        | None => Ok state
        end ;;
      Ok (dset "opacity" (VStr (snd state)) (fst state))
  end.

(** [_check_visibility(style)] *)
Definition _check_visibility (st : style) : res (bool * list reason) :=
  let reasons : list reason := [] in
  let reasons :=
    if is_str "hidden" (dget "visibility" st)
       || is_str "collapse" (dget "visibility" st)
    then reasons ++ [Visibility] else reasons in
  let reasons :=
    if is_str "none" (dget "display" st)
    then reasons ++ [DisplayNone] else reasons in
  opacity <- py_float (match dget "opacity" st with
                       | Some v => v
                       | None => VInt 1
                       end) ;;
  reasons <-
    (if PrimFloat.leb opacity 0.01
     then shown <- of_option KeyError (dget "opacity" st) ;;
          Ok (reasons ++ [Opacity shown])
     else Ok reasons) ;;
  color <- of_option KeyError (dget "color" st) ;;
  let final_fg := parse_color color "fg" in
  let bg := parse_color (match dget "background-color" st with
                         | Some v => v
                         | None => VNone
                         end) "bg" in
  blended <- blend_colors (color_val bg) (color_val opaque_white) ;;
  let final_bg := parse_color (color_val blended) "fg" in
  contrast <- _calculate_contrast float_pow final_fg final_bg ;;
  let reasons :=
    if color_eqb final_fg final_bg then reasons ++ [SameColor]
    else if PrimFloat.ltb contrast 1.05
         then reasons ++ [LowContrast contrast]
         else reasons in
  offset <- _check_position_offset offset_order st ;;
  let reasons := if offset then reasons ++ [PositionOffset] else reasons in
  clipped <- _check_clipping st ;;
  let reasons := if clipped then reasons ++ [Clipping] else reasons in
  font_size <- _parse_length (match dget "font-size" st with
                              | Some v => v
                              | None => VStr "16px"
                              end) ;;
  font_size <- of_option TypeError font_size ;;
  let reasons :=
    if PrimFloat.ltb font_size 3
    then reasons ++ [FontTooSmall font_size] else reasons in
  filtered <- _check_filter st ;;
  let reasons := if filtered then reasons ++ [FilterEffect] else reasons in
  Ok (match reasons with [] => true | _ => false end, reasons).

(** ** Tree preprocessing *)

(** [_is_valid_node(node)] *)
Definition _is_valid_node (n : Dom.node) : bool :=
  match n with
  | Tag nm _ _ => negb (mem nm NON_STYLABLE_TAGS)
  | Str _ _ => false
  end.

Definition non_blank (s : string) : bool :=
  match strip s with
  | EmptyString => false
  | _ => true
  end.

(** [_is_leaf(node)] *)
Definition _is_leaf (n : Dom.node) : bool :=
  match n with
  | Str _ _ => false
  | Tag _ _ cs =>
      let has_self_text :=
        existsb (fun c => match c with
                          | Str _ s => non_blank s
                          | Tag _ _ _ => false
                          end) cs in
      let all_children_unstylable :=
        forallb (fun c => match c with
                          | Tag nm _ _ => mem nm NON_STYLABLE_TAGS
                          | Str _ _ => false
                          end) cs in
      let has_stylable_descendant :=
        existsb _is_valid_node (descendants n) in
      has_self_text
      || (all_children_unstylable && negb has_stylable_descendant)
  end.

(** [_has_any_text(node)] *)
Definition _has_any_text (n : Dom.node) : bool :=
  existsb non_blank (stripped_strings n).

(** [_has_meaningful_children(node)] *)
Definition _has_meaningful_children (n : Dom.node) : bool :=
  existsb _is_valid_node (filter is_tag (children n)).

(** [_prune_empty_nodes(node)]: the node after the call, and the
    returned flag. *)
Fixpoint _prune_empty_nodes (n : Dom.node) : Dom.node * bool :=
  match n with
  | Str _ _ => (n, false)
  | Tag nm a cs =>
      let kept :=
        (fix each (l : list Dom.node) : list Dom.node :=
           match l with
           | [] => []
           | child :: r =>
               let (child', is_empty) := _prune_empty_nodes child in
               if is_empty then each r else child' :: each r
           end) cs in
      let n' := Tag nm a kept in
      (n', negb (_has_any_text n') && negb (_has_meaningful_children n'))
  end.

(** [_prune_tree()], on the tree it mutates *)
Definition _prune_tree (soup : Dom.node) : Dom.node :=
  let prune n := fst (_prune_empty_nodes n) in
  match at_body prune soup with
  | Some soup' => soup'
  | None => prune soup
  end.

(** ** Conditional comments *)

(** [condition_map[condition].append(html_fragment)] *)
Definition add_fragment (m : list (string * list string))
  (condition html_fragment : string) : list (string * list string) :=
  dset condition
    (match dget condition m with
     | Some fragments => fragments ++ [html_fragment]
     | None => [html_fragment]
     end) m.

(** The (pattern, replacement) pairs of [_handle_split_conditionals];
    the pattern is kept as the text [re.escape] protects. *)
Definition replacements_of (condition_map : list (string * list string))
  : list (string * string) :=
  flat_map
    (fun entry =>
       let '(cond, fragments) := entry in
       if (1 <? List.length fragments)%nat then
         let merged_html :=
           ("<!--[cond:" ++ cond ++ "]-->" ++ join EmptyString fragments
              ++ "<!--[endcond]-->")%string in
         map (fun f =>
                (("<![if " ++ cond ++ "]>" ++ f ++ "<!$$endif$$>")%string,
                 merged_html)) fragments
       else []) condition_map.

(** The text [_handle_split_conditionals] hands to the parser.  Each
    substitution replaces the occurrences of an escaped, hence literal,
    pattern; the replacement is inserted as it is (a backslash in it,
    which [re.sub] reads as an escape, is not modelled). *)
Definition split_conditionals_text (content : string) : string :=
  let condition_map :=
    fold_left
      (fun m mt => add_fragment m (strip (group_text 1 mt)) (group_text 2 mt))
      (finditer SPLIT_CONDITIONAL_RE content) [] in
  fold_left
    (fun content pr => replace_all (fst pr) (snd pr) content)
    (replacements_of condition_map) content.

(** ** Text of a node *)

(** [_get_link_text(node)] *)
Definition _get_link_text (n : Dom.node) : string :=
  join " " (stripped_strings n).

(** [_get_node_text(node)] *)
Definition _get_node_text (n : Dom.node) : string :=
  strip
    (join " "
       (flat_map (fun child =>
                    match child with
                    | Str Comment _ | Str Declaration _ => []
                    | Str _ s => if non_blank s then [strip s] else []
                    | Tag _ _ _ => []
                    end) (children n))).

(** ** Path collection *)

(** The loop of [collect_paths] over its queue; every turn takes one
    entry, and the tree has [size] nodes to enqueue. *)
Fixpoint collect_loop (fuel : nat) (queue : list (Dom.node * list Dom.node))
  (paths : list (list Dom.node)) : list (list Dom.node) :=
  match fuel, queue with
  | S fuel', (n, path) :: queue' =>
      if negb (is_tag n) then collect_loop fuel' queue' paths
      else if negb (_is_valid_node n) then collect_loop fuel' queue' paths
      else
        let new_path := path ++ [n] in
        if _is_leaf n then collect_loop fuel' queue' (paths ++ [new_path])
        else
          collect_loop fuel'
            (queue' ++ map (fun child => (child, new_path))
                         (filter _is_valid_node (children n)))
            paths
  | _, _ => paths
  end.

(** ** Walking the paths *)

(** [_process_anchor_tag(node, inherited_style)] *)
Definition _process_anchor_tag (n : Dom.node) (inherited_style : style)
  : res (option record) :=
  let text := _get_link_text n in
  match text with
  | EmptyString => Ok None
  | _ =>
      link_style <- _parse_node_style n inherited_style ;;
      '(visible, reasons) <- _check_visibility link_style ;;
      Ok (Some (mkRecord text link_record (Some (get n "href" EmptyString))
                  (Some link_style) visible
                  (Some (if negb visible then reasons else []))))
  end.

(** The inner loop of [analyze_paths]: the nodes of one path. *)
Fixpoint walk_path (path : list Dom.node) (inherited_style : style)
  (results : list record) (file_visible : bool)
  : res (list record * bool) :=
  match path with
  | [] => Ok (results, file_visible)
  | n :: rest =>
      if has_name "a" n then
        link_result <- _process_anchor_tag n inherited_style ;;
        Ok (match link_result with
            | Some r => results ++ [r]
            | None => results
            end, file_visible)
      else
        current_style <- _parse_node_style n inherited_style ;;
        let text_content := _get_node_text n in
        '(results, file_visible) <-
          match text_content with
          | EmptyString => Ok (results, file_visible)
          | _ =>
              '(visible, reasons) <- _check_visibility current_style ;;
              Ok (results ++
                    [mkRecord text_content text_record None
                       (Some current_style) visible
                       (Some (if negb visible then reasons else []))],
                  if negb visible then false else file_visible)
          end ;;
        walk_path rest (inheritable current_style) results file_visible
  end.

(** The outer loop of [analyze_paths]. *)
Fixpoint walk_paths (paths : list (list Dom.node))
  (results : list record) (file_visible : bool)
  : res (list record * bool) :=
  match paths with
  | [] => Ok (results, file_visible)
  | path :: rest =>
      '(results, file_visible) <-
        walk_path path DEFAULT_STYLE results file_visible ;;
      walk_paths rest results file_visible
  end.

(** ** The analyzer object *)

(** BeautifulSoup's parser, [BeautifulSoup(text, 'html.parser')], and
    its serialiser, [str(tag)]. *)
Variable BeautifulSoup : string -> Dom.node.
Variable to_markup : Dom.node -> string.

Record DOMAnalyzer : Type := mkAnalyzer {
  soup : Dom.node;
  paths : list (list Dom.node)
}.

(** [_handle_split_conditionals(content)] *)
Definition _handle_split_conditionals (content : string) : Dom.node :=
  BeautifulSoup (split_conditionals_text content).

(** [DOMAnalyzer(html_content)] *)
Definition __init__ (html_content : string) : DOMAnalyzer :=
  mkAnalyzer (_prune_tree (_handle_split_conditionals html_content)) [].

(** [collect_paths()] *)
Definition collect_paths (self : DOMAnalyzer) : DOMAnalyzer :=
  let root := match find_body (soup self) with
              | Some body => body
              | None => soup self
              end in
  mkAnalyzer (soup self)
    (collect_loop (S (size root)) [(root, [])] (paths self)).

(** [{**elem, "type": "conditional_comment", "visible": False}] *)
Definition as_conditional (elem : record) : record :=
  mkRecord (r_text elem) conditional_comment (r_url elem) (r_style elem)
    false (r_hidden_reasons elem).

(** One turn of the loop of [_process_comments] over the comments of the
    document; [analyze] is the [analyze_paths] of the analyzer built for a
    merged block. *)
Definition comment_step
  (analyze : DOMAnalyzer -> res (list record * bool))
  (acc : res (list record)) (entry : string * Dom.node) : res (list record) :=
  results <- acc ;;
  let '(comment, parent) := entry in
  let text := strip comment in
  if startswith "[cond:" text then
    if has_name "div" parent && mem "conditional-container" (get_class parent)
    then
      let analyzer := collect_paths (__init__ (to_markup parent)) in
      '(elements, _) <- analyze analyzer ;;
      Ok (results ++ map as_conditional elements)
    else Ok results
  else Ok (results ++ [mkRecord text html_comment None None false None]).

(** [_process_comments()] *)
Definition _process_comments
  (analyze : DOMAnalyzer -> res (list record * bool)) (self : DOMAnalyzer)
  : res (list record) :=
  fold_left (comment_step analyze) (comments (soup self)) (Ok []).

(** [analyze_paths()].  [depth] bounds the nesting of analyzers built by
    [_process_comments], as the interpreter's recursion limit does. *)
Fixpoint analyze_paths (depth : nat) (self : DOMAnalyzer)
  : res (list record * bool) :=
  '(results, file_visible) <- walk_paths (paths self) [] true ;;
  extra <- _process_comments
             (match depth with
              | O => fun _ => Raise RecursionError
              | S depth' => analyze_paths depth'
              end) self ;;
  Ok (results ++ extra, file_visible).

(** The calls [process_html_file] makes on the text of a file. *)
Definition analyze_document (depth : nat) (html_content : string)
  : res (list record * bool) :=
  analyze_paths depth (collect_paths (__init__ html_content)).

End WithLibraries.

End Analyzer.

(* ================================================================== *)
(** * Methods outside the analysis, and the processing log *)
(* ================================================================== *)

(** The methods of [DOMAnalyzer] that [analyze_paths] does not reach, with
    the two patterns and the log functions of the module.  Three of them
    are left out: [_get_tag_path] and [_get_comment_path] climb the
    [.parent] links, which the tree below does not carry, and
    [_normalize_color] rests on [webcolors.hex_to_rgb]. *)

Module Helpers.

Import PyStr Regex Py Py.Notations Colors Dom Analyzer.
Local Open Scope list_scope.

(** ** The markers of conditional comments *)

(** [<!$$if\s+([^>]+)$$>], [re.IGNORECASE] *)
Definition CONDITIONAL_START_RE : regex :=
  seqs [ chr "<"; chr "!"; Eol; Eol; lit_ci "if"; plus ws;
         Group 1 (plus (Chr (fun c => negb (Ascii.eqb c ">"))));
         Eol; Eol; chr ">" ].

(** [<!$$endif$$>], [re.IGNORECASE] *)
Definition CONDITIONAL_END_RE : regex :=
  seqs [ chr "<"; chr "!"; Eol; Eol; lit_ci "endif"; Eol; Eol; chr ">" ].

(** [pattern.sub(repl, s)]: the matches [finditer] finds, from left to
    right, each replaced by [repl]; the text between them is kept. *)
Fixpoint sub_scan (fuel : nat) (r : regex) (repl : mstate -> string)
  (pos : nat) (s : string) : string :=
  match fuel with
  | O => s
  | S fuel' =>
      let step (_ : unit) :=
        match s with
        | EmptyString => EmptyString
        | String c s' => String c (sub_scan fuel' r repl (S pos) s')
        end in
      match run r (start pos s) Some with
      | Some m =>
          (repl m ++ (if (pos <? m_pos m)%nat
                      then sub_scan fuel' r repl (m_pos m) (m_rest m)
                      else step tt))%string
      | None => step tt
      end
  end.

Definition sub (r : regex) (repl : mstate -> string) (s : string) : string :=
  sub_scan (S (String.length s)) r repl 0 s.

(** The first stage of [_preprocess_conditional_comments(content)]: the
    two substitutions that standardise the markers.  The second stage
    rewrites the parsed tree in place, through [replace_with], [decompose]
    and [append] on nodes reached by their identity, and has no
    counterpart on the tree of [Dom]. *)
Definition standardize_markers (content : string) : string :=
  let content :=
    sub CONDITIONAL_START_RE
      (fun m => ("<!--[cond_begin:" ++ group_text 1 m ++ "]-->")%string)
      content in
  sub CONDITIONAL_END_RE (fun _ => "<!--[cond_end]-->"%string) content.

(** ** Tests on a node *)

(** [_is_empty_tag(tag)]; a string node has no [contents]. *)
Definition _is_empty_tag (tag : node) : res bool :=
  match tag with
  | Tag _ _ cs => Ok (List.length cs =? 0)%nat
  | Str _ _ => Raise AttributeError
  end.

(** ** Styles that bear on visibility, below a node *)

(** The set [VISIBILITY_PROPS] of [_children_have_visibility_style] *)
Definition VISIBILITY_PROPS : list string :=
  [ "color"; "background-color"; "background"; "bgcolor";
    "font"; "font-size"; "font-family"; "font-weight"; "font-style";
    "line-height"; "letter-spacing"; "text-indent"; "text-shadow";
    "display"; "visibility"; "opacity"; "filter";
    "position"; "top"; "left"; "right"; "bottom";
    "clip"; "clip-path"; "overflow"; "transform";
    "mix-blend-mode"; "isolation";
    "box-shadow"; "backdrop-filter";
    "contain"; "will-change" ]%string.

(** The truth value of [attrs.get(a)]: the attribute is there and its
    value is not the empty string. *)
Definition truthy (v : option string) : bool :=
  match v with
  | Some (String _ _) => true
  | _ => false
  end.

(** [_check_html_visibility_attrs(node)] *)
Definition _check_html_visibility_attrs (n : node) : res bool :=
  match n with
  | Str _ _ => Raise AttributeError
  | Tag nm _ _ =>
      let attrs := lower_attrs n in
      if dmem "hidden" attrs then Ok true
      else if match dget "bgcolor" attrs with
              | Some v => negb (String.eqb v "transparent")
              | None => false
              end
      then Ok true
      else
        let tag := lower nm in
        if String.eqb tag "font"
           && existsb (fun a => dmem a attrs) [ "color"; "size" ]%string
        then Ok true
        else if String.eqb tag "marquee" && dmem "behavior" attrs then Ok true
        else if mem tag [ "table"; "td"; "th" ]%string
                && dmem "background" attrs
        then Ok true
        else if existsb (fun a => truthy (dget a attrs))
                  [ "noshade"; "nowrap" ]%string
        then Ok true
        else Ok false
  end.

(** [{k.lower() for k, _ in STYLE_PROP_RE.findall(text)}] *)
Definition style_props (text : string) : list string :=
  map (fun m => lower (group_text 1 m)) (finditer STYLE_PROP_RE text).

(** The test on the inline style of a child:
    ['style' in child.attrs] and [style_props & VISIBILITY_PROPS]. *)
Definition declares_visibility (child : node) : bool :=
  match dget "style" (attrs child) with
  | Some text => existsb (fun k => mem k VISIBILITY_PROPS) (style_props text)
  | None => false
  end.

(** [_children_have_visibility_style(node)] *)
Fixpoint _children_have_visibility_style (n : node) : res bool :=
  match n with
  | Str _ _ => Raise AttributeError
  | Tag _ _ cs =>
      (fix each (l : list node) : res bool :=
         match l with
         | [] => Ok false
         | child :: r =>
             match child with
             | Str _ _ => each r
             | Tag _ _ _ =>
                 if declares_visibility child then Ok true
                 else
                   by_attrs <- _check_html_visibility_attrs child ;;
                   if by_attrs then Ok true
                   else
                     below <- _children_have_visibility_style child ;;
                     if below then Ok true else each r
             end
         end) cs
  end.

(** ** Colours in hexadecimal *)

(** One hexadecimal digit, in lower case. *)
Definition hex_digit (d : Z) : ascii :=
  if d <? 10 then ascii_of_nat (48 + Z.to_nat d)
  else ascii_of_nat (87 + Z.to_nat d).

(** The hexadecimal digits of [z >= 0], before [acc]. *)
Fixpoint hex_digits (fuel : nat) (z : Z) (acc : string) : string :=
  match fuel with
  | O => acc
  | S fuel' =>
      let acc := String (hex_digit (z mod 16)) acc in
      if z / 16 =? 0 then acc else hex_digits fuel' (z / 16) acc
  end.

(** [f'{z:02x}']: lower-case hexadecimal, the sign of a negative number
    first, filled with zeros to two characters. *)
Definition format_02x (z : Z) : string :=
  let body := hex_digits (S (Z.to_nat (Z.log2 (Z.abs z)))) (Z.abs z)
                EmptyString in
  if z <? 0 then ("-" ++ body)%string
  else if (String.length body <? 2)%nat then ("0" ++ body)%string
  else body.

Local Open Scope float_scope.

(** [_hsl_to_hex(h, s, l, alpha)], on the integers [_hsl_to_rgb] takes *)
Definition _hsl_to_hex (h s l : Z) (alpha : float) : res string :=
  h <- as_number (VInt h) ;;
  s <- as_number (VInt s) ;;
  l <- as_number (VInt l) ;;
  let h := h / 360.0 in
  let s := s / 100.0 in
  let l := l / 100.0 in
  let '(r, g, b) :=
    if PrimFloat.eqb s 0 then (l, l, l)
    else
      let q := if PrimFloat.ltb l 0.5 then l * (1 + s) else l + s - l * s in
      let p := 2 * l - q in
      (hue_to_rgb p q (h + 1 / 3), hue_to_rgb p q h, hue_to_rgb p q (h - 1 / 3)) in
  r <- to_channel r ;;
  g <- to_channel g ;;
  b <- to_channel b ;;
  let rgb_text :=
    ("#" ++ format_02x r ++ format_02x g ++ format_02x b)%string in
  if PrimFloat.ltb alpha 1 then
    a <- of_option OverflowError (PyFloat.trunc (alpha * 255)) ;;
    Ok (rgb_text ++ format_02x a)%string
  else Ok rgb_text.

Local Close Scope float_scope.

(** ** The processing log *)










End Helpers.

(* ================================================================== *)
(** * Reference instances of the library parameters *)
(* ================================================================== *)

(** The theorems below hold for every [float_pow], name table, parser,
    serialiser and iteration order.  To run the analyzer on concrete input
    the parameters are instantiated here: [pow] by a series evaluation of
    [exp (y * ln x)], exact on the arguments [0] and [1] as the C standard
    requires, the name table by the sixteen basic colour names, and the
    iteration order by the order of the source text. *)

Module Reference.

Local Open Scope float_scope.

(** The set [offset_props] visited in the order of the source text. *)
Definition offset_order : list string := Analyzer.offset_props.

Definition ln2 : float := 0x1.62e42fefa39efp-1.

(** [2 * (z + z^3/3 + z^5/5 + ...)], the logarithm of [(1+z)/(1-z)] *)
Fixpoint atanh_series (n : nat) (z2 term : float) (k : float) : float :=
  match n with
  | O => 0
  | S n' => term / k + atanh_series n' z2 (term * z2) (k + 2)
  end.

Definition ln (x : float) : float :=
  let (m, e) := Z.frexp x in
  let z := (m - 1) / (m + 1) in
  match PyFloat.of_Z e with
  | Some e => e * ln2 + 2 * atanh_series 40 (z * z) z 1
  | None => nan
  end.

Fixpoint exp_series (n : nat) (r term : float) (k : float) : float :=
  match n with
  | O => 0
  | S n' => term + exp_series n' r (term * r / k) (k + 1)
  end.

Definition exp (t : float) : float :=
  match PyFloat.round_int (t / ln2) with
  | Some k =>
      match PyFloat.of_Z k with
      | Some kf => Z.ldexp (exp_series 30 (t - kf * ln2) 1 1) k
      | None => nan
      end
  | None => nan
  end.

Definition pow (x y : float) : float :=
  if PrimFloat.eqb x 1 then 1
  else if PrimFloat.eqb y 0 then 1
  else if PrimFloat.eqb x 0 then 0
  else exp (y * ln x).

(** The basic colour names of [webcolors]. *)
Definition name_to_rgb (name : string) : option (Z * Z * Z) :=
  Py.dget name
    [ ("black", (0, 0, 0)); ("silver", (192, 192, 192));
      ("gray", (128, 128, 128)); ("white", (255, 255, 255));
      ("maroon", (128, 0, 0)); ("red", (255, 0, 0));
      ("purple", (128, 0, 128)); ("fuchsia", (255, 0, 255));
      ("green", (0, 128, 0)); ("lime", (0, 255, 0));
      ("olive", (128, 128, 0)); ("yellow", (255, 255, 0));
      ("navy", (0, 0, 128)); ("blue", (0, 0, 255));
      ("teal", (0, 128, 128)); ("aqua", (0, 255, 255)) ]%Z.

End Reference.

(* ================================================================== *)
(** * Vocabulary of the statements *)
(* ================================================================== *)

(** The definitions below are not part of the program: they name what the
    statements of the next part talk about (the default of a role, the
    records of one kind, the shape of a resolved style, ...) and unfold
    the local loops of the program so that lemmas can be stated about
    them. *)

Import PyStr Regex Py Py.Notations Colors Dom Analyzer.
Local Open Scope list_scope.

(** ** Colours *)

(** The role's default: opaque black for the foreground role ["fg"],
    opaque white for any other role. *)
Definition role_default (colortype : string) : Color :=
  if String.eqb colortype "fg" then opaque_black else opaque_white.

(** [x is None] *)
Definition is_none {A} (x : option A) : bool :=
  match x with
  | Some _ => false
  | None => true
  end.

(** An input matches none of the accepted forms: a string that, stripped
    and lowercased, is not [transparent], matches none of the three
    patterns and is no colour name; a tuple or list whose length is neither
    3 nor 4; a mapping without both keys; any other value. *)
Definition matches_no_form (names : string -> option (Z * Z * Z))
  (value : pyval) : bool :=
  match value with
  | VStr s =>
      let v := lower (strip s) in
      negb (String.eqb v "transparent")
      && is_none (rmatch COLOR_HEX_RE v)
      && is_none (rmatch RGB_RE v)
      && is_none (rmatch HSL_RE v)
      && is_none (names v)
  | VTuple l | VList l =>
      negb ((List.length l =? 3)%nat || (List.length l =? 4)%nat)
  | VDict d => negb (dmem "rgb" d && dmem "alpha" d)
  | _ => true
  end.

(** What the parser answers on such an input. *)
Definition fallback (value : pyval) (colortype : string) : Color :=
  match value with
  | VTuple _ | VList _ | VDict _ => opaque_black
  | _ => role_default colortype
  end.

(** ** The contrast check *)

(** The reasons appended by the contrast check. *)
Definition contrast_reasons (fg effective_bg : Color) (contrast : float)
  : list reason :=
  if color_eqb fg effective_bg then [SameColor]
  else if PrimFloat.ltb contrast 1.05 then [LowContrast contrast]
  else [].

(** The two reasons the contrast check can give. *)
Definition about_contrast (r : reason) : bool :=
  match r with
  | SameColor | LowContrast _ => true
  | _ => false
  end.

(** Compositing and contrast as the specification words them. *)

(** The [float] of a channel. *)
Definition channel_float (z : Z) (x : float) : Prop :=
  PyFloat.of_Z z = Some x.

(** A number clamped to 255 and cut to an integer. *)
Definition clamped_to_255 (x : float) (z : Z) : Prop :=
  if PrimFloat.ltb x 255 then PyFloat.trunc x = Some z else z = 255.

(** One channel of the "over" operator, [fgC*fgA + bgC*bgA*(1-fgA)],
    clamped to 255. *)
Definition over_channel (fa ba : float) (fc bc z : Z) : Prop :=
  exists x y,
    channel_float fc x /\ channel_float bc y
    /\ clamped_to_255 (x * fa + y * ba * (1 - fa))%float z.

(** [composite(fg, bg)]: a fully transparent foreground gives transparent
    black; otherwise the alpha is [fgA + bgA*(1-fgA)] and each channel is
    that of the "over" operator. *)
Definition composite_over (fg bg result : Color) : Prop :=
  if PrimFloat.eqb (alpha fg) 0 then result = transparent_black
  else
    let '(fr, fg_, fb) := rgb fg in
    let '(br, bg_, bb) := rgb bg in
    let '(r, g, b) := rgb result in
    over_channel (alpha fg) (alpha bg) fr br r
    /\ over_channel (alpha fg) (alpha bg) fg_ bg_ g
    /\ over_channel (alpha fg) (alpha bg) fb bb b
    /\ alpha result = (alpha fg + alpha bg * (1 - alpha fg))%float.

(** The sRGB linearization of a channel: [c/12.92] up to the threshold
    [0.03928], the curve of exponent [2.4] above it. *)
Definition srgb_linear (float_pow : float -> float -> float) (z : Z)
  (l : float) : Prop :=
  exists c,
    channel_float z c
    /\ l = (if PrimFloat.leb (c / 255) 0.03928 then c / 255 / 12.92
            else float_pow ((c / 255 + 0.055) / 1.055) 2.4)%float.

(** [relative_luminance(c)]: the linearized channels weighted by
    [0.2126], [0.7152] and [0.0722], summed from zero. *)
Definition relative_luminance (float_pow : float -> float -> float)
  (c : Color) (l : float) : Prop :=
  let '(r, g, b) := rgb c in
  exists lr lg lb,
    srgb_linear float_pow r lr /\ srgb_linear float_pow g lg
    /\ srgb_linear float_pow b lb
    /\ l = (0 + 0.2126 * lr + 0.7152 * lg + 0.0722 * lb)%float.

(** [contrast(a, b)]: each luminance is raised by [0.05], and the larger
    of the two over the smaller is rounded to two decimals. *)
Definition wcag_contrast (float_pow : float -> float -> float)
  (a b : Color) (c : float) : Prop :=
  exists la lb,
    relative_luminance float_pow a la /\ relative_luminance float_pow b lb
    /\ PrimFloat.eqb (fmin (la + 0.05) (lb + 0.05)) 0 = false
    /\ c = PyFloat.round2 (fmax (la + 0.05) (lb + 0.05)
                           / fmin (la + 0.05) (lb + 0.05))%float.

(** What the contrast check contributes to the reasons of a style: the
    foreground is the parsed [color], the effective background is the
    composite of the parsed [background-color] over opaque white, the
    contrast is that of the two, and the list holds [SameColor] exactly
    when the two compare equal, and [LowContrast c] exactly when they do
    not, the contrast is below [1.05] and [c] is that contrast. *)
Definition contrast_outcome (float_pow : float -> float -> float)
  (names : string -> option (Z * Z * Z)) (st : style)
  (reasons : list reason) : Prop :=
  exists (color : pyval) (effective_bg : Color) (contrast : float),
    let fg := _parse_color names color "fg" in
    let bg := _parse_color names
                (match dget "background-color" st with
                 | Some v => v
                 | None => VNone
                 end) "bg" in
    dget "color" st = Some color
    /\ composite_over bg opaque_white effective_bg
    /\ wcag_contrast float_pow fg effective_bg contrast
    /\ (In SameColor reasons <-> color_eqb fg effective_bg = true)
    /\ (forall c, In (LowContrast c) reasons
                  <-> color_eqb fg effective_bg = false
                      /\ PrimFloat.ltb contrast 1.05 = true
                      /\ c = contrast)
    /\ (color_eqb fg effective_bg = true ->
        PrimFloat.eqb (alpha fg) 0 = false -> fg = effective_bg)
    /\ (fg = effective_bg ->
        PrimFloat.is_nan (alpha fg) = false ->
        color_eqb fg effective_bg = true).

(** Grey text on a half-transparent black background. *)
Definition grey_on_translucent_black : style :=
  dset "background-color" (color_val (mkColor (0, 0, 0) 0.5))
    (dset "color" (color_val (mkColor (128, 128, 128) 1)) DEFAULT_STYLE).

(** White text on the default white background. *)
Definition white_on_white : style :=
  dset "color" (color_val opaque_white) DEFAULT_STYLE.

(** ** Resolved styles *)

(** The four keys of [DEFAULT_STYLE]. *)
Definition default_keys : list string :=
  [ "color"; "background-color"; "font-size"; "opacity" ]%string.

(** A style as the cascade keeps it: the four keys are present, [color]
    and [background-color] hold colour mappings, [font-size] and [opacity]
    hold strings. *)
Definition resolved (st : style) : Prop :=
  (exists c, dget "color" st = Some (color_val c))
  /\ (exists c, dget "background-color" st = Some (color_val c))
  /\ (exists s, dget "font-size" st = Some (VStr s))
  /\ (exists s, dget "opacity" st = Some (VStr s)).

(** The call raised no [KeyError]. *)
Definition no_key_error {A} (x : res A) : Prop := x <> Raise KeyError.

(** ** Pruning *)

(** The loop of [_prune_empty_nodes] over the children of a node. *)
Fixpoint prune_children (l : list node) : list node :=
  match l with
  | [] => []
  | child :: r =>
      let (child', is_empty) := _prune_empty_nodes child in
      if is_empty then prune_children r else child' :: prune_children r
  end.

(** The flag [is_empty] of [_prune_empty_nodes], on the pruned node. *)
Definition is_empty_node (n : node) : bool :=
  negb (_has_any_text n) && negb (_has_meaningful_children n).

(** The search of [at_body] through a list of siblings. *)
Fixpoint at_body_children (f : node -> node) (l : list node)
  : option (list node) :=
  match l with
  | [] => None
  | c :: r =>
      if has_name "body" c then Some (f c :: r)
      else match at_body f c with
           | Some c' => Some (c' :: r)
           | None => option_map (cons c) (at_body_children f r)
           end
  end.

(** ** Records *)

(** The records of type [text], those of type [link], and the lists
    without either. *)
Definition is_text (r : record) : bool :=
  match r_type r with
  | text_record => true
  | _ => false
  end.

Definition is_link (r : record) : bool :=
  match r_type r with
  | link_record => true
  | _ => false
  end.

Definition comments_only (rs : list record) : Prop :=
  filter is_text rs = [] /\ filter is_link rs = [].

(** The record carries a style, and that style is resolved. *)
Definition style_resolved (r : record) : Prop :=
  exists st, r_style r = Some st /\ resolved st.

(** The tree of [<a href='http://x' style='display:none'>click</a>]. *)
Definition hidden_link_document : node :=
  Tag "[document]" []
    [ Tag "a" [("href", "http://x"); ("style", "display:none")]
        [Str NavigableString "click"] ].

(** ** Running the analyzer *)

(** The analysis of a parsed tree that holds no merged conditional block,
    so that the parser and the serialiser are not called. *)
Definition analyze_tree (document : node) : res (list record * bool) :=
  analyze_paths Reference.offset_order Reference.pow Reference.name_to_rgb
    (fun _ => Tag "[document]" [] []) (fun _ => EmptyString) 0
    (collect_paths (mkAnalyzer (_prune_tree document) [])).

(** The text, type, verdict and reasons of each record of a result. *)
Definition outcome (x : res (list record * bool))
  : res (list (string * record_type * bool * option (list reason)) * bool) :=
  '(results, file_visible) <- x ;;
  Ok (map (fun r => (r_text r, r_type r, r_visible r, r_hidden_reasons r))
        results, file_visible).

Import Helpers.

(** ** The tree the analysis starts from *)

(** The root of [collect_paths]: [soup.find('body') or soup]. *)
Definition analysis_root (soup : node) : node :=
  match find_body soup with
  | Some body => body
  | None => soup
  end.

(** The first [body] element among siblings and their descendants, in
    document order. *)
Fixpoint body_in (l : list node) : option node :=
  match l with
  | [] => None
  | c :: r =>
      if has_name "body" c then Some c
      else match find_body c with
           | Some b => Some b
           | None => body_in r
           end
  end.

(** An element that pruning would remove. *)
Definition not_empty_element (d : node) : bool :=
  negb (is_tag d && is_empty_node d).

(** ** Paths *)

(** [leaf_path n p]: [p] runs from [n] down to a leaf, child by child,
    through valid elements that are not leaves. *)
Inductive leaf_path : node -> list node -> Prop :=
| leaf_path_end (n : node) :
    _is_valid_node n = true -> _is_leaf n = true -> leaf_path n [n]
| leaf_path_step (n c : node) (p : list node) :
    _is_valid_node n = true -> _is_leaf n = false ->
    In c (children n) -> leaf_path c p -> leaf_path n (n :: p).

(** The paths the entries of a queue stand for. *)
Definition pending (queue : list (node * list node)) (p : list node) : Prop :=
  exists n prefix q, In (n, prefix) queue /\ leaf_path n q /\ p = prefix ++ q.

(** The number of nodes below the entries of a queue. *)
Fixpoint weight (queue : list (node * list node)) : nat :=
  match queue with
  | [] => O
  | (n, _) :: r => (size n + weight r)%nat
  end.

(** ** Records *)

(** What one path may add to the results: nothing, or one record, which
    is a link record or the text record of [leaf]. *)
Definition at_most_the_leaf_record (leaf : node) (new : list record) : Prop :=
  new = []
  \/ exists r, new = [r]
               /\ (r_type r = link_record
                   \/ (r_type r = text_record
                       /\ r_text r = _get_node_text leaf)).

(** The marks of a record agree: a text or link record lists its reasons
    and is visible exactly when it lists none; a comment record of either
    type is not visible. *)
Definition record_consistent (r : record) : bool :=
  match r_type r, r_hidden_reasons r with
  | text_record, Some reasons | link_record, Some reasons =>
      Bool.eqb (r_visible r) (match reasons with [] => true | _ => false end)
  | html_comment, None => negb (r_visible r)
  | conditional_comment, _ => negb (r_visible r)
  | _, _ => false
  end.

(** ** The checks of the classifier *)

(** The value whose [float] the opacity check reads, and the value the
    font-size check parses. *)
Definition opacity_value (st : style) : pyval :=
  match dget "opacity" st with
  | Some v => v
  | None => VInt 1
  end.

Definition font_size_value (st : style) : pyval :=
  match dget "font-size" st with
  | Some v => v
  | None => VStr "16px"
  end.

Definition hidden_visibility (st : style) : bool :=
  is_str "hidden" (dget "visibility" st)
  || is_str "collapse" (dget "visibility" st).

(** Black text on white that every other check finds hidden. *)
Definition hidden_in_every_way : style :=
  [ ("color", color_val opaque_black);
    ("background-color", color_val opaque_white);
    ("font-size", VStr "1px"); ("opacity", VStr "0.00");
    ("visibility", VStr "hidden"); ("display", VStr "none");
    ("left", VStr "-9999px"); ("clip", VStr "rect(0,0,0,0)");
    ("filter", VStr "blur(20px)") ]%string.

(** The reasons the classifier gives for it. *)
Definition every_reason : list reason :=
  [ Visibility; DisplayNone; Opacity (VStr "0.00"); PositionOffset;
    Clipping; FontTooSmall 1; FilterEffect ].

(** ** The cascade *)

(** The keys [_parse_node_style] writes from the attributes of a node. *)
Definition attribute_keys : list string :=
  [ "color"; "font-size"; "background-color"; "text-align"; "width";
    "opacity" ]%string.

(** The property names the inline style of a node declares, in lower
    case. *)
Definition declared (n : node) : list string :=
  match dget "style" (attrs n) with
  | Some text => map (fun d => lower (fst d)) (inline_style text)
  | None => []
  end.

(** ** Comments *)

(** A comment that [_process_comments] would hand to a nested analyzer. *)
Definition merged_block (entry : string * node) : bool :=
  let '(comment, parent) := entry in
  startswith "[cond:" (strip comment)
  && has_name "div" parent
  && mem "conditional-container" (get_class parent).

(** The record of an ordinary comment; a comment that starts with
    [[cond:] gives none. *)
Definition comment_records (entry : string * node) : list record :=
  let '(comment, _) := entry in
  if startswith "[cond:" (strip comment) then []
  else [mkRecord (strip comment) html_comment None None false None].

(** ** Ranges of a colour *)

(** The three channels are in [0, 255]. *)
Definition in_gamut (c : Color) : bool :=
  let '(r, g, b) := rgb c in
  forallb (fun z => (0 <=? z) && (z <=? 255)) [r; g; b].

(** The alpha is in [0, 1]. *)
Definition unit_alpha (c : Color) : bool :=
  PrimFloat.leb 0 (alpha c) && PrimFloat.leb (alpha c) 1.

(** The channels of the colour, each times its alpha, are finite
    numbers. *)
Definition premultiplied_finite (c : Color) : bool :=
  let '(r, g, b) := rgb c in
  forallb (fun z => match as_number (VInt z) with
                    | Ok x => PrimFloat.is_finite (x * alpha c)
                    | Raise _ => false
                    end) [r; g; b].

(** ** Finite checks *)

(** The integers from [0] up to [n], excluded. *)
Definition range (n : nat) : list Z := map Z.of_nat (seq 0 n).

(** A float that is [+0.0] or a finite number other than zero. *)
Definition plain_float (x : float) : bool :=
  match Prim2SF x with
  | S754_zero s => negb s
  | S754_finite _ _ _ => true
  | _ => false
  end.

(** On the channel [z] of an opaque foreground: its [float] times the
    alpha [1] is a plain number, which [int(min(255, _))] reads back as
    [z]. *)
Definition opaque_channel_ok (z : Z) : bool :=
  match as_number (VInt z) with
  | Ok f =>
      plain_float (f * 1)
      && match blend_channel (f * 1) with
         | Ok z' => z' =? z
         | Raise _ => false
         end
  | Raise _ => false
  end.

(** ** The conversion from HSL *)

(** The three numbers [_hsl_to_rgb] computes from the scaled hue,
    saturation and lightness, before it rounds them to channels. *)
Definition hsl_floats (h s l : float) : float * float * float :=
  (if PrimFloat.eqb s 0 then (l, l, l)
   else
     let q := if PrimFloat.ltb l 0.5 then l * (1 + s) else l + s - l * s in
     let p := 2 * l - q in
     (hue_to_rgb p q (h + 1 / 3), hue_to_rgb p q h, hue_to_rgb p q (h - 1 / 3)))%float.

(** [x * 255] lies in [[-0.5, 255.5)], the numbers [round] takes to an
    integer from 0 to 255. *)
Definition rounds_to_channel (x : float) : bool :=
  (PrimFloat.leb (-0.5) (x * 255) && PrimFloat.ltb (x * 255) 255.5)%float.

Definition hsl_check (h s l : res float) : bool :=
  match h, s, l with
  | Ok h, Ok s, Ok l =>
      let '(r, g, b) := hsl_floats (h / 360.0) (s / 100.0) (l / 100.0) in
      rounds_to_channel r && rounds_to_channel g && rounds_to_channel b
  | _, _, _ => false
  end.

(** The floats of the hues from 0 to 360 and of the percentages from 0 to
    100, and the check on all of them. *)
Definition hue_table : list (res float) :=
  map (fun z => as_number (VInt z)) (range 361).

Definition percent_table : list (res float) :=
  map (fun z => as_number (VInt z)) (range 101).

Definition hsl_table_ok (hues percents : list (res float)) : bool :=
  forallb (fun h =>
             forallb (fun s => forallb (fun l => hsl_check h s l) percents)
               percents) hues.

(** ** Colours in hexadecimal *)

(** A hexadecimal digit, in either case. *)
Definition is_hex (c : ascii) : bool :=
  match hex_val c with
  | Some _ => true
  | None => false
  end.

(** What [_parse_color_string] computes from the digits the pattern
    [COLOR_HEX_RE] has captured. *)
Definition hex_color (hex_val : string) : res Color :=
  let hex_val :=
    if (String.length hex_val =? 3)%nat || (String.length hex_val =? 4)%nat
    then double_chars hex_val else hex_val in
  let rgb_part := take 6 hex_val in
  let alpha_hex :=
    if (6 <? String.length hex_val)%nat then drop 6 hex_val else EmptyString in
  let alpha_hex := take 2 (alpha_hex ++ "ff")%string in
  a <- of_option ValueError (int_of_hex alpha_hex) ;;
  a <- as_number (VInt a) ;;
  r <- of_option ValueError (int_of_hex (slice 0 2 rgb_part)) ;;
  g <- of_option ValueError (int_of_hex (slice 2 4 rgb_part)) ;;
  b <- of_option ValueError (int_of_hex (slice 4 6 rgb_part)) ;;
  Ok (mkColor (r, g, b) (a / 255.0)).

(** The alpha read from the byte [z]: its [float] over [255.0] is in
    [0, 1]. *)
Definition alpha_byte_ok (z : Z) : bool :=
  match as_number (VInt z) with
  | Ok a => PrimFloat.leb 0 (a / 255.0) && PrimFloat.leb (a / 255.0) 1
  | Raise _ => false
  end.

(** [f'{z:02x}'] writes a byte as its two hexadecimal digits. *)
Definition byte_format_ok (z : Z) : bool :=
  String.eqb (format_02x z)
    (String (hex_digit (z / 16)) (String (hex_digit (z mod 16)) EmptyString)).

(** The digit [d] is written as a hexadecimal digit in lower case, which
    reads back as [d]. *)
Definition hex_digit_ok (d : Z) : bool :=
  is_hex (hex_digit d)
  && Ascii.eqb (lower_char (hex_digit d)) (hex_digit d)
  && match hex_val (hex_digit d) with
     | Some d' => d' =? d
     | None => false
     end.

(** ** Styles below a node *)

(** An element whose inline style or whose attributes bear on
    visibility. *)
Definition bears_on_visibility (n : node) : bool :=
  is_tag n
  && (declares_visibility n
      || match _check_html_visibility_attrs n with
         | Ok b => b
         | Raise _ => false
         end).

(** ** The log *)







(** ** Offsets *)

(** The value [_check_position_offset] reads for a property. *)
Definition offset_value (st : style) (prop : string) : pyval :=
  match dget prop st with
  | Some v => v
  | None => VStr "0"
  end.

(** A large offset to the left, and an offset to the right that
    [_parse_length] cannot read. *)
Definition large_and_unreadable : style :=
  [ ("left", VStr "-9999px"); ("right", VStr "1.2.3px") ]%string.

(* ================================================================== *)
(** * Properties *)
(* ================================================================== *)

(** ** Tactics and basic facts about [res] *)

Lemma bind_ok {A B} (x : res A) (f : A -> res B) (b : B) :
  bind x f = Ok b -> exists a, x = Ok a /\ f a = Ok b.
Proof.
  destruct x as [a | e]; simpl; intros H; [eauto | discriminate].
Qed.

Lemma bind_raise {A B} (x : res A) (f : A -> res B) (e : exn) :
  bind x f = Raise e -> x = Raise e \/ exists a, x = Ok a /\ f a = Raise e.
Proof.
  destruct x as [a | e']; simpl; intros H; [right; eauto | left; congruence].
Qed.

(** Splits a hypothesis [bind x f = Ok b] into the two steps it records. *)
Tactic Notation "bind_inv" hyp(H) "as" simple_intropattern(a) ident(Hx) :=
  apply bind_ok in H; destruct H as [a [Hx H]].

(** ** Colours as mappings *)
Lemma color_val_mapping (c : Color) :
  exists d, color_val c = VDict d
            /\ dget "rgb" d = Some (VTuple [VInt (fst (fst (rgb c)));
                                           VInt (snd (fst (rgb c)));
                                           VInt (snd (rgb c))])
            /\ dget "alpha" d = Some (VFloat (alpha c)).
Proof.
  destruct c as [[[r g] b] a]; simpl.
  eexists; split; [reflexivity | split; reflexivity].
Qed.

Lemma as_mapping_color_val names (c : Color) (ct : string) :
  VDict (as_mapping names (color_val c) ct) = color_val c.
Proof. destruct c as [[[r g] b] a]; reflexivity. Qed.

Lemma alpha_of_color_val (c : Color) :
  forall d, color_val c = VDict d -> alpha_of d = Ok (alpha c).
Proof.
  destruct c as [[[r g] b] a]; simpl; intros d H; inversion H; reflexivity.
Qed.

(** A parsed colour handed back to the parser is returned unchanged. *)
Lemma parse_color_color_val names (c : Color) (ct : string) :
  _parse_color names (color_val c) ct = c.
Proof. destruct c as [[[r g] b] a]; reflexivity. Qed.

(** Every value that is not a mapping is turned into one whose alpha can
    be read. *)
Lemma alpha_of_as_mapping names (v : pyval) (ct : string) :
  (forall d, v <> VDict d) ->
  exists a, alpha_of (as_mapping names v ct) = Ok a.
Proof.
  intros Hv. unfold as_mapping.
  destruct v; try (destruct (_parse_color names _ ct) as [[[r g] b] a];
                   simpl; eexists; reflexivity).
  exfalso; eapply Hv; reflexivity.
Qed.

(** C7.  Compositing a foreground colour whose alpha compares equal to zero
    over any background returns fully transparent black,
    [{'rgb': (0, 0, 0), 'alpha': 0.0}]: the background may be any colour
    mapping, or any value that is not a mapping (which [_blend_colors] first
    parses as a background colour). *)
Theorem C7_transparent_foreground_blends_to_transparent_black :
  forall (names : string -> option (Z * Z * Z)) (fg : Color),
    PrimFloat.eqb (alpha fg) 0 = true ->
    (forall bg : Color,
        _blend_colors names (color_val fg) (color_val bg)
        = Ok (mkColor (0, 0, 0) 0.0))
    /\ (forall bg : pyval,
           (forall d, bg <> VDict d) ->
           _blend_colors names (color_val fg) bg = Ok (mkColor (0, 0, 0) 0.0)).
Proof.
  intros names fg Hzero.
  assert (Hfg : alpha_of (as_mapping names (color_val fg) "fg") = Ok (alpha fg)).
  { apply alpha_of_color_val. symmetry. apply as_mapping_color_val. }
  split.
  - intros bg. unfold _blend_colors. rewrite Hfg. simpl bind.
    rewrite (alpha_of_color_val bg (as_mapping names (color_val bg) "bg"))
      by (symmetry; apply as_mapping_color_val).
    simpl bind. rewrite Hzero. reflexivity.
  - intros bg Hbg. unfold _blend_colors. rewrite Hfg. simpl bind.
    destruct (alpha_of_as_mapping names bg "bg" Hbg) as [a Ha].
    rewrite Ha. simpl bind. rewrite Hzero. reflexivity.
Qed.

(** The zero case at a concrete pair: transparent black over opaque
    white, and over the string ["red"]. *)
Lemma C7_witness :
  (forall bg : Color,
      _blend_colors Reference.name_to_rgb (color_val transparent_black)
        (color_val bg) = Ok (mkColor (0, 0, 0) 0.0))
  /\ (forall bg : pyval,
         (forall d, bg <> VDict d) ->
         _blend_colors Reference.name_to_rgb (color_val transparent_black) bg
         = Ok (mkColor (0, 0, 0) 0.0)).
Proof.
  apply (C7_transparent_foreground_blends_to_transparent_black
           Reference.name_to_rgb transparent_black).
  reflexivity.
Defined.

(** ** The conditional-comment pattern *)

(** After [<!] the pattern asks for the end of the subject and then for the
    letter [i]: no position satisfies both. *)
Lemma split_conditional_never_matches (pos : nat) (s : string) :
  run SPLIT_CONDITIONAL_RE (start pos s) Some = None.
Proof.
  unfold SPLIT_CONDITIONAL_RE, start. cbn [seqs]. cbn [run m_rest m_pos m_groups chr].
  destruct s as [| c1 s1]; [reflexivity |].
  destruct (Ascii.eqb "<" c1); [| reflexivity].
  destruct s1 as [| c2 s2]; [reflexivity |].
  destruct (Ascii.eqb "!" c2); [| reflexivity].
  destruct s2 as [| c3 s3]; [reflexivity |].
  destruct s3 as [| c4 s4]; [| reflexivity].
  cbn [at_eol].
  destruct (Ascii.eqb c3 "010") eqn:E; [| reflexivity].
  apply Ascii.eqb_eq in E. subst c3. reflexivity.
Qed.

Lemma scan_split_conditional (fuel pos : nat) (s : string) :
  scan fuel SPLIT_CONDITIONAL_RE pos s = [].
Proof.
  revert pos s. induction fuel as [| fuel IH]; intros pos s; [reflexivity |].
  cbn [scan]. rewrite split_conditional_never_matches.
  destruct s; [reflexivity | apply IH].
Qed.

(** The normalizer hands every document to the parser as it is. *)
Lemma split_conditionals_text_identity (content : string) :
  finditer SPLIT_CONDITIONAL_RE content = []
  /\ split_conditionals_text content = content.
Proof.
  assert (Hnone : finditer SPLIT_CONDITIONAL_RE content = [])
    by apply scan_split_conditional.
  split; [exact Hnone |].
  unfold split_conditionals_text. rewrite Hnone. reflexivity.
Qed.

(** C2.  [SPLIT_CONDITIONAL_RE] matches nowhere in any document, so the
    normalizer finds no fragment, builds no merged block, and hands the
    markup to the parser unchanged: two conditional-comment fragments that
    share a condition stay two separate fragments. *)
Theorem C2_split_conditionals_are_never_merged :
  (forall content : string,
      finditer SPLIT_CONDITIONAL_RE content = []
      /\ split_conditionals_text content = content)
  /\ (forall (BeautifulSoup : string -> node) (content : string),
         _handle_split_conditionals BeautifulSoup content
         = BeautifulSoup content)
  /\ split_conditionals_text
       "<![if mso]><p>A</p><![endif]><b>x</b><![if mso]><p>B</p><![endif]>"
     = "<![if mso]><p>A</p><![endif]><b>x</b><![if mso]><p>B</p><![endif]>".
Proof.
  split; [exact split_conditionals_text_identity |]. split.
  - intros BeautifulSoup content. unfold _handle_split_conditionals.
    destruct (split_conditionals_text_identity content) as [_ ->].
    reflexivity.
  - apply split_conditionals_text_identity.
Qed.

(** ** Colour alpha and opacity *)

(** The factor [_parse_opacity] computes for the string ["1"]. *)
Lemma opacity_factor_of_one :
  match py_float (VStr (remove_char "%" (strip "1"))) with
  | Ok a => fmax 0.0 (fmin 1.0 (if has_char "%" "1" then (a / 100.0)%float else a))
  | Raise _ => 1.0%float
  end = 1.0%float.
Proof. vm_compute. reflexivity. Qed.

(** C3.  The colour branches hand [_parse_opacity] the alpha as a [float];
    a [float] has no [strip] method, the bare [except] turns the error into
    the factor [1.0], and the alpha is never folded in: whatever the alpha,
    the result is the one for the opacity ["1"].  A [font] element with the
    half-transparent colour [#00000080], an inline [color: rgba(0,0,0,0.5)]
    and an inline [color: transparent] all resolve to the opacity ["1.00"]
    under the default style, where the claim gives ["0.50"], ["0.50"] and
    ["0.00"]. *)
Theorem C3_color_alpha_is_not_folded_into_opacity :
  forall names : string -> option (Z * Z * Z),
    (forall (a : float) (parent_opacity : pyval),
        _parse_opacity (VFloat a) parent_opacity
        = _parse_opacity (VStr "1") parent_opacity)
    /\ _parse_node_style names
         (Tag "font" [("color", "#00000080")] [Str NavigableString "x"])
         DEFAULT_STYLE
       = Ok [ ("color", color_val (mkColor (0, 0, 0) (128 / 255)%float));
              ("background-color", color_val opaque_white);
              ("font-size", VStr "16px");
              ("opacity", VStr "1.00") ]
    /\ _parse_node_style names
         (Tag "span" [("style", "color: rgba(0,0,0,0.5)")]
            [Str NavigableString "x"])
         DEFAULT_STYLE
       = Ok [ ("color", color_val (mkColor (0, 0, 0) 0.5));
              ("background-color", color_val opaque_white);
              ("font-size", VStr "16px");
              ("opacity", VStr "1.00") ]
    /\ _parse_node_style names
         (Tag "span" [("style", "color: transparent")]
            [Str NavigableString "x"])
         DEFAULT_STYLE
       = Ok [ ("color", color_val (mkColor (0, 0, 0) 0.0));
              ("background-color", color_val opaque_white);
              ("font-size", VStr "16px");
              ("opacity", VStr "1.00") ].
Proof.
  intros names. split; [| repeat split; vm_compute; reflexivity].
  intros a parent_opacity. unfold _parse_opacity.
  rewrite opacity_factor_of_one. reflexivity.
Qed.

(** ** Range of the parsed colours *)

(** C4.  The functional notations are not clamped: [rgba(300, 0, 0, 5)]
    yields the channel [300] and the alpha [5.0], and
    [hsla(0, 100%, 200%, 5)] yields the channels [(255, 765, 765)] and the
    alpha [5.0], in both roles. *)
Theorem C4_functional_notations_are_not_clamped :
  forall (names : string -> option (Z * Z * Z)) (colortype : string),
    _parse_color names (VStr "rgba(300, 0, 0, 5)") colortype
    = mkColor (300, 0, 0) 5.0
    /\ _parse_color names (VStr "hsla(0, 100%, 200%, 5)") colortype
       = mkColor (255, 765, 765) 5.0.
Proof.
  intros names colortype. split; vm_compute; reflexivity.
Qed.

(** ** Inputs the colour parser does not recognise *)

Lemma short_tuple_is_black (l : list pyval) :
  negb ((List.length l =? 3)%nat || (List.length l =? 4)%nat) = true ->
  _parse_color_tuple l = Ok opaque_black.
Proof.
  destruct l as [| a [| b [| c [| d [| e r]]]]]; simpl; intros H;
    try reflexivity; discriminate.
Qed.

(** On an input that matches none of the accepted forms the parser
    returns the role's default when the input is a string, [None] or a
    number, and opaque black in every role when it is a tuple or list of
    the wrong length, or a mapping that lacks [rgb] or [alpha]. *)
Lemma unrecognised_input_falls_back
  (names : string -> option (Z * Z * Z)) (value : pyval)
  (colortype : string) :
  matches_no_form names value = true ->
  _parse_color names value colortype = fallback value colortype.
Proof.
  intros H.
  destruct value as [| z | f | s | l | l | d]; try reflexivity.
  - (* a string *)
    simpl in H.
    repeat (apply andb_prop in H; destruct H as [H ?]).
    unfold _parse_color, _parse_color_string, fallback, role_default.
    apply negb_true_iff in H. rewrite H.
    destruct (rmatch COLOR_HEX_RE (lower (strip s))); [discriminate |].
    destruct (rmatch RGB_RE (lower (strip s))); [discriminate |].
    destruct (rmatch HSL_RE (lower (strip s))); [discriminate |].
    destruct (names (lower (strip s))); [discriminate |].
    reflexivity.
  - (* a tuple *)
    unfold _parse_color. rewrite (short_tuple_is_black l H). reflexivity.
  - (* a list *)
    unfold _parse_color. rewrite (short_tuple_is_black l H). reflexivity.
  - (* a mapping *)
    simpl in H. unfold _parse_color, _parse_color_dict, dmem in *.
    destruct (dget "rgb" d); destruct (dget "alpha" d);
      try reflexivity; discriminate.
Qed.

(** C5.  The parser raises nothing, and on a string, [None] or a number
    that matches none of the accepted forms it returns the role's default.
    On a tuple or list whose length is neither 3 nor 4, and on a mapping
    that lacks [rgb] or [alpha], it does not: the guards of
    [_parse_color_tuple] and [_parse_color_dict] answer a fixed opaque
    black, which the background role gets in place of its opaque white.
    The pair [(1, 2)] in the background role is read as black, while the
    triple [("a", 0, 0)], which reaches the except branch, is read as
    white. *)
Theorem C5_malformed_tuple_is_black_in_the_background_role :
  forall names : string -> option (Z * Z * Z),
    (forall (value : pyval) (colortype : string),
        matches_no_form names value = true ->
        _parse_color names value colortype = fallback value colortype)
    /\ (forall l : list pyval,
           negb ((List.length l =? 3)%nat || (List.length l =? 4)%nat)
           = true ->
           matches_no_form names (VTuple l) = true
           /\ _parse_color names (VTuple l) "bg" = opaque_black
           /\ _parse_color names (VTuple l) "bg" <> role_default "bg")
    /\ (forall d : list (string * pyval),
           negb (dmem "rgb" d && dmem "alpha" d) = true ->
           matches_no_form names (VDict d) = true
           /\ _parse_color names (VDict d) "bg" = opaque_black
           /\ _parse_color names (VDict d) "bg" <> role_default "bg")
    /\ _parse_color names (VTuple [VInt 1; VInt 2]) "bg"
       = mkColor (0, 0, 0) 1.0
    /\ role_default "bg" = mkColor (255, 255, 255) 1.0
    /\ _parse_color names (VTuple [VStr "a"; VInt 0; VInt 0]) "bg"
       = role_default "bg".
Proof.
  intros names.
  assert (Hblack : opaque_black <> role_default "bg")
    by (vm_compute; intros H; discriminate H).
  split; [apply unrecognised_input_falls_back |]. split; [| split].
  - intros l Hl. split; [exact Hl |].
    rewrite (unrecognised_input_falls_back names (VTuple l) "bg" Hl).
    split; [reflexivity | exact Hblack].
  - intros d Hd. split; [exact Hd |].
    rewrite (unrecognised_input_falls_back names (VDict d) "bg" Hd).
    split; [reflexivity | exact Hblack].
  - repeat split; vm_compute; reflexivity.
Qed.

(** ** Font sizes *)

(** C10.  The normalizer is not total and its results are not all
    readable: on [.px] the pattern matches and [float('.')] raises
    [ValueError]; on four hundred nines followed by [px] it returns
    ["infpx"], on which [_parse_length] answers [None], and the comparison
    of the classifier raises [TypeError]. *)
Theorem C10_font_size_normalizer_can_fail :
  _parse_font_size ".px" = Raise ValueError
  /\ _parse_font_size (repeat_char "9" 400 ++ "px")%string = Ok "infpx"
  /\ _parse_length (VStr "infpx") = Ok None
  /\ _check_visibility Reference.offset_order Reference.pow Reference.name_to_rgb
       (dset "font-size" (VStr "infpx") DEFAULT_STYLE)
     = Raise TypeError.
Proof.
  repeat split; vm_compute; reflexivity.
Qed.

(** ** Pruning *)

(** Induction over the tree, with the property available for every child. *)
Lemma node_induction (P : node -> Prop) :
  (forall k s, P (Str k s)) ->
  (forall nm a cs, Forall P cs -> P (Tag nm a cs)) ->
  forall n, P n.
Proof.
  intros P_str P_tag. fix IH 1. intros [nm a cs | k s]; [| apply P_str].
  apply P_tag. induction cs as [| c r IHr]; constructor; [apply IH | exact IHr].
Qed.

Lemma prune_tag (nm : string) (a : list (string * string)) (cs : list node) :
  _prune_empty_nodes (Tag nm a cs)
  = (Tag nm a (prune_children cs), is_empty_node (Tag nm a (prune_children cs))).
Proof.
  assert (H : (fix each (l : list node) : list node :=
                 match l with
                 | [] => []
                 | child :: r =>
                     let (child', is_empty) := _prune_empty_nodes child in
                     if is_empty then each r else child' :: each r
                 end) cs = prune_children cs).
  { induction cs as [| c r IH]; [reflexivity |].
    cbn [prune_children]. rewrite <- IH. reflexivity. }
  cbn [_prune_empty_nodes]. rewrite H. reflexivity.
Qed.

Lemma prune_children_idempotent (cs : list node) :
  Forall (fun c => _prune_empty_nodes (fst (_prune_empty_nodes c))
                   = _prune_empty_nodes c) cs ->
  prune_children (prune_children cs) = prune_children cs.
Proof.
  induction 1 as [| c r Hc _ IH]; [reflexivity |].
  cbn [prune_children].
  destruct (_prune_empty_nodes c) as [c' e] eqn:E. cbn [fst] in Hc.
  destruct e; [exact IH |].
  cbn [prune_children]. rewrite Hc, IH. reflexivity.
Qed.

(** A second run of [_prune_empty_nodes] changes nothing and returns the
    same flag. *)
Lemma prune_empty_nodes_idempotent (n : node) :
  _prune_empty_nodes (fst (_prune_empty_nodes n)) = _prune_empty_nodes n.
Proof.
  induction n as [k s | nm a cs IH] using node_induction; [reflexivity |].
  rewrite prune_tag. cbn [fst]. rewrite prune_tag.
  rewrite (prune_children_idempotent cs IH). reflexivity.
Qed.

Lemma prune_keeps_name (nm : string) (n : node) :
  has_name nm (fst (_prune_empty_nodes n)) = has_name nm n.
Proof.
  destruct n as [nm' a cs | k s]; [rewrite prune_tag |]; reflexivity.
Qed.

Lemma at_body_tag (f : node -> node) nm a cs :
  at_body f (Tag nm a cs) = option_map (Tag nm a) (at_body_children f cs).
Proof.
  cbn [at_body]. f_equal.
  induction cs as [| c r IH]; [reflexivity |].
  cbn [at_body_children]. rewrite <- IH. reflexivity.
Qed.

Lemma at_body_keeps_name (f : node -> node) (nm : string) (n n' : node) :
  at_body f n = Some n' -> has_name nm n' = has_name nm n.
Proof.
  destruct n as [nm' a cs | k s]; [| discriminate].
  rewrite at_body_tag. destruct (at_body_children f cs); [| discriminate].
  intros H; inversion H; reflexivity.
Qed.

Section AtBody.

Variable f : node -> node.
Hypothesis f_idempotent : forall n, f (f n) = f n.
Hypothesis f_keeps_name : forall nm n, has_name nm (f n) = has_name nm n.

(** Once [f] has been applied at the body, applying it there again changes
    nothing. *)
Lemma at_body_idempotent (n : node) :
  forall n', at_body f n = Some n' -> at_body f n' = Some n'.
Proof.
  induction n as [k s | nm a cs IH] using node_induction; [discriminate |].
  intros n'. rewrite at_body_tag.
  destruct (at_body_children f cs) as [cs' |] eqn:E; [| discriminate].
  intros H; inversion H; subst n'; clear H.
  rewrite at_body_tag.
  enough (Hcs : at_body_children f cs' = Some cs') by (rewrite Hcs; reflexivity).
  revert cs' E. induction IH as [| c r Hc _ IHr]; intros cs' E; [discriminate |].
  cbn [at_body_children] in E.
  destruct (has_name "body" c) eqn:Hb.
  - inversion E; subst cs'. cbn [at_body_children].
    rewrite f_keeps_name, Hb, f_idempotent. reflexivity.
  - destruct (at_body f c) as [c' |] eqn:Ec.
    + inversion E; subst cs'. cbn [at_body_children].
      rewrite (at_body_keeps_name f "body" c c' Ec), Hb.
      rewrite (Hc c' eq_refl). reflexivity.
    + destruct (at_body_children f r) as [r' |] eqn:Er; [| discriminate].
      inversion E; subst cs'. cbn [at_body_children].
      rewrite Hb, Ec, (IHr r' eq_refl). reflexivity.
Qed.

End AtBody.

(** Pruning a tree that has no [body] element leaves it without one. *)
Lemma no_body_after_prune (f g : node -> node) (n : node) :
  at_body f n = None -> at_body g (fst (_prune_empty_nodes n)) = None.
Proof.
  induction n as [k s | nm a cs IH] using node_induction; [reflexivity |].
  rewrite at_body_tag, prune_tag. cbn [fst]. rewrite at_body_tag.
  intros H.
  enough (Hcs : at_body_children g (prune_children cs) = None)
    by (rewrite Hcs; reflexivity).
  assert (Hnone : at_body_children f cs = None)
    by (destruct (at_body_children f cs); [discriminate | reflexivity]).
  clear H. induction IH as [| c r Hc _ IHr]; [reflexivity |].
  cbn [at_body_children] in Hnone.
  destruct (has_name "body" c) eqn:Hb; [discriminate |].
  destruct (at_body f c) eqn:Ec; [discriminate |].
  destruct (at_body_children f r) eqn:Er; [discriminate |].
  cbn [prune_children].
  pose proof (prune_keeps_name "body" c) as Hn.
  destruct (_prune_empty_nodes c) as [c' e] eqn:E. cbn [fst] in Hn, Hc.
  destruct e; [apply IHr; reflexivity |].
  cbn [at_body_children]. rewrite Hn, Hb, (Hc eq_refl), (IHr eq_refl).
  reflexivity.
Qed.

(** C8.  Pruning is idempotent: on every node a second run of
    [_prune_empty_nodes] leaves the pruned subtree as it is and returns the
    same flag, and on every document a second [_prune_tree] leaves the
    pruned tree unchanged. *)
Theorem C8_pruning_is_idempotent :
  (forall n : node,
      _prune_empty_nodes (fst (_prune_empty_nodes n)) = _prune_empty_nodes n)
  /\ (forall soup : node, _prune_tree (_prune_tree soup) = _prune_tree soup).
Proof.
  split; [exact prune_empty_nodes_idempotent |].
  intros soup. unfold _prune_tree.
  set (prune := fun n => fst (_prune_empty_nodes n)).
  assert (Hidem : forall n, prune (prune n) = prune n).
  { intros n. unfold prune. rewrite prune_empty_nodes_idempotent. reflexivity. }
  assert (Hname : forall nm n, has_name nm (prune n) = has_name nm n)
    by (intros; apply prune_keeps_name).
  destruct (at_body prune soup) as [soup' |] eqn:E.
  - rewrite (at_body_idempotent prune Hidem Hname soup soup' E). reflexivity.
  - rewrite (no_body_after_prune prune prune soup E). apply Hidem.
Qed.

(** ** The document verdict *)

Section Verdict.

Variable offset_order : list string.
Variable float_pow : float -> float -> float.
Variable name_to_rgb : string -> option (Z * Z * Z).
Variable BeautifulSoup : string -> node.
Variable to_markup : node -> string.

(** Walking one path appends records and lowers the flag exactly when it
    appends a text record that is not visible. *)
Lemma walk_path_verdict (path : list node) :
  forall inherited results file_visible results' file_visible',
    walk_path offset_order float_pow name_to_rgb path inherited results file_visible
    = Ok (results', file_visible') ->
    exists new,
      results' = results ++ new
      /\ file_visible'
         = file_visible && forallb r_visible (filter is_text new).
Proof.
  induction path as [| n rest IH];
    intros inherited results file_visible results' file_visible' H.
  - inversion H; subst. exists []. rewrite app_nil_r, andb_true_r. auto.
  - cbn [walk_path] in H. destruct (has_name "a" n).
    + bind_inv H as link_result Hlink. inversion H; subst; clear H.
      destruct link_result as [r |].
      * unfold _process_anchor_tag in Hlink.
        destruct (_get_link_text n); [discriminate |].
        bind_inv Hlink as link_style Hstyle.
        bind_inv Hlink as [visible reasons] Hcheck.
        inversion Hlink; subst r; clear Hlink.
        eexists; split; [reflexivity |]. cbn. rewrite andb_true_r. reflexivity.
      * exists []. rewrite app_nil_r, andb_true_r. auto.
    + bind_inv H as current_style Hstyle.
      bind_inv H as [results1 file_visible1] Hrecord.
      apply IH in H. destruct H as [new [Hres Hfv]].
      destruct (_get_node_text n) eqn:Htext.
      * inversion Hrecord; subst. exists new. auto.
      * bind_inv Hrecord as [visible reasons] Hcheck.
        inversion Hrecord; subst; clear Hrecord.
        eexists; split; [rewrite <- app_assoc; reflexivity |].
        cbn. destruct visible; cbn; [reflexivity |].
        rewrite !andb_false_r. reflexivity.
Qed.

Lemma walk_paths_verdict (paths : list (list node)) :
  forall results file_visible results' file_visible',
    walk_paths offset_order float_pow name_to_rgb paths results file_visible
    = Ok (results', file_visible') ->
    exists new,
      results' = results ++ new
      /\ file_visible'
         = file_visible && forallb r_visible (filter is_text new).
Proof.
  induction paths as [| path rest IH];
    intros results file_visible results' file_visible' H.
  - inversion H; subst. exists []. rewrite app_nil_r, andb_true_r. auto.
  - cbn [walk_paths] in H. bind_inv H as [results1 file_visible1] Hpath.
    apply walk_path_verdict in Hpath. destruct Hpath as [new1 [Hr1 Hf1]].
    apply IH in H. destruct H as [new2 [Hr2 Hf2]]. subst.
    exists (new1 ++ new2). split; [rewrite app_assoc; reflexivity |].
    rewrite filter_app, forallb_app, andb_assoc. reflexivity.
Qed.

Lemma process_comments_fold analyze (self : DOMAnalyzer) :
  _process_comments BeautifulSoup to_markup analyze self
  = fold_left (comment_step BeautifulSoup to_markup analyze) (comments (soup self)) (Ok []).
Proof. reflexivity. Qed.

Lemma comment_step_types analyze acc entry rs :
  (forall rs0, acc = Ok rs0 -> comments_only rs0) ->
  comment_step BeautifulSoup to_markup analyze acc entry = Ok rs -> comments_only rs.
Proof.
  intros Hacc H. unfold comment_step in H.
  bind_inv H as results Hresults. destruct entry as [comment parent].
  destruct (Hacc results Hresults) as [Ht Hl].
  destruct (startswith "[cond:" (strip comment)).
  - destruct (has_name "div" parent
              && mem "conditional-container" (get_class parent)).
    + bind_inv H as [elements fv] Hsub. inversion H; subst rs.
      unfold comments_only. rewrite !filter_app, Ht, Hl.
      clear. induction elements as [| e es [I1 I2]]; [split; reflexivity |].
      cbn in *. rewrite I1, I2. split; reflexivity.
    + inversion H; subst. split; assumption.
  - inversion H; subst. unfold comments_only.
    rewrite !filter_app, Ht, Hl. split; reflexivity.
Qed.

(** The records [_process_comments] returns are comment records. *)
Lemma process_comments_types analyze (self : DOMAnalyzer) (extra : list record) :
  _process_comments BeautifulSoup to_markup analyze self
  = Ok extra ->
  comments_only extra.
Proof.
  rewrite process_comments_fold. generalize (comments (soup self)).
  assert (Hinit : forall rs0, @Ok (list record) [] = Ok rs0 -> comments_only rs0)
    by (intros rs0 E; inversion E; split; reflexivity).
  revert Hinit. generalize (@Ok (list record) []).
  intros acc Hacc l. revert acc Hacc extra.
  induction l as [| entry r IH]; intros acc Hacc extra H.
  - apply Hacc. exact H.
  - cbn [fold_left] in H. eapply IH; [| exact H].
    intros rs Hrs. eapply comment_step_types; eassumption.
Qed.

(** What the returned flag says: it is true exactly when every text
    record of the result is visible; link records play no part. *)
Lemma analyze_paths_verdict (depth : nat) (self : DOMAnalyzer)
  (results : list record) (file_visible : bool) :
  analyze_paths offset_order float_pow name_to_rgb BeautifulSoup to_markup depth self
  = Ok (results, file_visible) ->
  file_visible = forallb r_visible (filter is_text results).
Proof.
  intros H.
  assert (Hstep : exists analyze,
             ('(results, file_visible) <-
                walk_paths offset_order float_pow name_to_rgb (paths self) [] true ;;
              extra <- _process_comments BeautifulSoup to_markup analyze self ;;
              Ok (results ++ extra, file_visible))
             = Ok (results, file_visible)).
  { destruct depth; cbn [analyze_paths] in H; eexists; exact H. }
  clear H. destruct Hstep as [analyze H].
  bind_inv H as [results1 file_visible1] Hwalk.
  bind_inv H as extra Hextra. inversion H; subst; clear H.
  apply walk_paths_verdict in Hwalk. destruct Hwalk as [new [Hr Hf]].
  apply process_comments_types in Hextra. destruct Hextra as [Ht _].
  cbn in Hr. subst. rewrite filter_app, Ht, app_nil_r. reflexivity.
Qed.

End Verdict.

(** C1.  The flag follows the text records only.  For the document
    [<a href='http://x' style='display:none'>click</a>] the analyzer emits
    one link record, marked not visible for [display:none], and returns the
    verdict [True]; in general the verdict is the conjunction of the
    [visible] marks of the text records, whatever the link records say. *)
Theorem C1_hidden_link_leaves_the_verdict_true :
  forall (BeautifulSoup : string -> node) (to_markup : node -> string)
         (depth : nat),
    (exists r,
        analyze_paths Reference.offset_order Reference.pow
          Reference.name_to_rgb BeautifulSoup to_markup depth
          (collect_paths (mkAnalyzer (_prune_tree hidden_link_document) []))
        = Ok ([r], true)
        /\ r_type r = link_record
        /\ r_text r = "click"
        /\ r_visible r = false
        /\ r_hidden_reasons r = Some [DisplayNone])
    /\ (BeautifulSoup "<a href='http://x' style='display:none'>click</a>"
        = hidden_link_document ->
        exists r,
          analyze_document Reference.offset_order Reference.pow
            Reference.name_to_rgb BeautifulSoup to_markup depth
            "<a href='http://x' style='display:none'>click</a>"
          = Ok ([r], true)
          /\ r_type r = link_record
          /\ r_visible r = false)
    /\ (forall offset_order float_pow names self results file_visible,
           analyze_paths offset_order float_pow names BeautifulSoup to_markup
             depth self
           = Ok (results, file_visible) ->
           file_visible = forallb r_visible (filter is_text results)).
Proof.
  intros BeautifulSoup to_markup depth.
  assert (Hrun : exists r,
             analyze_paths Reference.offset_order Reference.pow
               Reference.name_to_rgb BeautifulSoup to_markup depth
               (collect_paths
                  (mkAnalyzer (_prune_tree hidden_link_document) []))
             = Ok ([r], true)
             /\ r_type r = link_record
             /\ r_text r = "click"%string
             /\ r_visible r = false
             /\ r_hidden_reasons r = Some [DisplayNone]).
  { eexists. split; [destruct depth; vm_compute; reflexivity |].
    repeat split. }
  split; [exact Hrun |]. split.
  - intros Hparse. destruct Hrun as [r [Hr [Ht [_ [Hv _]]]]].
    exists r. split; [| split; assumption].
    unfold analyze_document, __init__, _handle_split_conditionals.
    destruct (split_conditionals_text_identity
                "<a href='http://x' style='display:none'>click</a>")
      as [_ ->].
    rewrite Hparse. exact Hr.
  - intros offset_order float_pow names self results file_visible.
    apply analyze_paths_verdict.
Qed.

(** ** Equality of colours *)

(** Two floats that compare equal are the same float, unless both are
    zeros (which compare equal whatever their signs). *)
Lemma float_eqb_eq (x y : float) :
  PrimFloat.eqb x y = true ->
  x = y \/ (PrimFloat.eqb x 0 = true /\ PrimFloat.eqb y 0 = true).
Proof.
  rewrite !FloatAxioms.eqb_spec.
  replace (Prim2SF 0) with (S754_zero false) by reflexivity.
  unfold SFeqb, SFcompare.
  destruct (Prim2SF x) as [sx | sx | | sx mx ex] eqn:Ex;
    destruct (Prim2SF y) as [sy | sy | | sy my ey] eqn:Ey;
    try discriminate; try (destruct sx; discriminate);
    try (destruct sy; discriminate).
  - intros _. right. split; reflexivity.
  - intros H. left. apply Prim2SF_inj. rewrite Ex, Ey.
    destruct sx, sy; try discriminate; reflexivity.
  - intros H. left. apply Prim2SF_inj. rewrite Ex, Ey.
    destruct sx, sy; try discriminate;
      destruct (Z.compare ex ey) eqn:Ec; try discriminate;
      apply Z.compare_eq in Ec; subst ey;
      destruct (Pos.compare_cont Eq mx my) eqn:Em; try discriminate;
      apply Pos.compare_eq in Em; subst my; reflexivity.
Qed.

(** A float that is not a NaN compares equal to itself. *)
Lemma float_eqb_refl (x : float) :
  PrimFloat.is_nan x = false -> PrimFloat.eqb x x = true.
Proof.
  unfold PrimFloat.is_nan. intros H. apply negb_false_iff in H. exact H.
Qed.

(** [==] on colours is identity of the two mappings, but for alphas that
    are zeros of different signs (equal, not identical) or NaN (identical,
    not equal). *)
Lemma color_eqb_identical (a b : Color) :
  (color_eqb a b = true -> PrimFloat.eqb (alpha a) 0 = false -> a = b)
  /\ (a = b -> PrimFloat.is_nan (alpha a) = false -> color_eqb a b = true).
Proof.
  destruct a as [[[r1 g1] b1] a1], b as [[[r2 g2] b2] a2]. cbn. split.
  - intros H Hnz.
    repeat (apply andb_prop in H; destruct H as [H ?]).
    apply Z.eqb_eq in H. 
    repeat match goal with
           | E : (_ =? _)%Z = true |- _ => apply Z.eqb_eq in E
           end.
    subst.
    match goal with
    | E : PrimFloat.eqb a1 a2 = true |- _ =>
        destruct (float_eqb_eq a1 a2 E) as [-> | [Hz _]]
    end; [reflexivity | congruence].
  - intros H Hnan. injection H as -> -> -> ->.
    rewrite !Z.eqb_refl. cbn. apply float_eqb_refl. exact Hnan.
Qed.

(** ** The contrast check *)

Lemma in_if_snoc {A} (b : bool) (l : list A) (x y : A) :
  In x (if b then l ++ [y] else l) <-> In x l \/ (b = true /\ y = x).
Proof.
  destruct b.
  - rewrite in_app_iff. cbn. intuition congruence.
  - intuition congruence.
Qed.

Lemma filter_if_snoc {A} (p : A -> bool) (b : bool) (l : list A) (y : A) :
  p y = false -> filter p (if b then l ++ [y] else l) = filter p l.
Proof.
  intros H. destruct b; [| reflexivity].
  rewrite filter_app. cbn. rewrite H. apply app_nil_r.
Qed.

Section Contrast.

Variable offset_order : list string.
Variable float_pow : float -> float -> float.
Variable name_to_rgb : string -> option (Z * Z * Z).

Lemma check_visibility_contrast (st : style) (visible : bool)
  (reasons : list reason) :
  _check_visibility offset_order float_pow name_to_rgb st = Ok (visible, reasons) ->
  exists color effective_bg contrast,
    dget "color" st = Some color
    /\ _blend_colors name_to_rgb
         (color_val (_parse_color name_to_rgb
                       (match dget "background-color" st with
                        | Some v => v
                        | None => VNone
                        end) "bg"))
         (color_val opaque_white) = Ok effective_bg
    /\ _calculate_contrast float_pow (_parse_color name_to_rgb color "fg")
         effective_bg = Ok contrast
    /\ filter about_contrast reasons
       = contrast_reasons (_parse_color name_to_rgb color "fg") effective_bg
           contrast.
Proof.
  intros H. unfold _check_visibility in H. cbv zeta in H.
  bind_inv H as opacity Hopacity.
  bind_inv H as reasons1 Hreasons1.
  bind_inv H as color Hcolor.
  bind_inv H as blended Hblend.
  rewrite parse_color_color_val in H.
  bind_inv H as contrast Hcontrast.
  bind_inv H as offset Hoffset.
  bind_inv H as clipped Hclipped.
  bind_inv H as font_size Hfont.
  bind_inv H as px Hpx.
  bind_inv H as filtered Hfiltered.
  injection H as _ <-.
  exists color, blended, contrast.
  destruct (dget "color" st) as [c |] eqn:Ec; [| discriminate].
  injection Hcolor as ->.
  repeat split; try assumption.
  assert (Hpre : filter about_contrast reasons1 = []).
  { destruct (PrimFloat.leb opacity 0.01).
    - bind_inv Hreasons1 as shown Hshown. injection Hreasons1 as <-.
      destruct (is_str "none" (dget "display" st));
        destruct (is_str "hidden" (dget "visibility" st)
                  || is_str "collapse" (dget "visibility" st));
        reflexivity.
    - injection Hreasons1 as <-.
      destruct (is_str "none" (dget "display" st));
        destruct (is_str "hidden" (dget "visibility" st)
                  || is_str "collapse" (dget "visibility" st));
        reflexivity. }
  unfold contrast_reasons.
  destruct offset, clipped, filtered, (PrimFloat.ltb px 3);
    (destruct (color_eqb (_parse_color name_to_rgb color "fg") blended);
     [| destruct (PrimFloat.ltb contrast 1.05)]);
    rewrite ?filter_app, Hpre; reflexivity.
Qed.

End Contrast.

(** What [_blend_colors] returns for two colours is their composite. *)
Lemma blend_composite names (fg bg result : Color) :
  _blend_colors names (color_val fg) (color_val bg) = Ok result ->
  composite_over fg bg result.
Proof.
  destruct fg as [[[r1 g1] b1] a1], bg as [[[r2 g2] b2] a2].
  unfold _blend_colors, composite_over. cbn [alpha rgb].
  change (alpha_of (as_mapping names (color_val (mkColor (r1, g1, b1) a1)) "fg"))
    with (@Ok float a1).
  change (alpha_of (as_mapping names (color_val (mkColor (r2, g2, b2) a2)) "bg"))
    with (@Ok float a2).
  cbn [bind]. destruct (PrimFloat.eqb a1 0).
  { intros H. injection H as <-. reflexivity. }
  change (channel_of (as_mapping names (color_val (mkColor (r1, g1, b1) a1)) "fg") 0)
    with (as_number (VInt r1)).
  change (channel_of (as_mapping names (color_val (mkColor (r1, g1, b1) a1)) "fg") 1)
    with (as_number (VInt g1)).
  change (channel_of (as_mapping names (color_val (mkColor (r1, g1, b1) a1)) "fg") 2)
    with (as_number (VInt b1)).
  change (channel_of (as_mapping names (color_val (mkColor (r2, g2, b2) a2)) "bg") 0)
    with (as_number (VInt r2)).
  change (channel_of (as_mapping names (color_val (mkColor (r2, g2, b2) a2)) "bg") 1)
    with (as_number (VInt g2)).
  change (channel_of (as_mapping names (color_val (mkColor (r2, g2, b2) a2)) "bg") 2)
    with (as_number (VInt b2)).
  assert (Hch : forall fc bc z,
             (f <- as_number (VInt fc) ;;
              b <- as_number (VInt bc) ;;
              blend_channel (f * a1 + b * a2 * (1 - a1))%float) = Ok z ->
             over_channel a1 a2 fc bc z).
  { intros fc bc z H. bind_inv H as x Hx. bind_inv H as y Hy.
    exists x, y. unfold channel_float. cbn [as_number] in Hx, Hy.
    destruct (PyFloat.of_Z fc); [| discriminate]. injection Hx as ->.
    destruct (PyFloat.of_Z bc); [| discriminate]. injection Hy as ->.
    split; [reflexivity |]. split; [reflexivity |].
    unfold blend_channel in H. unfold clamped_to_255.
    destruct (PrimFloat.ltb (x * a1 + y * a2 * (1 - a1)) 255).
    - destruct (PyFloat.trunc (x * a1 + y * a2 * (1 - a1)));
        [| discriminate].
      injection H as ->. reflexivity.
    - injection H as <-. reflexivity. }
  intros H. bind_inv H as r Hr. bind_inv H as g Hg. bind_inv H as b Hb.
  injection H as <-. cbn [rgb alpha].
  split; [apply Hch, Hr |]. split; [apply Hch, Hg |].
  split; [apply Hch, Hb | reflexivity].
Qed.

(** What [_calculate_contrast] returns is the contrast of the two
    colours. *)
Lemma contrast_wcag float_pow (a b : Color) (c : float) :
  _calculate_contrast float_pow a b = Ok c -> wcag_contrast float_pow a b c.
Proof.
  assert (Hlin : forall z l, linearize float_pow z = Ok l ->
                             srgb_linear float_pow z l).
  { intros z l H. unfold linearize in H. bind_inv H as x Hx.
    cbn [as_number] in Hx. exists x. unfold channel_float.
    destruct (PyFloat.of_Z z); [| discriminate]. injection Hx as ->.
    injection H as <-. split; reflexivity. }
  assert (Hlum : forall k l, luminance float_pow k = Ok l ->
                             relative_luminance float_pow k l).
  { intros [[[r g] bl] al] l H. unfold luminance in H.
    unfold relative_luminance. cbn [rgb] in *.
    bind_inv H as lr Hr. bind_inv H as lg Hg. bind_inv H as lb Hb.
    injection H as <-. exists lr, lg, lb.
    repeat split; try (apply Hlin; assumption). }
  intros H. unfold _calculate_contrast in H.
  bind_inv H as la Ha. bind_inv H as lb Hb. cbv zeta in H.
  exists la, lb. split; [apply Hlum, Ha |]. split; [apply Hlum, Hb |].
  destruct (PrimFloat.eqb (fmin (la + 0.05) (lb + 0.05)) 0);
    [discriminate |].
  injection H as <-. split; reflexivity.
Qed.

(** C6.  Whenever the classifier returns, its reasons hold the outcome of
    the contrast check.  The effective background is the composite of the
    resolved background over the opaque-white backdrop (transparent black
    for a fully transparent background; otherwise the alpha
    [bgA + 1.0*(1-bgA)] and the channels [bgC*bgA + 255*1.0*(1-bgA)],
    clamped to 255 and cut to integers); the contrast is that of the
    resolved foreground and the effective background (the larger
    luminance plus [0.05] over the smaller plus [0.05], rounded to two
    decimals); [same_color] is among the reasons exactly when the
    foreground compares equal to the effective background (for a
    foreground whose alpha is neither zero nor NaN, exactly when the two
    are identical); otherwise [low_contrast], with the computed value, is
    among them exactly when the contrast is below [1.05]. *)
Theorem C6_contrast_check :
  forall (offset_order : list string)
         (float_pow : float -> float -> float)
         (names : string -> option (Z * Z * Z))
         (st : style) (visible : bool) (reasons : list reason),
    _check_visibility offset_order float_pow names st
    = Ok (visible, reasons) ->
    contrast_outcome float_pow names st reasons.
Proof.
  intros offset_order float_pow names st visible reasons H.
  destruct (check_visibility_contrast offset_order float_pow names st
              visible reasons H)
    as [color [effective_bg [contrast [Hcolor [Hblend [Hcontrast Hfilter]]]]]].
  exists color, effective_bg, contrast. cbv zeta.
  assert (Hin : forall r, about_contrast r = true ->
                          (In r reasons
                           <-> In r (contrast_reasons
                                       (_parse_color names color "fg")
                                       effective_bg contrast))).
  { intros r Hr. rewrite <- Hfilter, filter_In. tauto. }
  split; [exact Hcolor |]. split; [apply (blend_composite names), Hblend |].
  split; [apply contrast_wcag, Hcontrast |].
  split; [| split; [| apply color_eqb_identical]].
  - rewrite (Hin SameColor eq_refl). unfold contrast_reasons.
    destruct (color_eqb (_parse_color names color "fg") effective_bg);
      [| destruct (PrimFloat.ltb contrast 1.05)]; cbn;
      intuition discriminate.
  - intros c. rewrite (Hin (LowContrast c) eq_refl). unfold contrast_reasons.
    destruct (color_eqb (_parse_color names color "fg") effective_bg);
      [| destruct (PrimFloat.ltb contrast 1.05)]; cbn.
    + intuition discriminate.
    + split.
      * intros [E | []]. injection E as <-. auto.
      * intros [_ [_ ->]]. left. reflexivity.
    + intuition discriminate.
Qed.

(** The contrast check on grey text, [(128, 128, 128)], over a black
    background of alpha [0.5]: the background composited over white is the
    opaque grey [(127, 127, 127)], the contrast of the two greys is
    [1.01], and the classifier returns [low_contrast(1.01)] as its only
    reason. *)
Lemma C6_witness :
  contrast_outcome Reference.pow Reference.name_to_rgb
    grey_on_translucent_black [LowContrast 1.01].
Proof.
  apply (C6_contrast_check Reference.offset_order Reference.pow
           Reference.name_to_rgb grey_on_translucent_black false
           [LowContrast 1.01]).
  vm_compute. reflexivity.
Defined.

(** ** The keys of a resolved style *)

Lemma dget_dset_same {V} (k : string) (v : V) (d : list (string * V)) :
  dget k (dset k v d) = Some v.
Proof.
  induction d as [| [k' v'] r IH]; cbn.
  - rewrite String.eqb_refl. reflexivity.
  - destruct (String.eqb k k') eqn:E; cbn; rewrite ?String.eqb_refl, ?E; auto.
Qed.

Lemma dget_dset_other {V} (k k0 : string) (v : V) (d : list (string * V)) :
  String.eqb k k0 = false -> dget k (dset k0 v d) = dget k d.
Proof.
  intros Hk. induction d as [| [k' v'] r IH]; cbn.
  - rewrite Hk. reflexivity.
  - destruct (String.eqb k0 k') eqn:E; cbn.
    + apply String.eqb_eq in E. subst k'. rewrite Hk. reflexivity.
    + rewrite IH. reflexivity.
Qed.

Lemma dget_inheritable (k : string) (st : style) :
  mem k INHERITABLE_PROPS = true -> dget k (inheritable st) = dget k st.
Proof.
  intros Hk. unfold inheritable.
  induction st as [| [k' v'] r IH]; [reflexivity |]. cbn [filter fst dget].
  destruct (String.eqb k k') eqn:E.
  - apply String.eqb_eq in E. subst k'. rewrite Hk. cbn [dget].
    rewrite String.eqb_refl. reflexivity.
  - destruct (mem k' INHERITABLE_PROPS); cbn [dget]; rewrite ?E; exact IH.
Qed.

Lemma resolved_has_keys (st : style) :
  resolved st -> forallb (fun k => dmem k st) default_keys = true.
Proof.
  intros [[c Hc] [[b Hb] [[s Hs] [o Ho]]]]. cbn. unfold dmem.
  rewrite Hc, Hb, Hs, Ho. reflexivity.
Qed.

Lemma resolved_default : resolved DEFAULT_STYLE.
Proof.
  repeat split; [exists opaque_black | exists opaque_white | eexists | eexists];
    reflexivity.
Qed.

Lemma resolved_inheritable (st : style) :
  resolved st -> resolved (inheritable st).
Proof.
  intros [Hc [Hb [Hs Ho]]]. unfold resolved.
  rewrite !dget_inheritable by reflexivity. auto.
Qed.

(** Writing a key other than the four keeps a style resolved; so does
    writing a value of the right shape under one of the four. *)
Lemma resolved_dset_other (k : string) (v : pyval) (st : style) :
  mem k default_keys = false -> resolved st -> resolved (dset k v st).
Proof.
  intros Hk [Hc [Hb [Hs Ho]]]. cbn in Hk.
  repeat (apply orb_false_elim in Hk; destruct Hk as [? Hk]).
  unfold resolved. rewrite !dget_dset_other by (rewrite String.eqb_sym; assumption).
  auto.
Qed.

Lemma resolved_dset_color (c : Color) (st : style) :
  resolved st -> resolved (dset "color" (color_val c) st).
Proof.
  intros [Hc [Hb [Hs Ho]]]. unfold resolved.
  rewrite dget_dset_same, !dget_dset_other by reflexivity. eauto.
Qed.

Lemma resolved_dset_background (c : Color) (st : style) :
  resolved st -> resolved (dset "background-color" (color_val c) st).
Proof.
  intros [Hc [Hb [Hs Ho]]]. unfold resolved.
  rewrite dget_dset_same, !dget_dset_other by reflexivity. eauto.
Qed.

Lemma resolved_dset_font_size (s : string) (st : style) :
  resolved st -> resolved (dset "font-size" (VStr s) st).
Proof.
  intros [Hc [Hb [Hs Ho]]]. unfold resolved.
  rewrite dget_dset_same, !dget_dset_other by reflexivity. eauto.
Qed.

Lemma resolved_dset_opacity (s : string) (st : style) :
  resolved st -> resolved (dset "opacity" (VStr s) st).
Proof.
  intros [Hc [Hb [Hs Ho]]]. unfold resolved.
  rewrite dget_dset_same, !dget_dset_other by reflexivity. eauto.
Qed.

(** *** Calls that raise no [KeyError] *)

Lemma nke_ok {A} (a : A) : no_key_error (Ok a).
Proof. discriminate. Qed.

Lemma nke_raise {A} (e : exn) : e <> KeyError -> no_key_error (@Raise A e).
Proof. intros H E. injection E as E. exact (H E). Qed.

Lemma nke_of_option {A} (e : exn) (x : option A) :
  e <> KeyError -> no_key_error (of_option e x).
Proof.
  intros H. destruct x; cbn; [apply nke_ok | apply nke_raise; exact H].
Qed.

Lemma nke_bind {A B} (x : res A) (f : A -> res B) :
  no_key_error x -> (forall a, x = Ok a -> no_key_error (f a)) ->
  no_key_error (bind x f).
Proof.
  destruct x as [a | e]; cbn; intros Hx Hf; [apply Hf; reflexivity |].
  intros E. apply Hx. injection E as ->. reflexivity.
Qed.

Lemma nke_anyM {A} (f : A -> res bool) (l : list A) :
  (forall x, no_key_error (f x)) -> no_key_error (anyM f l).
Proof.
  intros Hf. induction l as [| x r IH]; [apply nke_ok |].
  cbn [anyM]. apply nke_bind; [apply Hf |].
  intros [] _; [apply nke_ok | exact IH].
Qed.

Create HintDb nke.
#[local] Hint Resolve nke_ok nke_of_option nke_anyM : nke.
#[local] Hint Extern 1 (no_key_error (Raise _)) =>
  apply nke_raise; discriminate : nke.
#[local] Hint Extern 1 (_ <> KeyError) => discriminate : nke.

(** One step through a call: a [bind], a test or a match at its head. *)
Ltac nke_step :=
  match goal with
  | |- no_key_error (bind _ _) => apply nke_bind; [| intros ? ?]
  | |- no_key_error (if ?b then _ else _) => destruct b eqn:?
  | |- no_key_error (match ?x with _ => _ end) => destruct x eqn:?
  | |- no_key_error _ => solve [auto with nke]
  end.

Ltac nke := repeat nke_step.

Lemma nke_py_float (v : pyval) : no_key_error (py_float v).
Proof. unfold py_float. nke. Qed.

Lemma nke_as_number (v : pyval) : no_key_error (as_number v).
Proof. unfold as_number. nke. Qed.

#[local] Hint Resolve nke_py_float nke_as_number : nke.

Lemma nke_parse_length (v : pyval) : no_key_error (_parse_length v).
Proof. unfold _parse_length. nke. Qed.

#[local] Hint Resolve nke_parse_length : nke.

Lemma nke_is_large_offset (v : pyval) : no_key_error (_is_large_offset v).
Proof. unfold _is_large_offset. nke. Qed.

#[local] Hint Resolve nke_is_large_offset : nke.

Lemma nke_check_position_offset (offset_order : list string) (st : style) :
  no_key_error (_check_position_offset offset_order st).
Proof. unfold _check_position_offset. auto with nke. Qed.

Lemma nke_is_hidden_clip (v : pyval) : no_key_error (_is_hidden_clip v).
Proof. unfold _is_hidden_clip. nke. Qed.

#[local] Hint Resolve nke_is_hidden_clip : nke.

Lemma nke_check_clipping (st : style) : no_key_error (_check_clipping st).
Proof.
  unfold _check_clipping. apply nke_anyM. intros prop. nke.
Qed.

Lemma nke_is_hiding_filter (s : string) : no_key_error (_is_hiding_filter s).
Proof. unfold _is_hiding_filter. nke. Qed.

#[local] Hint Resolve nke_is_hiding_filter : nke.

Lemma nke_check_filter (st : style) : no_key_error (_check_filter st).
Proof. unfold _check_filter. nke. Qed.

#[local] Hint Resolve nke_check_position_offset nke_check_clipping
  nke_check_filter : nke.

(** The legacy table has an entry for every size from 1 to 7. *)
Lemma sizes_cover (z : Z) :
  (1 <=? z)%Z = true -> (z <=? 7)%Z = true -> exists px, sizes_get z sizes = Some px.
Proof.
  intros Hlo Hhi. apply Z.leb_le in Hlo, Hhi.
  assert (H : (z = 1 \/ z = 2 \/ z = 3 \/ z = 4 \/ z = 5 \/ z = 6 \/ z = 7)%Z)
    by lia.
  repeat (destruct H as [-> | H]; [eexists; reflexivity |]).
  subst. eexists; reflexivity.
Qed.

Lemma nke_parse_font_size (value : string) :
  no_key_error (_parse_font_size value).
Proof.
  unfold _parse_font_size. set (v := lower (strip value)).
  apply nke_bind.
  - destruct (isdigit v); [| apply nke_ok]. unfold py_int.
    destruct (all_chars is_digit v); cbn [bind];
      [apply nke_ok | apply nke_raise; discriminate].
  - intros legacy Hl. destruct legacy; [| nke].
    destruct (isdigit v); [| discriminate]. unfold py_int in Hl.
    destruct (all_chars is_digit v); [| discriminate].
    cbn [bind] in Hl. injection Hl as Hl.
    apply andb_prop in Hl. destruct Hl as [Hlo Hhi].
    destruct (sizes_cover _ Hlo Hhi) as [px ->]. apply nke_ok.
Qed.

#[local] Hint Resolve nke_parse_font_size : nke.

Section ResolvedStyles.

Variable offset_order : list string.
Variable float_pow : float -> float -> float.
Variable name_to_rgb : string -> option (Z * Z * Z).

Lemma nke_blend_channel (x : float) : no_key_error (blend_channel x).
Proof. unfold blend_channel. nke. Qed.

#[local] Hint Resolve nke_blend_channel : nke.

Lemma nke_blend_colors (a b : Color) :
  no_key_error (_blend_colors name_to_rgb (color_val a) (color_val b)).
Proof.
  destruct a as [[[r1 g1] b1] a1], b as [[[r2 g2] b2] a2].
  unfold _blend_colors. cbn. nke.
Qed.

Lemma nke_calculate_contrast (a b : Color) :
  no_key_error (_calculate_contrast float_pow a b).
Proof.
  destruct a as [[[r1 g1] b1] a1], b as [[[r2 g2] b2] a2].
  unfold _calculate_contrast, luminance, linearize. cbn [rgb]. nke.
Qed.

#[local] Hint Resolve nke_blend_colors nke_calculate_contrast : nke.

(** On a resolved style the classifier finds every key it looks up without
    a guard. *)
Lemma nke_check_visibility (st : style) :
  resolved st ->
  no_key_error (_check_visibility offset_order float_pow name_to_rgb st).
Proof.
  intros [[c Hc] [[b Hb] [[s Hs] [o Ho]]]].
  unfold _check_visibility. rewrite Hc, Hb, Hs, Ho. cbv zeta.
  rewrite !parse_color_color_val. cbn [of_option]. nke.
Qed.

Lemma resolved_set_color (value : string) (state : style * string) :
  resolved (fst state) -> resolved (fst (set_color name_to_rgb value state)).
Proof.
  destruct state as [st o]. cbn. apply resolved_dset_color.
Qed.

Lemma font_attributes_resolved (n : node) (state state' : style * string) :
  resolved (fst state) ->
  font_attributes name_to_rgb n state = Ok state' -> resolved (fst state').
Proof.
  intros Hst H. unfold font_attributes in H.
  destruct (has_name "font" n); [| injection H as <-; exact Hst].
  set (state1 := match dget "color" (lower_attrs n) with
                 | Some v => set_color name_to_rgb v state
                 | None => state
                 end) in *.
  assert (H1 : resolved (fst state1)).
  { unfold state1. destruct (dget "color" (lower_attrs n));
      [apply resolved_set_color |]; exact Hst. }
  destruct (dget "size" (lower_attrs n)); [| injection H as <-; exact H1].
  bind_inv H as fs Hfs. injection H as <-. cbn [fst].
  apply resolved_dset_font_size. exact H1.
Qed.

Lemma nke_font_attributes (n : node) (state : style * string) :
  no_key_error (font_attributes name_to_rgb n state).
Proof. unfold font_attributes. nke. Qed.

Lemma table_attributes_resolved (n : node) (state state' : style * string) :
  resolved (fst state) ->
  table_attributes name_to_rgb n state = Ok state' -> resolved (fst state').
Proof.
  intros Hst H. unfold table_attributes in H.
  destruct (existsb (fun t => has_name t n) _); [| injection H as <-; exact Hst].
  bind_inv H as state1 H1.
  assert (R1 : resolved (fst state1)).
  { destruct (dget "bgcolor" (lower_attrs n)); [| injection H1 as <-; exact Hst].
    destruct (dget "background-color" (fst state)).
    - bind_inv H1 as new_bg Hblend. injection H1 as <-. cbn [fst].
      apply resolved_dset_background. exact Hst.
    - injection H1 as <-. cbn [fst]. apply resolved_dset_background. exact Hst. }
  injection H as <-.
  repeat match goal with
         | |- context [match dget ?k (lower_attrs n) with _ => _ end] =>
             destruct (dget k (lower_attrs n))
         end;
    cbn [fst];
    repeat first [ apply resolved_dset_other; [reflexivity |]
                 | apply resolved_set_color ];
    exact R1.
Qed.

Lemma nke_table_attributes (n : node) (state : style * string) :
  resolved (fst state) -> no_key_error (table_attributes name_to_rgb n state).
Proof.
  intros [_ [[b Hb] _]]. unfold table_attributes. rewrite Hb. nke.
Qed.

Lemma inline_declaration_resolved (decl : string * string)
  (state state' : style * string) :
  resolved (fst state) ->
  inline_declaration name_to_rgb decl state = Ok state' ->
  resolved (fst state').
Proof.
  intros Hst H. destruct decl as [prop value]. unfold inline_declaration in H.
  destruct (String.eqb (lower prop) "background-color"
            || String.eqb (lower prop) "bgcolor") eqn:Ebg.
  { injection H as <-. apply resolved_dset_background. exact Hst. }
  apply orb_false_elim in Ebg. destruct Ebg as [Ebg _].
  destruct (String.eqb (lower prop) "color") eqn:Ecolor.
  { injection H as <-. apply resolved_set_color. exact Hst. }
  destruct (String.eqb (lower prop) "font-size") eqn:Efont.
  { bind_inv H as fs Hfs. injection H as <-. cbn [fst].
    apply String.eqb_eq in Efont. rewrite Efont.
    apply resolved_dset_font_size. exact Hst. }
  destruct (String.eqb (lower prop) "opacity") eqn:Eopacity.
  { injection H as <-. exact Hst. }
  injection H as <-. cbn [fst]. apply resolved_dset_other; [| exact Hst].
  cbn. rewrite Ecolor, Ebg, Efont, Eopacity. reflexivity.
Qed.

Lemma nke_inline_declaration (decl : string * string) (state : style * string) :
  no_key_error (inline_declaration name_to_rgb decl state).
Proof. destruct decl. unfold inline_declaration. nke. Qed.

Lemma inline_declarations_resolved (decls : list (string * string)) :
  forall state state',
    resolved (fst state) ->
    inline_declarations name_to_rgb decls state = Ok state' ->
    resolved (fst state').
Proof.
  induction decls as [| d r IH]; intros state state' Hst H.
  - injection H as <-. exact Hst.
  - cbn [inline_declarations] in H. bind_inv H as state1 H1.
    eapply IH; [| exact H].
    eapply inline_declaration_resolved; eassumption.
Qed.

Lemma nke_inline_declarations (decls : list (string * string)) :
  forall state, no_key_error (inline_declarations name_to_rgb decls state).
Proof.
  induction decls as [| d r IH]; intros state; [apply nke_ok |].
  cbn [inline_declarations]. apply nke_bind; [apply nke_inline_declaration |].
  intros state1 _. apply IH.
Qed.

(** The cascade step: from a resolved inherited style, [_parse_node_style]
    raises no [KeyError] and returns a resolved style. *)
Lemma parse_node_style_resolved (n : node) (inherited st : style) :
  resolved inherited ->
  _parse_node_style name_to_rgb n inherited = Ok st -> resolved st.
Proof.
  intros Hinh H. unfold _parse_node_style in H.
  destruct n as [nm a cs | k s]; [| discriminate].
  bind_inv H as state1 H1. bind_inv H as state2 H2. bind_inv H as state3 H3.
  injection H as <-. apply resolved_dset_opacity.
  apply font_attributes_resolved in H1; [| exact Hinh].
  apply table_attributes_resolved in H2; [| exact H1].
  destruct (dget "style" (attrs (Tag nm a cs))).
  - eapply inline_declarations_resolved; eassumption.
  - injection H3 as <-. exact H2.
Qed.

Lemma nke_parse_node_style (n : node) (inherited : style) :
  resolved inherited ->
  no_key_error (_parse_node_style name_to_rgb n inherited).
Proof.
  intros Hinh. unfold _parse_node_style.
  destruct n as [nm a cs | k s]; [| apply nke_raise; discriminate].
  apply nke_bind; [apply nke_font_attributes |]. intros state1 H1.
  apply font_attributes_resolved in H1; [| exact Hinh].
  apply nke_bind; [apply nke_table_attributes; exact H1 |]. intros state2 H2.
  apply nke_bind; [| intros; apply nke_ok].
  destruct (dget "style" (attrs (Tag nm a cs)));
    [apply nke_inline_declarations | apply nke_ok].
Qed.

Lemma walk_path_resolved (path : list node) :
  forall inherited results file_visible results' file_visible',
    resolved inherited ->
    Forall style_resolved results ->
    walk_path offset_order float_pow name_to_rgb path inherited results file_visible
    = Ok (results', file_visible') ->
    Forall style_resolved results'.
Proof.
  induction path as [| n rest IH];
    intros inherited results file_visible results' file_visible' Hinh Hres H.
  - injection H as <- _. exact Hres.
  - cbn [walk_path] in H. destruct (has_name "a" n).
    + bind_inv H as link_result Hlink. injection H as <- _.
      destruct link_result as [r |]; [| exact Hres].
      apply Forall_app. split; [exact Hres |]. constructor; [| constructor].
      unfold _process_anchor_tag in Hlink.
      destruct (_get_link_text n); [discriminate |].
      bind_inv Hlink as link_style Hstyle.
      bind_inv Hlink as [visible reasons] Hcheck.
      injection Hlink as <-. exists link_style. split; [reflexivity |].
      eapply parse_node_style_resolved; eassumption.
    + bind_inv H as current_style Hstyle.
      pose proof (parse_node_style_resolved _ _ _ Hinh Hstyle) as Hcur.
      bind_inv H as [results1 file_visible1] Hrecord.
      eapply IH; [apply resolved_inheritable; exact Hcur | | exact H].
      destruct (_get_node_text n).
      * injection Hrecord as <- _. exact Hres.
      * bind_inv Hrecord as [visible reasons] Hcheck.
        injection Hrecord as <- _.
        apply Forall_app. split; [exact Hres |]. constructor; [| constructor].
        exists current_style. split; [reflexivity | exact Hcur].
Qed.

Lemma nke_walk_path (path : list node) :
  forall inherited results file_visible,
    resolved inherited ->
    no_key_error
      (walk_path offset_order float_pow name_to_rgb path inherited results
         file_visible).
Proof.
  induction path as [| n rest IH]; intros inherited results file_visible Hinh.
  - apply nke_ok.
  - cbn [walk_path]. destruct (has_name "a" n).
    + apply nke_bind; [| intros; apply nke_ok].
      unfold _process_anchor_tag. destruct (_get_link_text n); [apply nke_ok |].
      apply nke_bind; [apply nke_parse_node_style; exact Hinh |].
      intros link_style Hstyle.
      apply nke_bind; [| intros [visible reasons] _; apply nke_ok].
      apply nke_check_visibility.
      eapply parse_node_style_resolved; eassumption.
    + apply nke_bind; [apply nke_parse_node_style; exact Hinh |].
      intros current_style Hstyle.
      pose proof (parse_node_style_resolved _ _ _ Hinh Hstyle) as Hcur.
      apply nke_bind.
      * destruct (_get_node_text n); [apply nke_ok |].
        apply nke_bind; [apply nke_check_visibility; exact Hcur |].
        intros [visible reasons] _. apply nke_ok.
      * intros [results1 file_visible1] _. apply IH.
        apply resolved_inheritable. exact Hcur.
Qed.

Lemma walk_paths_resolved (paths : list (list node)) :
  forall results file_visible results' file_visible',
    Forall style_resolved results ->
    walk_paths offset_order float_pow name_to_rgb paths results file_visible
    = Ok (results', file_visible') ->
    Forall style_resolved results'.
Proof.
  induction paths as [| path rest IH];
    intros results file_visible results' file_visible' Hres H.
  - injection H as <- _. exact Hres.
  - cbn [walk_paths] in H. bind_inv H as [results1 file_visible1] Hpath.
    eapply IH; [| exact H].
    eapply walk_path_resolved; [apply resolved_default | exact Hres | exact Hpath].
Qed.

Lemma nke_walk_paths (paths : list (list node)) :
  forall results file_visible,
    no_key_error
      (walk_paths offset_order float_pow name_to_rgb paths results
         file_visible).
Proof.
  induction paths as [| path rest IH]; intros results file_visible.
  - apply nke_ok.
  - cbn [walk_paths]. apply nke_bind.
    + apply nke_walk_path. apply resolved_default.
    + intros [results1 file_visible1] _. apply IH.
Qed.

Variable BeautifulSoup : string -> node.
Variable to_markup : node -> string.

Lemma nke_process_comments analyze (self : DOMAnalyzer) :
  (forall a, no_key_error (analyze a)) ->
  no_key_error (_process_comments BeautifulSoup to_markup analyze self).
Proof.
  intros Hanalyze. rewrite process_comments_fold.
  generalize (comments (soup self)).
  assert (Hinit : no_key_error (@Ok (list record) [])) by apply nke_ok.
  revert Hinit. generalize (@Ok (list record) []).
  intros acc Hacc l. revert acc Hacc.
  induction l as [| [comment parent] r IH]; intros acc Hacc; [exact Hacc |].
  cbn [fold_left]. apply IH. unfold comment_step.
  apply nke_bind; [exact Hacc |]. intros results _.
  destruct (startswith "[cond:" (strip comment)); [| apply nke_ok].
  destruct (has_name "div" parent
            && mem "conditional-container" (get_class parent));
    [| apply nke_ok].
  apply nke_bind; [apply Hanalyze |]. intros [elements fv] _. apply nke_ok.
Qed.

(** No analysis, however deep its nested analyzers go, ends in a
    [KeyError]. *)
Lemma nke_analyze_paths (depth : nat) :
  forall self,
    no_key_error
      (analyze_paths offset_order float_pow name_to_rgb BeautifulSoup
         to_markup depth self).
Proof.
  induction depth as [| depth IH]; intros self; cbn [analyze_paths];
    (apply nke_bind; [apply nke_walk_paths |]);
    intros [results file_visible] _;
    (apply nke_bind; [| intros; apply nke_ok]);
    apply nke_process_comments.
  - intros a. apply nke_raise. discriminate.
  - exact IH.
Qed.

End ResolvedStyles.

(** C9.  The four keys [color], [background-color], [font-size] and
    [opacity] are inheritable and present in the default style, with
    colours under the first two and strings under the last two.  Every
    cascade step keeps them so: from a style of that shape
    [_parse_node_style] raises no [KeyError], and the style it returns, and
    the part of it handed to the children, have that shape again, so that
    the classifier's lookups succeed on it.  Hence every record emitted
    along the paths carries such a style, and no analysis raises a
    [KeyError]. *)
Theorem C9_resolved_styles_keep_the_default_keys :
  forall (offset_order : list string)
         (float_pow : float -> float -> float)
         (names : string -> option (Z * Z * Z)),
    forallb (fun k => mem k INHERITABLE_PROPS && dmem k DEFAULT_STYLE)
      default_keys = true
    /\ resolved DEFAULT_STYLE
    /\ (forall (n : node) (inherited : style),
           resolved inherited ->
           no_key_error (_parse_node_style names n inherited)
           /\ forall st,
               _parse_node_style names n inherited = Ok st ->
               resolved st
               /\ resolved (inheritable st)
               /\ forallb (fun k => dmem k st) default_keys = true
               /\ no_key_error (_check_visibility offset_order float_pow names st))
    /\ (forall paths results file_visible,
           walk_paths offset_order float_pow names paths [] true
           = Ok (results, file_visible) ->
           Forall style_resolved results)
    /\ (forall BeautifulSoup to_markup depth self,
           no_key_error
             (analyze_paths offset_order float_pow names BeautifulSoup
                to_markup depth self)).
Proof.
  intros offset_order float_pow names. split; [reflexivity |].
  split; [apply resolved_default |]. split; [| split].
  - intros n inherited Hinh.
    split; [apply nke_parse_node_style; exact Hinh |].
    intros st Hst.
    pose proof (parse_node_style_resolved names n inherited st Hinh Hst) as R.
    split; [exact R |]. split; [apply resolved_inheritable; exact R |].
    split; [apply resolved_has_keys; exact R |].
    apply nke_check_visibility. exact R.
  - intros paths results file_visible H.
    eapply walk_paths_resolved; [constructor | exact H].
  - intros BeautifulSoup to_markup depth self. apply nke_analyze_paths.
Qed.

(* ================================================================== *)
(** * The embedding on the scenarios of the specification *)
(* ================================================================== *)

(** Opacity accumulation: [parse_opacity("50%", "0.5") == "0.25"]. *)
Example opacity_accumulation :
  _parse_opacity (VStr "50%") (VStr "0.5") = "0.25"%string.
Proof. vm_compute. reflexivity. Qed.

(** Font-size mapping: legacy size 3 is [16px], [2pt] is [3px]. *)
Example font_size_mapping :
  _parse_font_size "3" = Ok "16px"%string
  /\ _parse_font_size "2pt" = Ok "3px"%string
  /\ _parse_font_size "1.5em" = Ok "1.5em"%string
  /\ _parse_font_size "large" = Ok "16px"%string.
Proof. repeat split; vm_compute; reflexivity. Qed.

(** Contrast boundary: black on white is [21.0], a colour on itself [1.0]. *)
Example contrast_boundary :
  _calculate_contrast Reference.pow opaque_black opaque_white = Ok 21%float
  /\ _calculate_contrast Reference.pow opaque_white opaque_black = Ok 21%float
  /\ _calculate_contrast Reference.pow (mkColor (18, 52, 86) 1)
       (mkColor (18, 52, 86) 1) = Ok 1%float.
Proof. repeat split; vm_compute; reflexivity. Qed.

(** Compositing an opaque colour over another returns its channels. *)
Example compositing_opaque :
  _blend_colors Reference.name_to_rgb (color_val (mkColor (18, 52, 86) 1))
    (color_val (mkColor (200, 100, 0) 0.5))
  = Ok (mkColor (18, 52, 86) 1).
Proof. vm_compute. reflexivity. Qed.

(** Scenario 1: [<p style="color:#fff;background-color:#fff">hello</p>]. *)
Example scenario_same_color :
  outcome (analyze_tree (Tag "[document]" []
                  [ Tag "p" [("style", "color:#fff;background-color:#fff")]
                      [Str NavigableString "hello"] ]))
  = Ok ([("hello"%string, text_record, false, Some [SameColor])], false).
Proof. vm_compute. reflexivity. Qed.

(** Scenario 2: [<span style="opacity:0.005">x</span>]. *)
Example scenario_opacity :
  outcome (analyze_tree (Tag "[document]" []
                  [ Tag "span" [("style", "opacity:0.005")]
                      [Str NavigableString "x"] ]))
  = Ok ([("x"%string, text_record, false, Some [Opacity (VStr "0.01")])],
        false).
Proof. vm_compute. reflexivity. Qed.

(** Scenario 3: [<div style="font-size:1px">y</div>]. *)
Example scenario_font_size :
  outcome (analyze_tree (Tag "[document]" []
                  [ Tag "div" [("style", "font-size:1px")]
                      [Str NavigableString "y"] ]))
  = Ok ([("y"%string, text_record, false, Some [FontTooSmall 1])], false).
Proof. vm_compute. reflexivity. Qed.

(** Scenario 4: [<a href="http://x">click</a>]. *)
Example scenario_link :
  outcome (analyze_tree (Tag "[document]" []
                  [ Tag "a" [("href", "http://x")]
                      [Str NavigableString "click"] ]))
  = Ok ([("click"%string, link_record, true, Some [])], true).
Proof. vm_compute. reflexivity. Qed.

(** Inheritance: a colour set on an ancestor reaches the text of a
    descendant, a width does not; an ordinary comment becomes a comment
    record. *)
Example scenario_inheritance :
  analyze_tree (Tag "[document]" []
         [ Tag "body" []
             [ Tag "table" [("width", "600"); ("bgcolor", "#000000")]
                 [ Tag "td" [("style", "color: #010101")]
                     [ Tag "b" []
                         [ Str NavigableString "fine print";
                           Str Comment " tracking " ] ] ] ] ])
  = Ok ([ mkRecord "fine print" text_record None
            (Some [ ("color", color_val (mkColor (1, 1, 1) 1));
                    ("background-color", color_val (mkColor (0, 0, 0) 1));
                    ("font-size", VStr "16px");
                    ("opacity", VStr "1.00") ])
            false (Some [LowContrast 1.01]);
          mkRecord "tracking" html_comment None None false None ],
        false).
Proof. vm_compute. reflexivity. Qed.

(** Text in a fully transparent colour: the alpha does not reach the
    opacity, the contrast is that of black on white, and the record is
    judged visible. *)
Example scenario_transparent_text :
  outcome (analyze_tree
             (Tag "[document]" []
                [ Tag "span" [("style", "color: transparent")]
                    [Str NavigableString "x"] ]))
  = Ok ([("x"%string, text_record, true, Some [])], true).
Proof. vm_compute. reflexivity. Qed.

(** A no-break space is white space: [<p>&nbsp;</p>] is pruned and gives
    no record, and in [<div>&nbsp;<p style="display:none">hidden</p></div>]
    the [div] is no leaf, so that the path goes on to the paragraph. *)
Example scenario_no_break_space :
  analyze_tree (Tag "[document]" []
                  [ Tag "p" [] [Str NavigableString (String "160" EmptyString)] ])
  = Ok ([], true)
  /\ outcome (analyze_tree
                (Tag "[document]" []
                   [ Tag "div" []
                       [ Str NavigableString (String "160" EmptyString);
                         Tag "p" [("style", "display:none")]
                           [Str NavigableString "hidden"] ] ]))
     = Ok ([("hidden"%string, text_record, false, Some [DisplayNone])],
           false).
Proof. split; vm_compute; reflexivity. Qed.

(* ================================================================== *)
(** * Further properties *)
(* ================================================================== *)

(** ** The pruned tree *)

Lemma descendants_tag nm a cs :
  descendants (Tag nm a cs) = flat_map (fun c => c :: descendants c) cs.
Proof.
  cbn [descendants]. induction cs as [| c r IH]; [reflexivity |].
  cbn [flat_map]. rewrite <- IH. reflexivity.
Qed.

Lemma find_app_first {A} (p : A -> bool) (l1 l2 : list A) :
  find p (l1 ++ l2) = match find p l1 with
                      | Some x => Some x
                      | None => find p l2
                      end.
Proof.
  induction l1 as [| x r IH]; [reflexivity |]. cbn.
  destruct (p x); [reflexivity | exact IH].
Qed.

Lemma find_body_tag nm a cs : find_body (Tag nm a cs) = body_in cs.
Proof.
  unfold find_body. rewrite descendants_tag.
  induction cs as [| c r IH]; [reflexivity |].
  cbn [flat_map body_in]. rewrite find_app_first. cbn [find].
  destruct (has_name "body" c); [reflexivity |].
  fold (find_body c). destruct (find_body c); [reflexivity | exact IH].
Qed.

(** [at_body] rewrites the element [find_body] finds, and no other. *)
Lemma at_body_find (f : node -> node) :
  (forall m, has_name "body" (f m) = has_name "body" m) ->
  forall n,
    match at_body f n with
    | Some n' => exists b, find_body n = Some b /\ find_body n' = Some (f b)
    | None => find_body n = None
    end.
Proof.
  intros Hf. induction n as [k s | nm a cs IH] using node_induction;
    [reflexivity |].
  rewrite at_body_tag, find_body_tag.
  assert (Hcs : match at_body_children f cs with
                | Some cs' => exists b, body_in cs = Some b
                                        /\ body_in cs' = Some (f b)
                | None => body_in cs = None
                end).
  { induction IH as [| c r Hc _ IHr]; [reflexivity |].
    cbn [at_body_children body_in].
    destruct (has_name "body" c) eqn:Hb.
    - exists c. split; [reflexivity |]. cbn [body_in]. rewrite Hf, Hb.
      reflexivity.
    - destruct (at_body f c) as [c' |] eqn:Ec.
      + destruct Hc as [b [H1 H2]]. exists b. rewrite H1.
        split; [reflexivity |]. cbn [body_in].
        rewrite (at_body_keeps_name f "body" c c' Ec), Hb, H2. reflexivity.
      + rewrite Hc. destruct (at_body_children f r) as [r' |]; cbn [option_map].
        * destruct IHr as [b [H1 H2]]. exists b. rewrite H1.
          split; [reflexivity |]. cbn [body_in]. rewrite Hb, Hc. exact H2.
        * exact IHr. }
  destruct (at_body_children f cs) as [cs' |]; cbn [option_map].
  - destruct Hcs as [b [H1 H2]]. exists b. rewrite find_body_tag. auto.
  - exact Hcs.
Qed.

(** The subtree the analysis starts from is the pruned one. *)
Lemma analysis_root_prune (soup : node) :
  analysis_root (_prune_tree soup)
  = fst (_prune_empty_nodes (analysis_root soup)).
Proof.
  unfold _prune_tree, analysis_root.
  pose proof (at_body_find (fun n => fst (_prune_empty_nodes n))
                (prune_keeps_name "body") soup) as H.
  destruct (at_body (fun n => fst (_prune_empty_nodes n)) soup)
    as [soup' |] eqn:E.
  - destruct H as [b [-> ->]]. reflexivity.
  - rewrite H.
    pose proof (no_body_after_prune (fun n => fst (_prune_empty_nodes n))
                  (fun n => n) soup E) as Hnone.
    pose proof (at_body_find (fun n => n) (fun m => eq_refl)
                  (fst (_prune_empty_nodes soup))) as H'.
    rewrite Hnone in H'. rewrite H'. reflexivity.
Qed.

Lemma pruned_children_not_empty (cs : list node) :
  Forall (fun c => forallb not_empty_element
                     (descendants (fst (_prune_empty_nodes c))) = true) cs ->
  forallb not_empty_element
    (flat_map (fun c => c :: descendants c) (prune_children cs)) = true.
Proof.
  induction 1 as [| c r Hc _ IH]; [reflexivity |].
  cbn [prune_children].
  destruct (_prune_empty_nodes c) as [c' e] eqn:E. cbn [fst] in Hc.
  destruct e; [exact IH |].
  cbn [flat_map]. rewrite forallb_app. cbn [forallb].
  rewrite Hc, IH, !andb_true_r.
  destruct c as [nm a cs' | k s].
  - rewrite prune_tag in E.
    assert (E1 : c' = fst (Tag nm a (prune_children cs'),
                           is_empty_node (Tag nm a (prune_children cs'))))
      by (rewrite E; reflexivity).
    assert (E2 : false = snd (Tag nm a (prune_children cs'),
                              is_empty_node (Tag nm a (prune_children cs'))))
      by (rewrite E; reflexivity).
    cbn [fst snd] in E1, E2. subst c'.
    unfold not_empty_element. rewrite <- E2. reflexivity.
  - injection E as <-. reflexivity.
Qed.

Lemma pruned_not_empty (n : node) :
  forallb not_empty_element (descendants (fst (_prune_empty_nodes n))) = true.
Proof.
  induction n as [k s | nm a cs IH] using node_induction; [reflexivity |].
  rewrite prune_tag. cbn [fst]. rewrite descendants_tag.
  apply pruned_children_not_empty. exact IH.
Qed.

(** X1.  Pruning leaves no empty element behind: below a pruned node, and
    below the root the analysis starts from after [_prune_tree], every
    element has text or a valid child element; in particular none is
    without contents, as [_is_empty_tag] tests it. *)
Theorem X1_pruning_leaves_no_empty_element :
  (forall n : node,
      forallb not_empty_element
        (descendants (fst (_prune_empty_nodes n))) = true)
  /\ (forall soup : node,
         forallb not_empty_element
           (descendants (analysis_root (_prune_tree soup))) = true)
  /\ (forall d : node,
         _is_empty_tag d = Ok true -> not_empty_element d = false).
Proof.
  split; [exact pruned_not_empty |]. split.
  - intros soup. rewrite analysis_root_prune. apply pruned_not_empty.
  - intros [nm a [| c r] | k s] H; try discriminate. reflexivity.
Qed.

(** ** Path collection *)

Lemma size_positive (n : node) : (1 <= size n)%nat.
Proof. destruct n; cbn; lia. Qed.

Lemma weight_app (q1 q2 : list (node * list node)) :
  weight (q1 ++ q2) = (weight q1 + weight q2)%nat.
Proof.
  induction q1 as [| [n p] r IH]; [reflexivity |]. cbn. rewrite IH. lia.
Qed.

Lemma weight_children (np : list node) (cs : list node) :
  (weight (map (fun c => (c, np)) (filter _is_valid_node cs))
   <= fold_right (fun c acc => size c + acc) 0 cs)%nat.
Proof.
  induction cs as [| c r IH]; [cbn; lia |]. cbn [filter fold_right].
  destruct (_is_valid_node c); cbn [map weight]; lia.
Qed.

Lemma leaf_path_valid (n : node) (p : list node) :
  leaf_path n p -> _is_valid_node n = true.
Proof. intros H; inversion H; assumption. Qed.

Lemma pending_nil (p : list node) : ~ pending [] p.
Proof. intros [n [prefix [q [[] _]]]]. Qed.

Lemma pending_cons (n : node) (prefix : list node)
  (queue : list (node * list node)) (p : list node) :
  pending ((n, prefix) :: queue) p
  <-> (exists q, leaf_path n q /\ p = prefix ++ q) \/ pending queue p.
Proof.
  split.
  - intros [n0 [prefix0 [q [[E | Hin] [Hq Hp]]]]].
    + injection E as <- <-. left. exists q. auto.
    + right. exists n0, prefix0, q. auto.
  - intros [[q [Hq Hp]] | [n0 [prefix0 [q [Hin [Hq Hp]]]]]].
    + exists n, prefix, q. cbn. auto.
    + exists n0, prefix0, q. cbn. auto.
Qed.

Lemma pending_app (q1 q2 : list (node * list node)) (p : list node) :
  pending (q1 ++ q2) p <-> pending q1 p \/ pending q2 p.
Proof.
  unfold pending. split.
  - intros [n [prefix [q [Hin H]]]]. apply in_app_or in Hin.
    destruct Hin; [left | right]; exists n, prefix, q; auto.
  - intros [[n [prefix [q [Hin H]]]] | [n [prefix [q [Hin H]]]]];
      exists n, prefix, q; (split; [apply in_or_app; auto | exact H]).
Qed.

Lemma pending_children (np cs : list node) (p : list node) :
  pending (map (fun c => (c, np)) (filter _is_valid_node cs)) p
  <-> exists c q, In c cs /\ leaf_path c q /\ p = np ++ q.
Proof.
  unfold pending. split.
  - intros [n [prefix [q [Hin [Hq Hp]]]]].
    apply in_map_iff in Hin. destruct Hin as [c [E Hc]].
    injection E as <- <-. apply filter_In in Hc. exists c, q. tauto.
  - intros [c [q [Hc [Hq Hp]]]]. exists c, np, q.
    split; [| auto]. apply in_map_iff. exists c. split; [reflexivity |].
    apply filter_In. split; [exact Hc | exact (leaf_path_valid c q Hq)].
Qed.

(** The loop of [collect_paths] adds to [paths] exactly the paths its
    queue stands for, once its fuel covers the nodes below the queue. *)
Lemma collect_loop_spec (fuel : nat) :
  forall queue paths,
    (weight queue <= fuel)%nat ->
    forall p, In p (collect_loop fuel queue paths)
              <-> In p paths \/ pending queue p.
Proof.
  induction fuel as [| fuel IH]; intros queue paths Hw p.
  - destruct queue as [| [n prefix] r].
    + cbn. split; [auto | intros [H | H]; [exact H |]].
      destruct (pending_nil _ H).
    + cbn in Hw. pose proof (size_positive n). lia.
  - destruct queue as [| [n prefix] queue'].
    + cbn. split; [auto | intros [H | H]; [exact H |]].
      destruct (pending_nil _ H).
    + cbn [collect_loop]. cbn [weight] in Hw.
      pose proof (size_positive n) as Hn.
      rewrite pending_cons.
      destruct (_is_valid_node n) eqn:Hvalid.
      2: { assert (Hskip : collect_loop fuel queue' paths
                           = (if negb (is_tag n)
                              then collect_loop fuel queue' paths
                              else collect_loop fuel queue' paths))
             by (destruct (is_tag n); reflexivity).
           cbn [negb]. rewrite <- Hskip. rewrite IH by lia.
           split; [tauto |]. intros [H | [[q [Hq _]] | H]]; [tauto | | tauto].
           apply leaf_path_valid in Hq. congruence. }
      assert (Htag : is_tag n = true)
        by (destruct n; [reflexivity | discriminate]).
      rewrite Htag. cbn [negb].
      destruct (_is_leaf n) eqn:Hleaf.
      * rewrite IH by lia. rewrite in_app_iff. cbn [In].
        split.
        -- intros [[H | [H | []]] | H]; [tauto | | tauto].
           right. left. exists [n]. split; [constructor; assumption | auto].
        -- intros [H | [[q [Hq Hp]] | H]]; [tauto | | tauto].
           inversion Hq; subst; [tauto | congruence].
      * rewrite IH.
        2: { rewrite weight_app. destruct n as [nm a cs | k s];
               [| discriminate].
             pose proof (weight_children (prefix ++ [Tag nm a cs]) cs).
             cbn [children]. cbn [size] in Hw. lia. }
        rewrite pending_app, pending_children.
        split.
        -- intros [H | [H | [c [q [Hc [Hq Hp]]]]]]; [tauto | tauto |].
           right. left. exists (n :: q). split.
           ++ eapply leaf_path_step; eassumption.
           ++ rewrite Hp, <- app_assoc. reflexivity.
        -- intros [H | [[q [Hq Hp]] | H]]; [tauto | | tauto].
           inversion Hq; subst; [congruence |].
           right. right. eexists _, _. split; [eassumption |].
           split; [eassumption |]. rewrite <- app_assoc. reflexivity.
Qed.

Lemma collect_paths_spec (self : DOMAnalyzer) (p : list node) :
  In p (paths (collect_paths self))
  <-> In p (paths self) \/ leaf_path (analysis_root (soup self)) p.
Proof.
  unfold collect_paths, analysis_root. cbn [paths].
  rewrite collect_loop_spec by (cbn; lia).
  rewrite pending_cons.
  split.
  - intros [H | [[q [Hq ->]] | H]]; [tauto | tauto |].
    destruct (pending_nil _ H).
  - intros [H | H]; [tauto |]. right. left. exists p. auto.
Qed.

Lemma last_nonempty {A} (l : list A) (d d' : A) :
  l <> [] -> last l d = last l d'.
Proof.
  induction l as [| x [| y r] IH]; intros H; [congruence | reflexivity |].
  cbn [last] in *. apply IH. discriminate.
Qed.

Lemma last_cons_nonempty {A} (x : A) (l : list A) (d d' : A) :
  l <> [] -> last (x :: l) d = last l d'.
Proof.
  destruct l as [| y r]; intros H; [congruence |].
  change (last (x :: y :: r) d) with (last (y :: r) d).
  apply last_nonempty. discriminate.
Qed.

Lemma leaf_path_nonempty (n : node) (p : list node) :
  leaf_path n p -> p <> [].
Proof. intros H; inversion H; discriminate. Qed.

(** The shape of a path: it starts at the node it is collected from, its
    nodes are valid elements, and its last node is a leaf. *)
Lemma leaf_path_shape (n : node) (p : list node) :
  leaf_path n p ->
  hd_error p = Some n
  /\ forallb _is_valid_node p = true
  /\ _is_leaf (last p n) = true
  /\ forallb (fun m => negb (_is_leaf m)) (removelast p) = true.
Proof.
  induction 1 as [n Hv Hl | n c p Hv Hl Hc Hp [IH1 [IH2 [IH3 IH4]]]].
  - cbn. rewrite Hv, Hl. auto.
  - split; [reflexivity |]. split; [cbn; rewrite Hv; exact IH2 |].
    pose proof (leaf_path_nonempty c p Hp) as Hne.
    split.
    + rewrite (last_cons_nonempty n p n c Hne). exact IH3.
    + destruct p as [| x r]; [congruence |].
      change (removelast (n :: x :: r)) with (n :: removelast (x :: r)).
      cbn [forallb]. rewrite Hl, IH4. reflexivity.
Qed.

(** X2.  [collect_paths] adds to the paths of the analyzer exactly the
    paths that run from the root (the [body] element, or the document
    without one) child by child through valid elements that are not leaves
    down to the first leaf.  Such a path starts at the root, holds no
    element of [NON_STYLABLE_TAGS], and only its last node is a leaf. *)
Theorem X2_collect_paths_collects_the_leaf_paths :
  (forall (self : DOMAnalyzer) (p : list node),
      In p (paths (collect_paths self))
      <-> In p (paths self) \/ leaf_path (analysis_root (soup self)) p)
  /\ (forall (n : node) (p : list node),
         leaf_path n p ->
         hd_error p = Some n
         /\ forallb _is_valid_node p = true
         /\ _is_leaf (last p n) = true
         /\ forallb (fun m => negb (_is_leaf m)) (removelast p) = true).
Proof.
  split; [exact collect_paths_spec | exact leaf_path_shape].
Qed.

(** ** One record for each path *)

Lemma non_leaf_has_no_text (n : node) :
  _is_leaf n = false -> _get_node_text n = EmptyString.
Proof.
  destruct n as [nm a cs | k s]; [| reflexivity].
  unfold _is_leaf. intros H. apply orb_false_elim in H. destruct H as [H _].
  unfold _get_node_text. cbn [children].
  assert (Hnone : flat_map
                    (fun child =>
                       match child with
                       | Str Comment _ | Str Declaration _ => []
                       | Str _ s => if non_blank s then [strip s] else []
                       | Tag _ _ _ => []
                       end) cs = []).
  { induction cs as [| c r IH]; [reflexivity |]. cbn [existsb] in H.
    apply orb_false_elim in H. destruct H as [Hc Hr].
    cbn [flat_map]. rewrite (IH Hr), app_nil_r.
    destruct c as [nm' a' cs' | k s]; [reflexivity |].
    rewrite Hc. destruct k; reflexivity. }
  rewrite Hnone. reflexivity.
Qed.

Section Records.

Variable offset_order : list string.
Variable float_pow : float -> float -> float.
Variable name_to_rgb : string -> option (Z * Z * Z).

Lemma anchor_record (n : node) (inherited : style) (r : record) :
  _process_anchor_tag offset_order float_pow name_to_rgb n inherited = Ok (Some r) ->
  r_type r = link_record.
Proof.
  unfold _process_anchor_tag. destruct (_get_link_text n); [discriminate |].
  intros H. bind_inv H as link_style Hstyle.
  bind_inv H as [visible reasons] Hcheck. injection H as <-. reflexivity.
Qed.

(** Along a path, only its last node can produce a text record. *)
Lemma walk_path_one_record (n : node) (p : list node) :
  leaf_path n p ->
  forall inherited results file_visible results' file_visible',
    walk_path offset_order float_pow name_to_rgb p inherited results file_visible
    = Ok (results', file_visible') ->
    exists new,
      results' = results ++ new /\ at_most_the_leaf_record (last p n) new.
Proof.
  assert (Hlink : forall m inherited results (file_visible : bool)
                          results' (fv' : bool),
             (link_result <- _process_anchor_tag offset_order float_pow name_to_rgb m
                               inherited ;;
              Ok (match link_result with
                  | Some r => results ++ [r]
                  | None => results
                  end, file_visible)) = Ok (results', fv') ->
             forall leaf, exists new,
               results' = results ++ new /\ at_most_the_leaf_record leaf new).
  { intros m inherited results file_visible results' fv' H leaf.
    bind_inv H as link_result Hlink. injection H as <- _.
    destruct link_result as [r |].
    - exists [r]. split; [reflexivity |]. right. exists r.
      split; [reflexivity |]. left. eapply anchor_record; eassumption.
    - exists []. rewrite app_nil_r. split; [reflexivity | left; reflexivity]. }
  induction 1 as [n Hv Hl | n c p Hv Hl Hc Hp IH];
    intros inherited results file_visible results' file_visible' H;
    cbn [walk_path] in H.
  - destruct (has_name "a" n); [eapply Hlink; exact H |].
    bind_inv H as current_style Hstyle.
    bind_inv H as [results1 file_visible1] Hrecord.
    injection H as <- <-. cbn [last].
    destruct (_get_node_text n) eqn:Htext.
    + injection Hrecord as <- _. exists []. rewrite app_nil_r.
      split; [reflexivity | left; reflexivity].
    + bind_inv Hrecord as [visible reasons] Hcheck.
      injection Hrecord as <- _. eexists. split; [reflexivity |].
      right. eexists. split; [reflexivity |]. right. cbn.
      rewrite Htext. auto.
  - destruct (has_name "a" n); [eapply Hlink; exact H |].
    bind_inv H as current_style Hstyle.
    bind_inv H as [results1 file_visible1] Hrecord.
    rewrite (non_leaf_has_no_text n Hl) in Hrecord.
    injection Hrecord as <- <-.
    rewrite (last_cons_nonempty n p n c (leaf_path_nonempty c p Hp)).
    eapply IH. exact H.
Qed.

Lemma at_most_one (leaf : node) (new : list record) :
  at_most_the_leaf_record leaf new -> (List.length new <= 1)%nat.
Proof. intros [-> | [r [-> _]]]; cbn; lia. Qed.

Lemma walk_paths_count (paths : list (list node)) :
  Forall (fun p => exists n, leaf_path n p) paths ->
  forall results file_visible results' file_visible',
    walk_paths offset_order float_pow name_to_rgb paths results file_visible
    = Ok (results', file_visible') ->
    (List.length results' <= List.length results + List.length paths)%nat.
Proof.
  induction 1 as [| p rest [n Hp] _ IH];
    intros results file_visible results' file_visible' H.
  - injection H as <- _. cbn. lia.
  - cbn [walk_paths] in H. bind_inv H as [results1 file_visible1] Hpath.
    apply (walk_path_one_record n p Hp) in Hpath.
    destruct Hpath as [new [-> Hnew]]. apply at_most_one in Hnew.
    apply IH in H. rewrite length_app in H. cbn [List.length]. lia.
Qed.

End Records.

(** X3.  A path yields at most one record.  Walking a collected path
    appends nothing, or a single record: a link record, or the text record
    of the last node of the path, since the nodes before it are not leaves
    and have no text of their own.  The records of the paths of a document
    are therefore no more than its paths. *)
Theorem X3_each_path_yields_at_most_one_record :
  forall (offset_order : list string)
         (float_pow : float -> float -> float)
         (names : string -> option (Z * Z * Z)),
    (forall n : node, _is_leaf n = false -> _get_node_text n = EmptyString)
    /\ (forall (n : node) (p : list node) inherited results file_visible
               results' file_visible',
           leaf_path n p ->
           walk_path offset_order float_pow names p inherited results file_visible
           = Ok (results', file_visible') ->
           exists new,
             results' = results ++ new
             /\ at_most_the_leaf_record (last p n) new)
    /\ (forall (soup : node) results file_visible,
           walk_paths offset_order float_pow names
             (paths (collect_paths (mkAnalyzer soup []))) [] true
           = Ok (results, file_visible) ->
           (List.length results
            <= List.length (paths (collect_paths (mkAnalyzer soup []))))%nat).
Proof.
  intros offset_order float_pow names. split; [exact non_leaf_has_no_text |]. split.
  - intros n p inherited results file_visible results' file_visible' Hp H.
    eapply walk_path_one_record; eassumption.
  - intros soup results file_visible H.
    apply walk_paths_count in H; [exact H |].
    apply Forall_forall. intros p Hp.
    apply collect_paths_spec in Hp. destruct Hp as [[] | Hp].
    eexists; exact Hp.
Qed.

(** ** The marks of a record *)

Section Marks.

Variable offset_order : list string.
Variable float_pow : float -> float -> float.
Variable name_to_rgb : string -> option (Z * Z * Z).

(** The classifier answers [visible] exactly when it lists no reason. *)
Lemma check_visibility_flag (st : style) (visible : bool)
  (reasons : list reason) :
  _check_visibility offset_order float_pow name_to_rgb st = Ok (visible, reasons) ->
  visible = match reasons with [] => true | _ => false end.
Proof.
  intros H. unfold _check_visibility in H. cbv zeta in H.
  bind_inv H as opacity Hopacity.
  bind_inv H as reasons1 Hreasons1.
  bind_inv H as color Hcolor.
  bind_inv H as blended Hblend.
  bind_inv H as contrast Hcontrast.
  bind_inv H as offset Hoffset.
  bind_inv H as clipped Hclipped.
  bind_inv H as font_size Hfont.
  bind_inv H as px Hpx.
  bind_inv H as filtered Hfiltered.
  injection H as <- <-. reflexivity.
Qed.

Lemma marks_agree (visible : bool) (reasons : list reason) :
  visible = match reasons with [] => true | _ => false end ->
  Bool.eqb visible
    (match (if negb visible then reasons else []) with
     | [] => true
     | _ => false
     end) = true.
Proof. intros ->. destruct reasons; reflexivity. Qed.

Lemma walk_path_consistent (path : list node) :
  forall inherited results file_visible results' file_visible',
    forallb record_consistent results = true ->
    walk_path offset_order float_pow name_to_rgb path inherited results file_visible
    = Ok (results', file_visible') ->
    forallb record_consistent results' = true.
Proof.
  induction path as [| n rest IH];
    intros inherited results file_visible results' file_visible' Hres H.
  - injection H as <- _. exact Hres.
  - cbn [walk_path] in H. destruct (has_name "a" n).
    + bind_inv H as link_result Hlink. injection H as <- _.
      destruct link_result as [r |]; [| exact Hres].
      rewrite forallb_app, Hres. cbn [forallb andb]. rewrite andb_true_r.
      unfold _process_anchor_tag in Hlink.
      destruct (_get_link_text n); [discriminate |].
      bind_inv Hlink as link_style Hstyle.
      bind_inv Hlink as [visible reasons] Hcheck.
      injection Hlink as <-. apply check_visibility_flag in Hcheck.
      unfold record_consistent. cbn. apply marks_agree. exact Hcheck.
    + bind_inv H as current_style Hstyle.
      bind_inv H as [results1 file_visible1] Hrecord.
      eapply IH; [| exact H].
      destruct (_get_node_text n).
      * injection Hrecord as <- _. exact Hres.
      * bind_inv Hrecord as [visible reasons] Hcheck.
        injection Hrecord as <- _. apply check_visibility_flag in Hcheck.
        rewrite forallb_app, Hres. cbn [forallb andb]. rewrite andb_true_r.
        unfold record_consistent. cbn. apply marks_agree. exact Hcheck.
Qed.

Lemma walk_paths_consistent (paths : list (list node)) :
  forall results file_visible results' file_visible',
    forallb record_consistent results = true ->
    walk_paths offset_order float_pow name_to_rgb paths results file_visible
    = Ok (results', file_visible') ->
    forallb record_consistent results' = true.
Proof.
  induction paths as [| path rest IH];
    intros results file_visible results' file_visible' Hres H.
  - injection H as <- _. exact Hres.
  - cbn [walk_paths] in H. bind_inv H as [results1 file_visible1] Hpath.
    eapply IH; [| exact H]. eapply walk_path_consistent; eassumption.
Qed.

Variable BeautifulSoup : string -> node.
Variable to_markup : node -> string.

Lemma as_conditional_consistent (elements : list record) :
  forallb record_consistent (map as_conditional elements) = true.
Proof. induction elements as [| e r IH]; [reflexivity | exact IH]. Qed.

Lemma process_comments_consistent analyze (self : DOMAnalyzer)
  (extra : list record) :
  _process_comments BeautifulSoup to_markup analyze self = Ok extra ->
  forallb record_consistent extra = true.
Proof.
  rewrite process_comments_fold. generalize (comments (soup self)).
  assert (Hinit : forall rs0, @Ok (list record) [] = Ok rs0 ->
                              forallb record_consistent rs0 = true)
    by (intros rs0 E; injection E as <-; reflexivity).
  revert Hinit. generalize (@Ok (list record) []).
  intros acc Hacc l. revert acc Hacc extra.
  induction l as [| [comment parent] r IH]; intros acc Hacc extra H.
  - apply Hacc. exact H.
  - cbn [fold_left] in H. eapply IH; [| exact H].
    intros rs Hrs. unfold comment_step in Hrs.
    bind_inv Hrs as results Hresults. specialize (Hacc results Hresults).
    destruct (startswith "[cond:" (strip comment)).
    + destruct (has_name "div" parent
                && mem "conditional-container" (get_class parent)).
      * bind_inv Hrs as [elements fv] Hsub. injection Hrs as <-.
        rewrite forallb_app, Hacc. apply as_conditional_consistent.
      * injection Hrs as <-. exact Hacc.
    + injection Hrs as <-. rewrite forallb_app, Hacc. reflexivity.
Qed.

Lemma analyze_paths_consistent (depth : nat) (self : DOMAnalyzer)
  (results : list record) (file_visible : bool) :
  analyze_paths offset_order float_pow name_to_rgb BeautifulSoup to_markup depth self
  = Ok (results, file_visible) ->
  forallb record_consistent results = true.
Proof.
  intros H.
  assert (Hstep : exists analyze,
             ('(results, file_visible) <-
                walk_paths offset_order float_pow name_to_rgb (paths self) [] true ;;
              extra <- _process_comments BeautifulSoup to_markup analyze self ;;
              Ok (results ++ extra, file_visible))
             = Ok (results, file_visible)).
  { destruct depth; cbn [analyze_paths] in H; eexists; exact H. }
  clear H. destruct Hstep as [analyze H].
  bind_inv H as [results1 file_visible1] Hwalk.
  bind_inv H as extra Hextra. injection H as <- _.
  rewrite forallb_app.
  rewrite (walk_paths_consistent (paths self) [] true results1 file_visible1
             eq_refl Hwalk).
  exact (process_comments_consistent _ _ _ Hextra).
Qed.

End Marks.

(** X4.  The marks of every record of an analysis agree: a text or link
    record carries its list of reasons and is marked visible exactly when
    the list is empty; a comment record, of either type, is marked not
    visible. *)
Theorem X4_record_marks_agree :
  forall (offset_order : list string)
         (float_pow : float -> float -> float)
         (names : string -> option (Z * Z * Z))
         (BeautifulSoup : string -> node) (to_markup : node -> string)
         (depth : nat) (self : DOMAnalyzer)
         (results : list record) (file_visible : bool),
    analyze_paths offset_order float_pow names BeautifulSoup to_markup depth self
    = Ok (results, file_visible) ->
    forallb record_consistent results = true.
Proof.
  intros offset_order float_pow names BeautifulSoup to_markup depth self results
    file_visible H.
  eapply analyze_paths_consistent. exact H.
Qed.

(** ** The reasons of the classifier *)

Section Reasons.

Variable offset_order : list string.
Variable float_pow : float -> float -> float.
Variable name_to_rgb : string -> option (Z * Z * Z).

Lemma in_contrast_snoc (same low : bool) (l : list reason) (c : float)
  (x : reason) :
  In x (if same then l ++ [SameColor]
        else if low then l ++ [LowContrast c] else l)
  <-> In x l \/ (same = true /\ SameColor = x)
      \/ (same = false /\ low = true /\ LowContrast c = x).
Proof.
  destruct same, low; rewrite ?in_app_iff; cbn; intuition congruence.
Qed.

(** Every reason of the result comes from the check that gives it. *)
Lemma check_visibility_members (st : style) (visible : bool)
  (reasons : list reason) :
  _check_visibility offset_order float_pow name_to_rgb st = Ok (visible, reasons) ->
  exists opacity same low contrast offset clipped px filtered,
    py_float (opacity_value st) = Ok opacity
    /\ _check_position_offset offset_order st = Ok offset
    /\ _check_clipping st = Ok clipped
    /\ _parse_length (font_size_value st) = Ok (Some px)
    /\ _check_filter st = Ok filtered
    /\ forall x,
        In x reasons
        <-> (hidden_visibility st = true /\ Visibility = x)
            \/ (is_str "none" (dget "display" st) = true /\ DisplayNone = x)
            \/ (PrimFloat.leb opacity 0.01 = true
                /\ exists shown, dget "opacity" st = Some shown
                                 /\ Opacity shown = x)
            \/ (same = true /\ SameColor = x)
            \/ (same = false /\ low = true /\ LowContrast contrast = x)
            \/ (offset = true /\ PositionOffset = x)
            \/ (clipped = true /\ Clipping = x)
            \/ (PrimFloat.ltb px 3 = true /\ FontTooSmall px = x)
            \/ (filtered = true /\ FilterEffect = x).
Proof.
  intros H. unfold _check_visibility in H. cbv zeta in H.
  bind_inv H as opacity Hopacity.
  bind_inv H as reasons1 Hreasons1.
  bind_inv H as color Hcolor.
  bind_inv H as blended Hblend.
  bind_inv H as contrast Hcontrast.
  bind_inv H as offset Hoffset.
  bind_inv H as clipped Hclipped.
  bind_inv H as font_size Hfont.
  bind_inv H as px Hpx.
  bind_inv H as filtered Hfiltered.
  injection H as _ <-.
  destruct font_size as [px' |]; [| discriminate]. injection Hpx as ->.
  exists opacity,
    (color_eqb (_parse_color name_to_rgb color "fg")
       (_parse_color name_to_rgb (color_val blended) "fg")),
    (PrimFloat.ltb contrast 1.05), contrast, offset, clipped, px, filtered.
  repeat (split; [eassumption |]).
  intros x.
  rewrite !in_if_snoc, in_contrast_snoc.
  assert (H1 : In x reasons1
               <-> (hidden_visibility st = true /\ Visibility = x)
                   \/ (is_str "none" (dget "display" st) = true
                       /\ DisplayNone = x)
                   \/ (PrimFloat.leb opacity 0.01 = true
                       /\ exists shown, dget "opacity" st = Some shown
                                        /\ Opacity shown = x)).
  { fold (hidden_visibility st) in Hreasons1.
    assert (H0 : In x (if hidden_visibility st then [Visibility] else [])
                 <-> hidden_visibility st = true /\ Visibility = x).
    { destruct (hidden_visibility st); cbn; intuition congruence. }
    destruct (PrimFloat.leb opacity 0.01).
    - bind_inv Hreasons1 as shown Hshown. injection Hreasons1 as <-.
      destruct (dget "opacity" st) as [v |]; [| discriminate].
      injection Hshown as ->.
      rewrite in_app_iff, !in_if_snoc, H0. cbn [In].
      split.
      + intros [[H | H] | [H | []]]; [tauto | tauto |].
        right. right. split; [reflexivity |]. exists shown. auto.
      + intros [H | [H | [_ [v [Hv H]]]]]; [tauto | tauto |].
        injection Hv as <-. tauto.
    - injection Hreasons1 as <-. rewrite !in_if_snoc, H0.
      split.
      + intros [H | H]; tauto.
      + intros [H | [H | [H _]]]; [tauto | tauto | discriminate]. }
  rewrite H1. tauto.
Qed.

End Reasons.

(** X5.  Whenever the classifier returns, it answers [visible] exactly
    when it lists no reason, and each reason outside the contrast check is
    listed exactly when its own check fires: [visibility] for the values
    [hidden] and [collapse], [display:none] for the value [none], the
    opacity (with the stored value) when its [float] is at most [0.01],
    [position_offset], [clipping] and [filter_effect] when the three
    checks answer true (the first of them in the order in which the run
    visits the offsets), and the font size when the parsed length is below
    [3]. *)
Theorem X5_each_reason_reports_its_check :
  forall (offset_order : list string)
         (float_pow : float -> float -> float)
         (names : string -> option (Z * Z * Z))
         (st : style) (visible : bool) (reasons : list reason),
    _check_visibility offset_order float_pow names st = Ok (visible, reasons) ->
    (visible = true <-> reasons = [])
    /\ (In Visibility reasons <-> hidden_visibility st = true)
    /\ (In DisplayNone reasons
        <-> is_str "none" (dget "display" st) = true)
    /\ (forall shown,
           In (Opacity shown) reasons
           <-> dget "opacity" st = Some shown
               /\ exists o, py_float shown = Ok o
                            /\ PrimFloat.leb o 0.01 = true)
    /\ (In PositionOffset reasons
        <-> _check_position_offset offset_order st = Ok true)
    /\ (In Clipping reasons <-> _check_clipping st = Ok true)
    /\ (forall px,
           In (FontTooSmall px) reasons
           <-> _parse_length (font_size_value st) = Ok (Some px)
               /\ PrimFloat.ltb px 3 = true)
    /\ (In FilterEffect reasons <-> _check_filter st = Ok true).
Proof.
  intros offset_order float_pow names st visible reasons H.
  split.
  { rewrite (check_visibility_flag offset_order float_pow names st visible
               reasons H).
    destruct reasons; split; intros E; try reflexivity; discriminate. }
  destruct (check_visibility_members offset_order float_pow names st
              visible reasons H)
    as [opacity [same [low [contrast [offset [clipped [px [filtered
         [Hopacity [Hoffset [Hclipped [Hfont [Hfiltered Hin]]]]]]]]]]]]].
  assert (Hopacity' := Hopacity). unfold opacity_value in Hopacity'.
  split; [| split; [| split; [| split; [| split; [| split]]]]];
    try intros x0; rewrite Hin;
    (split; [intros Hx; decompose [or and ex] Hx; clear Hx; try discriminate |]).
  - assumption.
  - tauto.
  - assumption.
  - tauto.
  - match goal with E : Opacity _ = Opacity _ |- _ => injection E as <- end.
    split; [assumption |].
    match goal with E : dget "opacity" st = Some _ |- _ =>
      rewrite E in Hopacity' end.
    exists opacity. auto.
  - intros [Hv [o [Ho Hle]]]. right. right. left.
    rewrite Hv, Ho in Hopacity'. injection Hopacity' as <-.
    split; [exact Hle |]. exists x0. auto.
  - subst offset. exact Hoffset.
  - intros E. rewrite Hoffset in E. injection E as ->. tauto.
  - subst clipped. exact Hclipped.
  - intros E. rewrite Hclipped in E. injection E as ->. tauto.
  - match goal with E : FontTooSmall _ = FontTooSmall _ |- _ =>
      injection E as <- end. auto.
  - intros [E Hlt]. rewrite Hfont in E. injection E as <-. tauto.
  - subst filtered. exact Hfiltered.
  - intros E. rewrite Hfiltered in E. injection E as ->. tauto.
Qed.

(** ** What a node inherits *)

Lemma dget_inheritable_none (k : string) (st : style) :
  mem k INHERITABLE_PROPS = false -> dget k (inheritable st) = None.
Proof.
  intros Hk. unfold inheritable.
  induction st as [| [k' v'] r IH]; [reflexivity |]. cbn [filter fst].
  destruct (mem k' INHERITABLE_PROPS) eqn:E; [| exact IH].
  cbn [dget]. destruct (String.eqb k k') eqn:Ek; [| exact IH].
  apply String.eqb_eq in Ek. congruence.
Qed.

Section Cascade.

Variable name_to_rgb : string -> option (Z * Z * Z).
Variable k : string.
Hypothesis k_not_written : mem k attribute_keys = false.

Lemma k_differs (k' : string) :
  mem k' attribute_keys = true -> String.eqb k k' = false.
Proof.
  intros H. destruct (String.eqb k k') eqn:E; [| reflexivity].
  apply String.eqb_eq in E. congruence.
Qed.

Lemma dget_set_color (value : string) (state : style * string) :
  dget k (fst (set_color name_to_rgb value state)) = dget k (fst state).
Proof.
  destruct state as [st o]. cbn. apply dget_dset_other.
  apply k_differs. reflexivity.
Qed.

Lemma font_attributes_keeps (n : node) (state state' : style * string) :
  font_attributes name_to_rgb n state = Ok state' ->
  dget k (fst state') = dget k (fst state).
Proof.
  intros H. unfold font_attributes in H.
  destruct (has_name "font" n); [| injection H as <-; reflexivity].
  set (state1 := match dget "color" (lower_attrs n) with
                 | Some v => set_color name_to_rgb v state
                 | None => state
                 end) in *.
  assert (H1 : dget k (fst state1) = dget k (fst state)).
  { unfold state1. destruct (dget "color" (lower_attrs n));
      [apply dget_set_color | reflexivity]. }
  destruct (dget "size" (lower_attrs n)); [| injection H as <-; exact H1].
  bind_inv H as fs Hfs. injection H as <-. cbn [fst].
  rewrite dget_dset_other by (apply k_differs; reflexivity). exact H1.
Qed.

Lemma table_attributes_keeps (n : node) (state state' : style * string) :
  table_attributes name_to_rgb n state = Ok state' ->
  dget k (fst state') = dget k (fst state).
Proof.
  intros H. unfold table_attributes in H.
  destruct (existsb (fun t => has_name t n) _);
    [| injection H as <-; reflexivity].
  bind_inv H as state1 H1.
  assert (R1 : dget k (fst state1) = dget k (fst state)).
  { destruct (dget "bgcolor" (lower_attrs n));
      [| injection H1 as <-; reflexivity].
    destruct (dget "background-color" (fst state)).
    - bind_inv H1 as new_bg Hblend. injection H1 as <-. cbn [fst].
      apply dget_dset_other. apply k_differs. reflexivity.
    - injection H1 as <-. cbn [fst].
      apply dget_dset_other. apply k_differs. reflexivity. }
  injection H as <-. rewrite <- R1.
  repeat match goal with
         | |- context [match dget ?key (lower_attrs n) with _ => _ end] =>
             destruct (dget key (lower_attrs n))
         end;
    cbn [fst];
    repeat first [ rewrite dget_dset_other by (apply k_differs; reflexivity)
                 | rewrite dget_set_color ];
    reflexivity.
Qed.

Lemma inline_declaration_keeps (decl : string * string)
  (state state' : style * string) :
  inline_declaration name_to_rgb decl state = Ok state' ->
  lower (fst decl) <> k ->
  dget k (fst state') = dget k (fst state).
Proof.
  intros H Hk. destruct decl as [prop value]. cbn [fst] in Hk.
  unfold inline_declaration in H.
  destruct (String.eqb (lower prop) "background-color"
            || String.eqb (lower prop) "bgcolor").
  { injection H as <-. cbn [fst]. apply dget_dset_other.
    apply k_differs. reflexivity. }
  destruct (String.eqb (lower prop) "color").
  { injection H as <-. apply dget_set_color. }
  destruct (String.eqb (lower prop) "font-size").
  { bind_inv H as fs Hfs. injection H as <-. cbn [fst].
    apply dget_dset_other. apply String.eqb_neq. congruence. }
  destruct (String.eqb (lower prop) "opacity").
  { injection H as <-. reflexivity. }
  injection H as <-. cbn [fst]. apply dget_dset_other.
  apply String.eqb_neq. congruence.
Qed.

Lemma inline_declarations_keep (decls : list (string * string)) :
  forall state state',
    inline_declarations name_to_rgb decls state = Ok state' ->
    ~ In k (map (fun d => lower (fst d)) decls) ->
    dget k (fst state') = dget k (fst state).
Proof.
  induction decls as [| d r IH]; intros state state' H Hk.
  - injection H as <-. reflexivity.
  - cbn [inline_declarations] in H. bind_inv H as state1 H1.
    cbn [map In] in Hk.
    rewrite (IH state1 state' H) by tauto.
    eapply inline_declaration_keeps; [exact H1 | tauto].
Qed.

(** A key that no attribute writes and that the inline style of the node
    does not declare is in the resolved style as it is in the inherited
    one. *)
Lemma parse_node_style_keeps (n : node) (inherited st : style) :
  _parse_node_style name_to_rgb n inherited = Ok st ->
  ~ In k (declared n) ->
  dget k st = dget k inherited.
Proof.
  intros H Hk. unfold _parse_node_style in H.
  destruct n as [nm a cs | kd s]; [| discriminate].
  bind_inv H as state1 H1. bind_inv H as state2 H2. bind_inv H as state3 H3.
  injection H as <-.
  rewrite dget_dset_other by (apply k_differs; reflexivity).
  apply font_attributes_keeps in H1. apply table_attributes_keeps in H2.
  cbn [fst] in H1. rewrite <- H1, <- H2.
  unfold declared in Hk.
  destruct (dget "style" (attrs (Tag nm a cs))) as [text |].
  - eapply inline_declarations_keep; eassumption.
  - injection H3 as <-. reflexivity.
Qed.

End Cascade.

(** X6.  A property reaches a node from its ancestors only if it is one
    of [INHERITABLE_PROPS].  A key outside that set, and other than
    [text-align] and [width] which the attributes of the node can write,
    is in the resolved style of a node only when the node's own [style]
    attribute declares it: [display], [filter], [clip] or an offset set on
    an ancestor is never part of the style of a descendant. *)
Theorem X6_only_inheritable_properties_are_inherited :
  forall (names : string -> option (Z * Z * Z)) (k : string) (n : node)
         (parent_style st : style) (v : pyval),
    mem k INHERITABLE_PROPS = false ->
    mem k [ "text-align"; "width" ]%string = false ->
    _parse_node_style names n (inheritable parent_style) = Ok st ->
    dget k st = Some v ->
    In k (declared n).
Proof.
  intros names k n parent_style st v Hinh Hattr Hst Hv.
  destruct (in_dec string_dec k (declared n)) as [Hin | Hout]; [exact Hin |].
  exfalso.
  assert (Hk : mem k attribute_keys = false).
  { cbn in Hinh, Hattr |- *.
    repeat (apply orb_false_elim in Hinh; destruct Hinh as [? Hinh]).
    repeat (apply orb_false_elim in Hattr; destruct Hattr as [? Hattr]).
    repeat match goal with E : String.eqb _ _ = false |- _ =>
             rewrite E; clear E end.
    reflexivity. }
  rewrite (parse_node_style_keeps names k Hk n _ st Hst Hout) in Hv.
  rewrite (dget_inheritable_none k parent_style Hinh) in Hv. discriminate.
Qed.

(** ** Strings *)

Lemma str_app_assoc (a b c : string) : ((a ++ b) ++ c = a ++ (b ++ c))%string.
Proof. induction a as [| x a IH]; cbn; [reflexivity | rewrite IH; reflexivity]. Qed.


Lemma str_length_app (a b : string) :
  String.length (a ++ b) = (String.length a + String.length b)%nat.
Proof. induction a as [| x a IH]; cbn; [reflexivity | rewrite IH; reflexivity]. Qed.

Lemma prefix_split (p s : string) :
  String.prefix p s = true -> exists r, s = (p ++ r)%string.
Proof.
  revert s. induction p as [| c p IH]; intros s H.
  - exists s. reflexivity.
  - destruct s as [| d s]; [discriminate |]. cbn in H.
    destruct (ascii_dec c d) as [<- |]; [| discriminate].
    destruct (IH s H) as [r ->]. exists r. reflexivity.
Qed.

Lemma rev_onto_app (s acc : string) :
  rev_onto s acc = (rev s ++ acc)%string.
Proof.
  unfold rev. revert acc. induction s as [| c s IH]; intros acc; [reflexivity |].
  cbn [rev_onto]. rewrite (IH (String c EmptyString)), IH, str_app_assoc.
  reflexivity.
Qed.

Lemma rev_cons (c : ascii) (s : string) :
  rev (String c s) = (rev s ++ String c EmptyString)%string.
Proof. unfold rev at 1. cbn [rev_onto]. apply rev_onto_app. Qed.

Lemma rev_snoc (s : string) (c : ascii) :
  rev (s ++ String c EmptyString) = String c (rev s).
Proof.
  induction s as [| d s IH]; [reflexivity |].
  cbn [append]. rewrite !rev_cons, IH. reflexivity.
Qed.

Lemma lstrip_by_snoc (p : ascii -> bool) (w : string) (c : ascii) :
  p c = false ->
  lstrip_by p (w ++ String c EmptyString)
  = (lstrip_by p w ++ String c EmptyString)%string.
Proof.
  intros Hc. induction w as [| d w IH]; cbn; [rewrite Hc; reflexivity |].
  destruct (p d); [exact IH | reflexivity].
Qed.

(** Stripping keeps a first character that is not stripped. *)
Lemma rstrip_by_head (p : ascii -> bool) (c : ascii) (u : string) :
  p c = false -> rstrip_by p (String c u) = String c (rstrip_by p u).
Proof.
  intros Hc. unfold rstrip_by.
  rewrite rev_cons, (lstrip_by_snoc p _ c Hc), rev_snoc. reflexivity.
Qed.

Lemma strip_by_head (p : ascii -> bool) (c : ascii) (u : string) :
  p c = false -> strip_by p (String c u) = String c (rstrip_by p u).
Proof.
  intros Hc. unfold strip_by. cbn [lstrip_by]. rewrite Hc.
  apply rstrip_by_head. exact Hc.
Qed.

(** ** The [opacity()] filter *)

(** No text that starts with an opening parenthesis reads as a number. *)
Lemma float_of_parenthesis (w : string) :
  PyFloat.of_string (String "(" w) = None.
Proof.
  unfold PyFloat.of_string.
  rewrite (strip_by_head PyFloat.is_float_space "(" w eq_refl).
  cbn [PyFloat.split_sign lower]. 
  replace (lower_char "(") with "("%char by reflexivity.
  cbn [String.eqb Ascii.eqb Bool.eqb orb].
  destruct (PyFloat.underscores_ok false _); reflexivity.
Qed.

Lemma float_of_stripped_parenthesis (u : string) :
  u = EmptyString \/ (exists w, u = String "(" w) ->
  py_float (VStr (strip_char "%" u)) = Raise ValueError.
Proof.
  intros [-> | [w ->]]; [reflexivity |].
  unfold strip_char. rewrite (strip_by_head _ "(" w eq_refl).
  cbn [py_float]. rewrite float_of_parenthesis. reflexivity.
Qed.

Lemma hiding_filter_opacity (s : string) :
  startswith "opacity(" (lower s) = true ->
  _is_hiding_filter s = Raise ValueError.
Proof.
  intros H. unfold _is_hiding_filter. rewrite H.
  apply prefix_split in H. destruct H as [r ->].
  rewrite float_of_stripped_parenthesis; [reflexivity |].
  unfold slice_to_last. cbn [append String.length drop Nat.sub].
  destruct r as [| c r]; [left; reflexivity |].
  right. cbn. eexists. reflexivity.
Qed.

(** X7.  A filter function that starts with [opacity(] cannot be
    evaluated: the slice [filter_func[7:-1]] keeps the opening parenthesis,
    and [float] rejects it with a [ValueError].  A [filter] declaration
    whose first function is an [opacity()] therefore makes [_check_filter]
    raise. *)
Theorem X7_opacity_filter_raises :
  forall s : string,
    startswith "opacity(" (lower s) = true ->
    _is_hiding_filter s = Raise ValueError
    /\ (forall (st : style) (text : string) (rest : list string),
           dget "filter" st = Some (VStr text) ->
           split_ws text = s :: rest ->
           _check_filter st = Raise ValueError).
Proof.
  intros s H. pose proof (hiding_filter_opacity s H) as Hs.
  split; [exact Hs |].
  intros st text rest Hst Htext. unfold _check_filter.
  rewrite Hst, Htext. cbn [anyM]. rewrite Hs. reflexivity.
Qed.

(** ** Comment records *)

Section Comments.

Variable BeautifulSoup : string -> node.
Variable to_markup : node -> string.

Lemma comment_steps analyze (l : list (string * node)) :
  forallb (fun entry => negb (merged_block entry)) l = true ->
  forall acc,
    fold_left (comment_step BeautifulSoup to_markup analyze) l (Ok acc)
    = Ok (acc ++ flat_map comment_records l).
Proof.
  induction l as [| [comment parent] r IH]; intros Hl acc.
  - cbn. rewrite app_nil_r. reflexivity.
  - cbn [forallb] in Hl. apply andb_prop in Hl. destruct Hl as [Hc Hr].
    cbn [fold_left flat_map]. unfold comment_step at 2. cbn [bind].
    unfold merged_block in Hc. unfold comment_records at 1.
    destruct (startswith "[cond:" (strip comment)).
    + cbn [andb] in Hc. apply negb_true_iff in Hc. rewrite Hc.
      rewrite (IH Hr). reflexivity.
    + rewrite (IH Hr), <- app_assoc. reflexivity.
Qed.

Lemma process_comments_plain analyze (self : DOMAnalyzer) :
  forallb (fun entry => negb (merged_block entry)) (comments (soup self))
  = true ->
  _process_comments BeautifulSoup to_markup analyze self
  = Ok (flat_map comment_records (comments (soup self))).
Proof.
  intros H. rewrite process_comments_fold.
  rewrite (comment_steps analyze _ H []). reflexivity.
Qed.

End Comments.

(** X8.  In a document that holds no merged conditional block (no comment
    that starts with [[cond:] inside a [div] of class
    [conditional-container]), [_process_comments] returns one
    [html_comment] record for each comment that does not start with
    [[cond:], in document order, with the stripped text of the comment and
    marked not visible, and drops the others.  No nested analyzer is
    built: the analysis is the same for every parser, serialiser and
    depth. *)
Theorem X8_comments_become_comment_records :
  forall self : DOMAnalyzer,
    forallb (fun entry => negb (merged_block entry)) (comments (soup self))
    = true ->
    (forall BeautifulSoup to_markup analyze,
        _process_comments BeautifulSoup to_markup analyze self
        = Ok (flat_map comment_records (comments (soup self))))
    /\ (forall offset_order float_pow names BeautifulSoup to_markup depth
               BeautifulSoup' to_markup' depth',
           analyze_paths offset_order float_pow names BeautifulSoup to_markup
             depth self
           = analyze_paths offset_order float_pow names BeautifulSoup'
               to_markup' depth' self).
Proof.
  intros self H. split.
  - intros BeautifulSoup to_markup analyze.
    apply process_comments_plain. exact H.
  - intros offset_order float_pow names BeautifulSoup to_markup depth
      BeautifulSoup' to_markup' depth'.
    destruct depth, depth'; cbn [analyze_paths];
      rewrite !process_comments_plain by exact H; reflexivity.
Qed.

(** ** Comparisons of floats *)

Lemma SFcompare_antisym (x y : spec_float) (c : comparison) :
  SFcompare x y = Some c -> SFcompare y x = Some (CompOpp c).
Proof.
  destruct x as [sx | sx | | sx mx ex], y as [sy | sy | | sy my ey];
    cbn; try discriminate;
    try (intros H; injection H as <-;
         repeat match goal with b : bool |- _ => destruct b end;
         reflexivity).
  intros H. injection H as <-. f_equal.
  rewrite (Z.compare_antisym ex ey).
  assert (Hm : Pos.compare_cont Eq mx my
               = CompOpp (Pos.compare_cont Eq my mx))
    by (rewrite Pos.compare_cont_antisym; reflexivity).
  destruct sx, sy; try reflexivity;
    destruct (ex ?= ey)%Z; cbn [CompOpp]; try reflexivity;
    rewrite Hm; destruct (Pos.compare_cont Eq my mx); reflexivity.
Qed.

Lemma float_ltb_leb (x y : float) :
  PrimFloat.ltb x y = true -> PrimFloat.leb x y = true.
Proof.
  rewrite FloatAxioms.ltb_spec, FloatAxioms.leb_spec. unfold SFltb, SFleb.
  destruct (SFcompare (Prim2SF x) (Prim2SF y)) as [[| |] |];
    try discriminate; reflexivity.
Qed.

(** Of two floats that can be compared, one is below the other or they
    are equal. *)
Lemma float_not_ltb_leb (x y z : float) :
  PrimFloat.eqb x x = true ->
  PrimFloat.ltb z y = true ->
  PrimFloat.ltb x y = false -> PrimFloat.leb y x = true.
Proof.
  rewrite !FloatAxioms.ltb_spec, FloatAxioms.leb_spec, FloatAxioms.eqb_spec.
  unfold SFltb, SFleb, SFeqb.
  intros Hx Hz Hxy.
  destruct (SFcompare (Prim2SF x) (Prim2SF y)) as [c |] eqn:E.
  - rewrite (SFcompare_antisym _ _ c E).
    destruct c; try discriminate; reflexivity.
  - exfalso.
    destruct (Prim2SF x) as [sx | sx | | sx mx ex],
             (Prim2SF y) as [sy | sy | | sy my ey],
             (Prim2SF z) as [sz | sz | | sz mz ez];
      cbn in E, Hz, Hx; discriminate.
Qed.

(** [max(0.0, min(alpha, 1.0))] is in [0, 1] whatever [alpha] is. *)
Lemma clamp_alpha_unit (a : pyval) (r : float) :
  clamp_alpha a = Ok r ->
  PrimFloat.leb 0 r = true /\ PrimFloat.leb r 1 = true.
Proof.
  destruct a as [| z | a | s | l | l | d]; try discriminate; cbn [clamp_alpha].
  - intros H. injection H as <-.
    destruct (0 <? z)%Z; split; reflexivity.
  - intros H. injection H as <-.
    destruct (PrimFloat.ltb 1 a) eqn:E1.
    + split; reflexivity.
    + destruct (PrimFloat.ltb 0 a) eqn:E0.
      * split; [apply float_ltb_leb; exact E0 |].
        apply (float_not_ltb_leb 1 a 0 eq_refl E0 E1).
      * split; reflexivity.
Qed.

Lemma clamp_gamut (x : pyval) (z : Z) :
  clamp x = Ok z -> ((0 <=? z) && (z <=? 255))%Z = true.
Proof.
  destruct x as [| v | a | s | l | l | d]; try discriminate; cbn [clamp].
  intros H. injection H as <-.
  destruct (255 <? v)%Z eqn:E1; [reflexivity |].
  destruct (0 <? v)%Z eqn:E0; [| reflexivity].
  apply Z.ltb_lt in E0. apply Z.ltb_ge in E1.
  apply andb_true_intro. split; apply Z.leb_le; lia.
Qed.

(** X9.  The tuple path clamps: every colour [_parse_color_tuple] returns
    for a tuple of [int] channels has its three channels in [0, 255] and
    its alpha in [0, 1], however large or small the components are and
    whatever the length of the tuple is. *)
Theorem X9_tuple_colors_are_clamped :
  forall (l : list pyval) (c : Color),
    _parse_color_tuple l = Ok c ->
    in_gamut c = true /\ unit_alpha c = true.
Proof.
  intros l c H. unfold _parse_color_tuple in H.
  assert (Hblack : in_gamut opaque_black = true
                   /\ unit_alpha opaque_black = true)
    by (split; reflexivity).
  destruct l as [| r [| g [| b rest]]];
    try (injection H as <-; exact Hblack).
  assert (Hcase : forall a,
             (r <- clamp r ;; g <- clamp g ;; b <- clamp b ;;
              a <- clamp_alpha a ;; Ok (mkColor (r, g, b) a)) = Ok c ->
             in_gamut c = true /\ unit_alpha c = true).
  { intros a Ha.
    bind_inv Ha as r' Hr. bind_inv Ha as g' Hg. bind_inv Ha as b' Hb.
    bind_inv Ha as a' Halpha. injection Ha as <-.
    apply clamp_gamut in Hr, Hg, Hb. apply clamp_alpha_unit in Halpha.
    unfold in_gamut, unit_alpha. cbn [rgb alpha forallb].
    rewrite Hr, Hg, Hb. destruct Halpha as [-> ->]. split; reflexivity. }
  destruct rest as [| a [| x rest]];
    [eapply Hcase; exact H | eapply Hcase; exact H |].
  injection H as <-. exact Hblack.
Qed.

(** ** Compositing an opaque colour *)

Lemma in_range (n : nat) (z : Z) :
  0 <= z < Z.of_nat n -> In z (range n).
Proof.
  intros H. unfold range. apply in_map_iff. exists (Z.to_nat z).
  split; [lia |]. apply in_seq. lia.
Qed.

(** A finite number times zero is a zero. *)
Lemma finite_times_zero (y : float) :
  PrimFloat.is_finite y = true ->
  exists s, Prim2SF (y * 0) = S754_zero s.
Proof.
  unfold PrimFloat.is_finite, PrimFloat.is_nan, PrimFloat.is_infinity.
  rewrite !FloatAxioms.eqb_spec, FloatAxioms.abs_spec, FloatAxioms.mul_spec.
  replace (Prim2SF 0) with (S754_zero false) by reflexivity.
  replace (Prim2SF infinity) with (S754_infinity false) by reflexivity.
  destruct (Prim2SF y) as [s | s | | s m e]; cbn; intros H;
    try discriminate; try (destruct s; discriminate);
    eexists; reflexivity.
Qed.

(** A product is finite only if its factors are. *)
Lemma finite_factor (x a : float) :
  PrimFloat.is_finite (x * a) = true -> PrimFloat.is_finite a = true.
Proof.
  unfold PrimFloat.is_finite, PrimFloat.is_nan, PrimFloat.is_infinity.
  rewrite !FloatAxioms.eqb_spec, !FloatAxioms.abs_spec, FloatAxioms.mul_spec.
  replace (Prim2SF infinity) with (S754_infinity false) by reflexivity.
  destruct (Prim2SF a) as [s | s | | s m e].
  - intros _. destruct s; reflexivity.
  - destruct (Prim2SF x) as [sx | sx | | sx mx ex]; cbn; intros H;
      try discriminate; destruct sx, s; discriminate.
  - destruct (Prim2SF x) as [sx | sx | | sx mx ex]; cbn; intros H;
      discriminate.
  - intros _. cbn. rewrite Z.compare_refl, Pos.compare_cont_refl.
    destruct s; reflexivity.
Qed.

(** Adding a zero to a plain number leaves it as it is. *)
Lemma plus_zero (x z : float) (s : bool) :
  plain_float x = true -> Prim2SF z = S754_zero s -> (x + z)%float = x.
Proof.
  unfold plain_float. intros Hx Hz. apply Prim2SF_inj.
  rewrite FloatAxioms.add_spec, Hz.
  destruct (Prim2SF x) as [sx | sx | | sx m e]; try discriminate.
  - destruct sx; [discriminate |]. destruct s; reflexivity.
  - reflexivity.
Qed.

Lemma opaque_channels_ok : forallb opaque_channel_ok (range 256) = true.
Proof. vm_compute. reflexivity. Qed.

Lemma opaque_channel (z zb : Z) (ab : float) :
  ((0 <=? z) && (z <=? 255))%Z = true ->
  match as_number (VInt zb) with
  | Ok x => PrimFloat.is_finite (x * ab)
  | Raise _ => false
  end = true ->
  (f <- as_number (VInt z) ;;
   b <- as_number (VInt zb) ;;
   blend_channel (f * 1 + b * ab * (1 - 1))) = Ok z.
Proof.
  intros Hz Hb.
  apply andb_prop in Hz. destruct Hz as [Hlo Hhi].
  apply Z.leb_le in Hlo, Hhi.
  pose proof (proj1 (forallb_forall _ _) opaque_channels_ok z
                (in_range 256 z ltac:(lia))) as Hok.
  unfold opaque_channel_ok in Hok.
  destruct (as_number (VInt z)) as [f |]; [| discriminate].
  destruct (as_number (VInt zb)) as [x |]; [| discriminate].
  apply andb_prop in Hok. destruct Hok as [Hplain Hread].
  cbn [bind]. change (1 - 1)%float with 0%float.
  destruct (finite_times_zero (x * ab) Hb) as [s Hs].
  rewrite (plus_zero (f * 1) (x * ab * 0) s Hplain Hs).
  destruct (blend_channel (f * 1)) as [z' |]; [| discriminate].
  apply Z.eqb_eq in Hread. congruence.
Qed.

Lemma blend_opaque names (fg bg : Color) :
  alpha fg = 1%float ->
  in_gamut fg = true ->
  premultiplied_finite bg = true ->
  _blend_colors names (color_val fg) (color_val bg) = Ok fg.
Proof.
  destruct fg as [[[r g] b] a], bg as [[[r2 g2] b2] a2].
  unfold in_gamut, premultiplied_finite. cbn [rgb alpha forallb].
  intros -> Hfg Hbg.
  repeat (apply andb_prop in Hfg; destruct Hfg as [? Hfg]).
  repeat (apply andb_prop in Hbg; destruct Hbg as [? Hbg]).
  unfold _blend_colors.
  change (alpha_of (as_mapping names (color_val (mkColor (r, g, b) 1)) "fg"))
    with (@Ok float 1%float).
  change (alpha_of (as_mapping names (color_val (mkColor (r2, g2, b2) a2)) "bg"))
    with (@Ok float a2).
  cbn [bind].
  change (PrimFloat.eqb 1 0) with false. cbv iota.
  change (channel_of (as_mapping names (color_val (mkColor (r, g, b) 1)) "fg") 0)
    with (as_number (VInt r)).
  change (channel_of (as_mapping names (color_val (mkColor (r, g, b) 1)) "fg") 1)
    with (as_number (VInt g)).
  change (channel_of (as_mapping names (color_val (mkColor (r, g, b) 1)) "fg") 2)
    with (as_number (VInt b)).
  change (channel_of (as_mapping names (color_val (mkColor (r2, g2, b2) a2)) "bg") 0)
    with (as_number (VInt r2)).
  change (channel_of (as_mapping names (color_val (mkColor (r2, g2, b2) a2)) "bg") 1)
    with (as_number (VInt g2)).
  change (channel_of (as_mapping names (color_val (mkColor (r2, g2, b2) a2)) "bg") 2)
    with (as_number (VInt b2)).
  rewrite !opaque_channel by assumption. cbn [bind].
  replace (1 + a2 * (1 - 1))%float with 1%float; [reflexivity |].
  symmetry. change (1 - 1)%float with 0%float.
  assert (Ha : PrimFloat.is_finite a2 = true).
  { destruct (as_number (VInt r2)) as [x |]; [| discriminate].
    eapply finite_factor; eassumption. }
  destruct (finite_times_zero a2 Ha) as [s Hs].
  apply (plus_zero 1 (a2 * 0) s eq_refl Hs).
Qed.

(** X10.  An opaque colour hides what lies under it: compositing a colour
    whose alpha is [1.0] and whose channels are in [0, 255] over a
    background returns that colour, provided the channels of the
    background times its alpha are finite.  In particular an opaque
    background colour is its own effective background in
    [_check_visibility], where it is composited over opaque white. *)
Theorem X10_an_opaque_colour_hides_the_background :
  forall (names : string -> option (Z * Z * Z)) (fg : Color),
    alpha fg = 1%float ->
    in_gamut fg = true ->
    (forall bg : Color,
        premultiplied_finite bg = true ->
        _blend_colors names (color_val fg) (color_val bg) = Ok fg)
    /\ _blend_colors names (color_val fg) (color_val opaque_white) = Ok fg.
Proof.
  intros names fg Ha Hg. split.
  - intros bg Hbg. apply blend_opaque; assumption.
  - apply blend_opaque; [assumption | assumption | reflexivity].
Qed.

(** ** The range of the conversion from HSL *)

Lemma digits2_pos_bound (m : positive) :
  Z.pos m < 2 ^ Z.pos (digits2_pos m).
Proof.
  induction m as [m IH | m IH |]; cbn [digits2_pos].
  - rewrite Pos2Z.inj_succ, Z.pow_succ_r by lia. lia.
  - rewrite Pos2Z.inj_succ, Z.pow_succ_r by lia. lia.
  - reflexivity.
Qed.

(** The mantissa of a float has at most 53 bits. *)
Lemma mantissa_bound (x : float) (s : bool) (m : positive) (e : Z) :
  Prim2SF x = S754_finite s m e -> Z.pos m < 2 ^ 53.
Proof.
  intros E. pose proof (FloatAxioms.Prim2SF_valid x) as V. rewrite E in V.
  unfold SpecFloat.valid_binary, bounded, canonical_mantissa, fexp in V.
  apply andb_prop in V. destruct V as [V _]. apply Z.eqb_eq in V.
  pose proof (digits2_pos_bound m) as D.
  assert (Hd : Z.pos (digits2_pos m) <= 53) by (unfold prec in V; lia).
  eapply Z.lt_le_trans; [exact D |].
  apply Z.pow_le_mono_r; lia.
Qed.

(** Rounding to the nearest integer, below a half and below 255.5. *)
Lemma div_half_even_zero (n d : Z) :
  0 < n -> 2 * n <= d -> PyFloat.div_half_even n d = 0.
Proof.
  intros Hn Hd. unfold PyFloat.div_half_even.
  rewrite (Z.div_small n d), (Z.mod_small n d) by lia.
  destruct (2 * n ?= d) eqn:E; try reflexivity.
  apply Z.compare_gt_iff in E. lia.
Qed.

Lemma div_half_even_channel (n d : Z) :
  0 < n -> 0 < d -> 2 * n < 511 * d ->
  0 <= PyFloat.div_half_even n d <= 255.
Proof.
  intros Hn Hd H. unfold PyFloat.div_half_even.
  pose proof (Z.div_mod n d ltac:(lia)) as Hdm.
  pose proof (Z.mod_pos_bound n d Hd) as Hr.
  pose proof (Z.div_pos n d ltac:(lia) Hd) as Hq.
  assert (Hq' : n / d <= 255) by nia.
  destruct (2 * (n mod d) ?= d) eqn:E.
  - apply Z.compare_eq in E.
    destruct (Z.even (n / d)); [lia |].
    assert (n / d <> 255) by nia. lia.
  - lia.
  - apply Z.compare_gt_iff in E. assert (n / d <> 255) by nia. lia.
Qed.

(** The order of two finite numbers of the same sign, on their mantissas
    and exponents. *)
Lemma SFltb_positive (m m2 : positive) (e e2 : Z) :
  SFltb (S754_finite false m e) (S754_finite false m2 e2) = true ->
  e < e2 \/ (e = e2 /\ Z.pos m < Z.pos m2).
Proof.
  unfold SFltb. cbn [SFcompare].
  destruct (e ?= e2) eqn:Ec.
  - apply Z.compare_eq in Ec. intros H. right. split; [exact Ec |].
    destruct (PosDef.Pos.compare_cont Eq m m2) eqn:Em; try discriminate.
    apply Pos2Z.pos_lt_pos. apply Pos.compare_lt_iff. exact Em.
  - intros _. left. apply Z.compare_lt_iff. exact Ec.
  - discriminate.
Qed.

Lemma SFleb_negative (m m2 : positive) (e e2 : Z) :
  SFleb (S754_finite true m2 e2) (S754_finite true m e) = true ->
  e < e2 \/ (e = e2 /\ Z.pos m <= Z.pos m2).
Proof.
  unfold SFleb. cbn [SFcompare].
  destruct (e2 ?= e) eqn:Ec.
  - apply Z.compare_eq in Ec. intros H. right. split; [auto |].
    destruct (PosDef.Pos.compare_cont Eq m2 m) eqn:Em; try discriminate.
    + apply Pos.compare_eq in Em. subst m2. lia.
    + apply Pos2Z.pos_le_pos. apply Pos.lt_le_incl.
      apply Pos.compare_gt_iff. exact Em.
  - discriminate.
  - intros _. left. apply Z.compare_gt_iff in Ec. exact Ec.
Qed.

Lemma to_channel_range (x : float) :
  rounds_to_channel x = true ->
  exists z, to_channel x = Ok z /\ ((0 <=? z) && (z <=? 255))%Z = true.
Proof.
  unfold rounds_to_channel, to_channel, PyFloat.round_int, PyFloat.scaled_abs,
    PyFloat.is_negative.
  rewrite FloatAxioms.leb_spec, FloatAxioms.ltb_spec.
  replace (Prim2SF (-0.5)) with (S754_finite true 4503599627370496 (-53))
    by reflexivity.
  replace (Prim2SF 255.5) with (S754_finite false 8989607068696576 (-45))
    by reflexivity.
  intros H. apply andb_prop in H. destruct H as [Hlo Hhi].
  destruct (Prim2SF (x * 255)) as [s | s | | s m e] eqn:E.
  - exists 0. split; [destruct s; reflexivity | reflexivity].
  - destruct s; cbn in Hlo, Hhi; discriminate.
  - cbn in Hlo; discriminate.
  - pose proof (mantissa_bound _ _ _ _ E) as Hm.
    change (2 ^ 53) with 9007199254740992 in Hm.
    destruct s.
    + (* a negative number, not below -0.5 *)
      clear Hhi. apply SFleb_negative in Hlo.
      assert (He : e < 0 /\ 2 * Z.pos m <= 2 ^ (- e)).
      { destruct Hlo as [Hlo | [-> Hlo]].
        - split; [lia |].
          assert (H54 : 2 ^ 54 <= 2 ^ (- e))
            by (apply Z.pow_le_mono_r; lia).
          change (2 ^ 54) with 18014398509481984 in H54.
          clear - Hm H54. lia.
        - split; [lia |].
          change (2 ^ (- -53)) with 9007199254740992. clear - Hlo. lia. }
      destruct He as [He Hd].
      replace (0 <=? e) with false by (symmetry; apply Z.leb_gt; exact He).
      rewrite !Z.mul_1_r,
        (div_half_even_zero (Z.pos m) (2 ^ (- e)) (Pos2Z.pos_is_pos m) Hd).
      exists 0. split; reflexivity.
    + (* a positive number below 255.5 *)
      clear Hlo. apply SFltb_positive in Hhi.
      assert (He : e < 0 /\ 2 * Z.pos m < 511 * 2 ^ (- e)).
      { destruct Hhi as [Hhi | [-> Hhi]].
        - split; [lia |].
          assert (H46 : 2 ^ 46 <= 2 ^ (- e))
            by (apply Z.pow_le_mono_r; lia).
          change (2 ^ 46) with 70368744177664 in H46.
          clear - Hm H46. lia.
        - split; [lia |].
          change (2 ^ (- -45)) with 35184372088832. clear - Hhi. lia. }
      destruct He as [He Hd].
      replace (0 <=? e) with false by (symmetry; apply Z.leb_gt; exact He).
      rewrite !Z.mul_1_r.
      assert (Hpow : 0 < 2 ^ (- e)) by (apply Z.pow_pos_nonneg; lia).
      pose proof (div_half_even_channel (Z.pos m) (2 ^ (- e))
                    (Pos2Z.pos_is_pos m) Hpow Hd) as [H0 H255].
      eexists. split; [reflexivity |].
      apply andb_true_intro. split; apply Z.leb_le; assumption.
Qed.

Lemma hsl_to_rgb_floats (h s l : Z) (a : float) :
  _hsl_to_rgb h s l a
  = (hf <- as_number (VInt h) ;;
     sf <- as_number (VInt s) ;;
     lf <- as_number (VInt l) ;;
     let '(r, g, b) := hsl_floats (hf / 360.0) (sf / 100.0) (lf / 100.0) in
     r <- to_channel r ;;
     g <- to_channel g ;;
     b <- to_channel b ;;
     Ok (mkColor (r, g, b) a)).
Proof. reflexivity. Qed.

Lemma hsl_table : hsl_table_ok hue_table percent_table = true.
Proof. vm_compute. reflexivity. Qed.

Lemma in_table (n : nat) (z : Z) :
  0 <= z < Z.of_nat n ->
  In (as_number (VInt z)) (map (fun z => as_number (VInt z)) (range n)).
Proof.
  intros H. apply (in_map (fun z => as_number (VInt z))). apply in_range.
  exact H.
Qed.

Lemma hsl_checked (h s l : Z) :
  0 <= h <= 360 -> 0 <= s <= 100 -> 0 <= l <= 100 ->
  hsl_check (as_number (VInt h)) (as_number (VInt s)) (as_number (VInt l))
  = true.
Proof.
  intros Hh Hs Hl.
  assert (Hin_h : In (as_number (VInt h)) hue_table)
    by (apply in_table; lia).
  assert (Hin_s : In (as_number (VInt s)) percent_table)
    by (apply in_table; lia).
  assert (Hin_l : In (as_number (VInt l)) percent_table)
    by (apply in_table; lia).
  generalize hsl_table.
  generalize dependent hue_table. generalize dependent percent_table.
  intros percents Hin_s Hin_l hues Hin_h T. unfold hsl_table_ok in T.
  rewrite forallb_forall in T. specialize (T _ Hin_h).
  rewrite forallb_forall in T. specialize (T _ Hin_s).
  rewrite forallb_forall in T. exact (T _ Hin_l).
Qed.

Lemma hsl_in_range (h s l : Z) (a : float) :
  0 <= h <= 360 -> 0 <= s <= 100 -> 0 <= l <= 100 ->
  exists c, _hsl_to_rgb h s l a = Ok c
            /\ in_gamut c = true /\ alpha c = a.
Proof.
  intros Hh Hs Hl.
  pose proof (hsl_checked h s l Hh Hs Hl) as C. unfold hsl_check in C.
  rewrite hsl_to_rgb_floats.
  destruct (as_number (VInt h)) as [hf |]; [| discriminate].
  destruct (as_number (VInt s)) as [sf |]; [| discriminate].
  destruct (as_number (VInt l)) as [lf |]; [| discriminate].
  cbn [bind].
  destruct (hsl_floats (hf / 360.0) (sf / 100.0) (lf / 100.0)) as [[r g] b].
  apply andb_prop in C. destruct C as [C Cb].
  apply andb_prop in C. destruct C as [Cr Cg].
  destruct (to_channel_range r Cr) as [zr [-> Hr]].
  destruct (to_channel_range g Cg) as [zg [-> Hg]].
  destruct (to_channel_range b Cb) as [zb [-> Hb]].
  cbn [bind]. eexists. split; [reflexivity |].
  unfold in_gamut. cbn [rgb alpha forallb]. rewrite Hr, Hg, Hb.
  split; reflexivity.
Qed.

(** X11.  Within the ranges of CSS the conversion from HSL stays in
    range: for a hue from 0 to 360 and a saturation and a lightness from 0
    to 100, [_hsl_to_rgb] raises nothing and returns three channels in
    [0, 255], with the alpha it was given. *)
Theorem X11_hsl_in_range_gives_channels_in_range :
  forall (h s l : Z) (a : float),
    0 <= h <= 360 -> 0 <= s <= 100 -> 0 <= l <= 100 ->
    exists c, _hsl_to_rgb h s l a = Ok c
              /\ in_gamut c = true /\ alpha c = a.
Proof. exact hsl_in_range. Qed.

(** ** Colours in hexadecimal *)

Ltac run_pattern :=
  cbn [seqs times upto opt Nat.sub run m_rest m_pos m_groups
         Nat.eqb Ascii.eqb Bool.eqb or_else at_eol String.length
         Nat.ltb Nat.leb take].

(** The pattern [^#([0-9a-f]{3,8})$] matches a [#] followed by three to
    eight hexadecimal digits, and captures the digits. *)
Lemma hex_pattern_matches (w : string) :
  all_chars is_hex w = true ->
  (3 <= String.length w <= 8)%nat ->
  rmatch COLOR_HEX_RE (String "#" w)
  = Some (MState (S (String.length w)) EmptyString [(1%nat, w)]).
Proof.
  intros H L.
  destruct w as [| c1 [| c2 [| c3 [| c4 [| c5 [| c6 [| c7 [| c8 [| c9 w]]]]]]]]];
    cbn [String.length] in L; try lia; clear L;
    cbn [all_chars] in H;
    repeat (apply andb_prop in H; destruct H as [? H]); clear H;
    unfold is_hex in *;
    unfold rmatch, COLOR_HEX_RE, between, start, chr;
    run_pattern;
    repeat match goal with
           | E : match hex_val ?c with _ => _ end = true |- _ =>
               rewrite E; clear E; run_pattern
           end;
    reflexivity.
Qed.

Lemma is_hex_facts (c : ascii) :
  is_hex c = true ->
  is_space c = false
  /\ is_hex (lower_char c) = true
  /\ exists d, hex_val c = Some d /\ 0 <= d <= 15.
Proof.
  destruct c as [[] [] [] [] [] [] [] []]; vm_compute; intros H;
    try discriminate H;
    (split; [reflexivity | split; [reflexivity |]]);
    eexists; (split; [reflexivity |]); split; discriminate.
Qed.

Lemma rstrip_by_none (p : ascii -> bool) (s : string) :
  all_chars (fun c => negb (p c)) s = true -> rstrip_by p s = s.
Proof.
  induction s as [| c s IH]; [reflexivity |]. cbn [all_chars].
  intros H. apply andb_prop in H. destruct H as [Hc Hs].
  apply negb_true_iff in Hc. rewrite (rstrip_by_head p c s Hc), (IH Hs).
  reflexivity.
Qed.

(** A string without white space is stripped to itself. *)
Lemma strip_none (s : string) :
  all_chars (fun c => negb (is_space c)) s = true -> strip s = s.
Proof.
  intros H. unfold strip, strip_by.
  assert (Hl : lstrip_by is_space s = s).
  { destruct s as [| c s]; [reflexivity |]. cbn [all_chars] in H.
    apply andb_prop in H. destruct H as [Hc _].
    apply negb_true_iff in Hc. cbn [lstrip_by]. rewrite Hc. reflexivity. }
  rewrite Hl. apply rstrip_by_none. exact H.
Qed.

Lemma hex_digits_plain (w : string) :
  all_chars is_hex w = true ->
  all_chars (fun c => negb (is_space c)) w = true
  /\ all_chars is_hex (lower w) = true
  /\ String.length (lower w) = String.length w.
Proof.
  induction w as [| c w IH]; [repeat split |]. cbn [all_chars lower String.length].
  intros H. apply andb_prop in H. destruct H as [Hc Hw].
  destruct (is_hex_facts c Hc) as [Hs [Hl _]].
  destruct (IH Hw) as [I1 [I2 I3]].
  rewrite Hs, Hl, I1, I2, I3. repeat split.
Qed.

(** On a [#] followed by three to eight hexadecimal digits the parser
    takes the hexadecimal branch, with the digits in lower case. *)
Lemma parse_hex_string names (w : string) :
  all_chars is_hex w = true ->
  (3 <= String.length w <= 8)%nat ->
  _parse_color_string names (String "#" w) = hex_color (lower w).
Proof.
  intros H L. destruct (hex_digits_plain w H) as [Hs [Hl Hn]].
  unfold _parse_color_string.
  rewrite (strip_none (String "#" w)) by (cbn [all_chars]; rewrite Hs; reflexivity).
  cbn [lower]. change (lower_char "#") with "#"%char.
  change (String.eqb (String "#" (lower w)) "transparent") with false.
  cbv iota.
  rewrite (hex_pattern_matches (lower w) Hl) by (rewrite Hn; exact L).
  reflexivity.
Qed.

Lemma alpha_bytes_ok : forallb alpha_byte_ok (range 256) = true.
Proof. vm_compute. reflexivity. Qed.

Lemma alpha_byte (z : Z) :
  0 <= z <= 255 ->
  exists a, as_number (VInt z) = Ok a
            /\ PrimFloat.leb 0 (a / 255.0) = true
            /\ PrimFloat.leb (a / 255.0) 1 = true.
Proof.
  intros Hz.
  pose proof (proj1 (forallb_forall _ _) alpha_bytes_ok z
                (in_range 256 z ltac:(lia))) as Hok.
  unfold alpha_byte_ok in Hok.
  destruct (as_number (VInt z)) as [a |]; [| discriminate].
  apply andb_prop in Hok. exists a. tauto.
Qed.

Lemma hex_val_two (c1 c2 : ascii) (d1 d2 : Z) :
  hex_val c1 = Some d1 -> hex_val c2 = Some d2 ->
  int_of_hex (String c1 (String c2 EmptyString)) = Some (16 * d1 + d2).
Proof.
  intros H1 H2. cbn [int_of_hex]. rewrite H1, H2. reflexivity.
Qed.

Lemma hex_val_one (c : ascii) (d : Z) :
  hex_val c = Some d -> int_of_hex (String c EmptyString) = Some d.
Proof. intros H. cbn [int_of_hex]. rewrite H. reflexivity. Qed.

(** The colour of three to eight hexadecimal digits is in range. *)
Lemma hex_color_in_range (w : string) :
  all_chars is_hex w = true ->
  (3 <= String.length w <= 8)%nat ->
  exists c, hex_color w = Ok c /\ in_gamut c = true /\ unit_alpha c = true.
Proof.
  intros H L.
  assert (Hff : int_of_hex "ff" = Some 255) by reflexivity.
  assert (Hf : forall c d, hex_val c = Some d ->
                           int_of_hex (String c "f") = Some (16 * d + 15)).
  { intros c d Hc. apply hex_val_two; [exact Hc | reflexivity]. }
  destruct w as [| c1 [| c2 [| c3 [| c4 [| c5 [| c6 [| c7 [| c8 [| c9 w]]]]]]]]];
    cbn [String.length] in L; try lia; clear L;
    cbn [all_chars] in H;
    repeat (apply andb_prop in H; destruct H as [? H]); clear H;
    repeat match goal with
           | E : is_hex ?c = true |- _ =>
               destruct (is_hex_facts c E) as [_ [_ [? [? ?]]]]; clear E
           end;
    unfold hex_color;
    cbn [String.length Nat.eqb Nat.ltb Nat.leb orb double_chars take
           drop slice Nat.sub append];
    repeat match goal with
           | E1 : hex_val ?a = Some _
             |- context [int_of_hex (String ?a (String ?a EmptyString))] =>
               rewrite (hex_val_two a a _ _ E1 E1)
           | E1 : hex_val ?a = Some _, E2 : hex_val ?b = Some _
             |- context [int_of_hex (String ?a (String ?b EmptyString))] =>
               rewrite (hex_val_two a b _ _ E1 E2)
           | E1 : hex_val ?a = Some _
             |- context [int_of_hex (String ?a "f")] =>
               rewrite (Hf a _ E1)
           | E1 : hex_val ?a = Some _
             |- context [int_of_hex (String ?a EmptyString)] =>
               rewrite (hex_val_one a _ E1)
           | |- context [int_of_hex "ff"] => rewrite Hff
           end;
    cbn [of_option bind];
    match goal with
    | |- context [as_number (VInt ?z)] =>
        destruct (alpha_byte z ltac:(lia)) as [a [-> [Ha0 Ha1]]]
    end;
    cbn [bind]; eexists; (split; [reflexivity |]);
    unfold in_gamut, unit_alpha; cbn [rgb alpha forallb];
    rewrite Ha0, Ha1;
    (split; [| reflexivity]);
    repeat (apply andb_true_intro; split); try reflexivity;
    apply Z.leb_le; lia.
Qed.

Lemma hex_val_lower (c : ascii) :
  is_hex c = true -> hex_val (lower_char c) = hex_val c.
Proof.
  destruct c as [[] [] [] [] [] [] [] []]; vm_compute; intros H;
    try discriminate H; reflexivity.
Qed.

(** X12.  A colour written as [#] and three to eight hexadecimal digits,
    in either case, is always read, and read within the ranges: the parser
    raises nothing and returns channels in [0, 255] and an alpha in
    [0, 1], in both roles. *)
Theorem X12_hexadecimal_colours_are_in_range :
  forall (names : string -> option (Z * Z * Z)) (w : string),
    all_chars is_hex w = true ->
    (3 <= String.length w <= 8)%nat ->
    exists c,
      _parse_color_string names (String "#" w) = Ok c
      /\ (forall colortype,
             _parse_color names (VStr (String "#" w)) colortype = c)
      /\ in_gamut c = true /\ unit_alpha c = true.
Proof.
  intros names w H L. destruct (hex_digits_plain w H) as [_ [Hl Hn]].
  destruct (hex_color_in_range (lower w) Hl ltac:(rewrite Hn; exact L))
    as [c [Hc [Hg Ha]]].
  exists c. rewrite (parse_hex_string names w H L).
  split; [exact Hc |]. split; [| split; assumption].
  intros colortype. unfold _parse_color.
  rewrite (parse_hex_string names w H L), Hc. reflexivity.
Qed.

(** X13.  The short forms stand for the long ones: [#abc] is read as
    [#aabbcc], each digit [d] giving the channel [17 * d] and the alpha
    [1.0], and [#abcd] is read as [#aabbccdd]. *)
Theorem X13_short_hexadecimal_forms :
  forall (names : string -> option (Z * Z * Z)) (c1 c2 c3 c4 : ascii),
    is_hex c1 = true -> is_hex c2 = true -> is_hex c3 = true ->
    is_hex c4 = true ->
    let short3 := String "#" (String c1 (String c2 (String c3 EmptyString))) in
    let long3 :=
      String "#" (String c1 (String c1 (String c2 (String c2
        (String c3 (String c3 EmptyString)))))) in
    let short4 :=
      String "#" (String c1 (String c2 (String c3 (String c4 EmptyString)))) in
    let long4 :=
      String "#" (String c1 (String c1 (String c2 (String c2
        (String c3 (String c3 (String c4 (String c4 EmptyString)))))))) in
    _parse_color_string names short3 = _parse_color_string names long3
    /\ _parse_color_string names short4 = _parse_color_string names long4
    /\ exists d1 d2 d3,
         hex_val c1 = Some d1 /\ hex_val c2 = Some d2 /\ hex_val c3 = Some d3
         /\ _parse_color_string names short3
            = Ok (mkColor (17 * d1, 17 * d2, 17 * d3) 1).
Proof.
  intros names c1 c2 c3 c4 H1 H2 H3 H4. cbv zeta.
  rewrite !parse_hex_string
    by (first [ cbn [all_chars]; rewrite ?H1, ?H2, ?H3, ?H4; reflexivity
              | cbn; lia ]).
  split; [reflexivity |]. split; [reflexivity |].
  destruct (is_hex_facts c1 H1) as [_ [_ [d1 [E1 _]]]].
  destruct (is_hex_facts c2 H2) as [_ [_ [d2 [E2 _]]]].
  destruct (is_hex_facts c3 H3) as [_ [_ [d3 [E3 _]]]].
  exists d1, d2, d3. repeat (split; [assumption |]).
  rewrite <- (hex_val_lower c1 H1) in E1.
  rewrite <- (hex_val_lower c2 H2) in E2.
  rewrite <- (hex_val_lower c3 H3) in E3.
  cbn [lower]. unfold hex_color.
  cbn [String.length Nat.eqb Nat.ltb Nat.leb orb double_chars take
         drop slice Nat.sub append].
  rewrite (hex_val_two _ _ _ _ E1 E1), (hex_val_two _ _ _ _ E2 E2),
    (hex_val_two _ _ _ _ E3 E3).
  change (int_of_hex "ff") with (Some 255).
  cbn [of_option bind].
  change (as_number (VInt 255)) with (@Ok float 255%float).
  cbn [bind]. change (255 / 255.0)%float with 1%float.
  assert (Hd : forall d, 16 * d + d = 17 * d) by (intros; lia).
  rewrite !Hd. reflexivity.
Qed.

(** ** Writing a colour in hexadecimal and reading it back *)

Lemma hsl_to_hex_channels (h s l : Z) (a : float) :
  _hsl_to_hex h s l a
  = (c <- _hsl_to_rgb h s l a ;;
     let '(r, g, b) := rgb c in
     let rgb_text :=
       ("#" ++ format_02x r ++ format_02x g ++ format_02x b)%string in
     if PrimFloat.ltb a 1 then
       k <- of_option OverflowError (PyFloat.trunc (a * 255)) ;;
       Ok (rgb_text ++ format_02x k)%string
     else Ok rgb_text).
Proof.
  unfold _hsl_to_hex. rewrite hsl_to_rgb_floats.
  destruct (as_number (VInt h)) as [hf |]; [| reflexivity].
  destruct (as_number (VInt s)) as [sf |]; [| reflexivity].
  destruct (as_number (VInt l)) as [lf |]; [| reflexivity].
  cbn [bind]. fold (hsl_floats (hf / 360.0) (sf / 100.0) (lf / 100.0)).
  destruct (hsl_floats (hf / 360.0) (sf / 100.0) (lf / 100.0)) as [[r g] b].
  destruct (to_channel r) as [zr |]; [| reflexivity].
  destruct (to_channel g) as [zg |]; [| reflexivity].
  destruct (to_channel b) as [zb |]; reflexivity.
Qed.

Lemma bytes_format_ok : forallb byte_format_ok (range 256) = true.
Proof. vm_compute. reflexivity. Qed.

Lemma byte_format (z : Z) :
  0 <= z <= 255 ->
  format_02x z
  = String (hex_digit (z / 16)) (String (hex_digit (z mod 16)) EmptyString).
Proof.
  intros Hz.
  pose proof (proj1 (forallb_forall _ _) bytes_format_ok z
                (in_range 256 z ltac:(lia))) as Hok.
  apply String.eqb_eq in Hok. exact Hok.
Qed.

Lemma hex_digits_ok : forallb hex_digit_ok (range 16) = true.
Proof. vm_compute. reflexivity. Qed.

Lemma hex_digit_facts (d : Z) :
  0 <= d <= 15 ->
  is_hex (hex_digit d) = true
  /\ lower_char (hex_digit d) = hex_digit d
  /\ hex_val (hex_digit d) = Some d.
Proof.
  intros Hd.
  pose proof (proj1 (forallb_forall _ _) hex_digits_ok d
                (in_range 16 d ltac:(lia))) as Hok.
  unfold hex_digit_ok in Hok.
  apply andb_prop in Hok. destruct Hok as [Hok Hv].
  apply andb_prop in Hok. destruct Hok as [Hh Hl].
  apply Ascii.eqb_eq in Hl.
  destruct (hex_val (hex_digit d)) as [d' |]; [| discriminate].
  apply Z.eqb_eq in Hv. subst d'. auto.
Qed.

(** Three bytes written by [_hsl_to_hex] are read back by the parser. *)
Lemma parse_written_bytes names (r g b : Z) :
  0 <= r <= 255 -> 0 <= g <= 255 -> 0 <= b <= 255 ->
  _parse_color_string names
    ("#" ++ format_02x r ++ format_02x g ++ format_02x b)%string
  = Ok (mkColor (r, g, b) 1).
Proof.
  intros Hr Hg Hb.
  rewrite (byte_format r Hr), (byte_format g Hg), (byte_format b Hb).
  cbn [append].
  assert (Hq : forall z, 0 <= z <= 255 -> 0 <= z / 16 <= 15).
  { intros z Hz. split; [apply Z.div_pos; lia |].
    apply Z.lt_succ_r. apply Z.div_lt_upper_bound; lia. }
  assert (Hm : forall z, 0 <= z mod 16 <= 15)
    by (intros z; pose proof (Z.mod_pos_bound z 16 ltac:(lia)); lia).
  destruct (hex_digit_facts _ (Hq r Hr)) as [A1 [L1 V1]].
  destruct (hex_digit_facts _ (Hm r)) as [A2 [L2 V2]].
  destruct (hex_digit_facts _ (Hq g Hg)) as [A3 [L3 V3]].
  destruct (hex_digit_facts _ (Hm g)) as [A4 [L4 V4]].
  destruct (hex_digit_facts _ (Hq b Hb)) as [A5 [L5 V5]].
  destruct (hex_digit_facts _ (Hm b)) as [A6 [L6 V6]].
  rewrite parse_hex_string
    by (first [ cbn [all_chars]; rewrite A1, A2, A3, A4, A5, A6; reflexivity
              | cbn; lia ]).
  cbn [lower]. rewrite L1, L2, L3, L4, L5, L6. unfold hex_color.
  cbn [String.length Nat.eqb Nat.ltb Nat.leb orb double_chars take
         drop slice Nat.sub append].
  rewrite (hex_val_two _ _ _ _ V1 V2), (hex_val_two _ _ _ _ V3 V4),
    (hex_val_two _ _ _ _ V5 V6).
  change (int_of_hex "ff") with (Some 255).
  cbn [of_option bind].
  change (as_number (VInt 255)) with (@Ok float 255%float).
  cbn [bind]. change (255 / 255.0)%float with 1%float.
  assert (Hd : forall z, 16 * (z / 16) + z mod 16 = z)
    by (intros z; symmetry; apply Z.div_mod; lia).
  rewrite !Hd. reflexivity.
Qed.

(** X14.  What [_hsl_to_hex] writes, the parser reads back.  When the
    conversion gives channels in [0, 255] and the alpha is not below 1,
    [_hsl_to_hex] returns [#] and the three channels in two hexadecimal
    digits each, and [_parse_color_string] reads that text as the same
    channels with the alpha [1.0]; for a hue from 0 to 360 and a
    saturation and a lightness from 0 to 100 the text reads back as the
    colour [_hsl_to_rgb] returns. *)
Theorem X14_hexadecimal_text_reads_back :
  forall names : string -> option (Z * Z * Z),
    (forall (h s l : Z) (a : float) (c : Color),
        _hsl_to_rgb h s l a = Ok c ->
        in_gamut c = true ->
        PrimFloat.ltb a 1 = false ->
        exists text,
          _hsl_to_hex h s l a = Ok text
          /\ _parse_color_string names text = Ok (mkColor (rgb c) 1))
    /\ (forall h s l : Z,
           0 <= h <= 360 -> 0 <= s <= 100 -> 0 <= l <= 100 ->
           exists text c,
             _hsl_to_hex h s l 1 = Ok text
             /\ _hsl_to_rgb h s l 1 = Ok c
             /\ _parse_color_string names text = Ok c).
Proof.
  intros names.
  assert (Hfirst : forall (h s l : Z) (a : float) (c : Color),
             _hsl_to_rgb h s l a = Ok c ->
             in_gamut c = true ->
             PrimFloat.ltb a 1 = false ->
             exists text,
               _hsl_to_hex h s l a = Ok text
               /\ _parse_color_string names text = Ok (mkColor (rgb c) 1)).
  { intros h s l a [[[r g] b] a'] Hc Hg Ha.
    rewrite hsl_to_hex_channels, Hc. cbn [bind rgb]. rewrite Ha.
    unfold in_gamut in Hg. cbn [rgb forallb] in Hg.
    repeat (apply andb_prop in Hg; destruct Hg as [? Hg]).
    repeat match goal with
           | E : (_ <=? _) = true |- _ => apply Z.leb_le in E
           end.
    eexists. split; [reflexivity |].
    apply parse_written_bytes; lia. }
  split; [exact Hfirst |].
  intros h s l Hh Hs Hl.
  destruct (hsl_in_range h s l 1 Hh Hs Hl) as [c [Hc [Hg Ha]]].
  destruct (Hfirst h s l 1%float c Hc Hg eq_refl) as [text [Ht Hp]].
  exists text, c. split; [exact Ht |]. split; [exact Hc |].
  rewrite Hp. destruct c as [rgb0 a0]. cbn in Ha |- *. rewrite Ha.
  reflexivity.
Qed.

(** ** The markers of conditional comments *)

Lemma conditional_start_never_matches (pos : nat) (s : string) :
  run CONDITIONAL_START_RE (start pos s) Some = None.
Proof.
  unfold CONDITIONAL_START_RE, start. cbn [seqs].
  cbn [run m_rest m_pos m_groups chr].
  destruct s as [| c1 s1]; [reflexivity |].
  destruct (Ascii.eqb "<" c1); [| reflexivity].
  destruct s1 as [| c2 s2]; [reflexivity |].
  destruct (Ascii.eqb "!" c2); [| reflexivity].
  destruct s2 as [| c3 s3]; [reflexivity |].
  destruct s3 as [| c4 s4]; [| reflexivity].
  cbn [at_eol].
  destruct (Ascii.eqb c3 "010") eqn:E; [| reflexivity].
  apply Ascii.eqb_eq in E. subst c3. reflexivity.
Qed.

Lemma conditional_end_never_matches (pos : nat) (s : string) :
  run CONDITIONAL_END_RE (start pos s) Some = None.
Proof.
  unfold CONDITIONAL_END_RE, start. cbn [seqs].
  cbn [run m_rest m_pos m_groups chr].
  destruct s as [| c1 s1]; [reflexivity |].
  destruct (Ascii.eqb "<" c1); [| reflexivity].
  destruct s1 as [| c2 s2]; [reflexivity |].
  destruct (Ascii.eqb "!" c2); [| reflexivity].
  destruct s2 as [| c3 s3]; [reflexivity |].
  destruct s3 as [| c4 s4]; [| reflexivity].
  cbn [at_eol].
  destruct (Ascii.eqb c3 "010") eqn:E; [| reflexivity].
  apply Ascii.eqb_eq in E. subst c3. reflexivity.
Qed.

Lemma scan_no_match (r : regex) :
  (forall pos s, run r (start pos s) Some = None) ->
  forall fuel pos s, scan fuel r pos s = [].
Proof.
  intros Hr. induction fuel as [| fuel IH]; intros pos s; [reflexivity |].
  cbn [scan]. rewrite Hr. destruct s; [reflexivity | apply IH].
Qed.

(** A substitution for a pattern that matches nowhere returns its
    subject. *)
Lemma sub_no_match (r : regex) (repl : mstate -> string) :
  (forall pos s, run r (start pos s) Some = None) ->
  forall fuel pos s, sub_scan fuel r repl pos s = s.
Proof.
  intros Hr. induction fuel as [| fuel IH]; intros pos s; [reflexivity |].
  cbn [sub_scan]. rewrite Hr. destruct s as [| c s]; [reflexivity |].
  rewrite IH. reflexivity.
Qed.

(** X15.  The standardisation of conditional markers changes no document:
    after [<!] the patterns [CONDITIONAL_START_RE] and
    [CONDITIONAL_END_RE] ask for the end of the subject and then for a
    letter, so they match nowhere, and the two substitutions of
    [_preprocess_conditional_comments] return the content they were
    given. *)
Theorem X15_conditional_markers_are_never_standardised :
  forall content : string,
    finditer CONDITIONAL_START_RE content = []
    /\ finditer CONDITIONAL_END_RE content = []
    /\ standardize_markers content = content.
Proof.
  intros content. split; [| split].
  - apply scan_no_match, conditional_start_never_matches.
  - apply scan_no_match, conditional_end_never_matches.
  - unfold standardize_markers, sub.
    rewrite (sub_no_match _ _ conditional_start_never_matches).
    apply (sub_no_match _ _ conditional_end_never_matches).
Qed.

(** ** Styles below a node *)

Lemma check_html_visibility_attrs_tag nm a cs :
  exists b, _check_html_visibility_attrs (Tag nm a cs) = Ok b.
Proof.
  cbn [_check_html_visibility_attrs].
  repeat match goal with
         | |- exists b, (if ?c then _ else _) = Ok b => destruct c
         end; eexists; reflexivity.
Qed.

Lemma children_have_visibility_style_tag (n : node) :
  is_tag n = true ->
  _children_have_visibility_style n
  = Ok (existsb bears_on_visibility (descendants n)).
Proof.
  induction n as [k s | nm a cs IH] using node_induction; [discriminate |].
  intros _. rewrite descendants_tag.
  cbn [_children_have_visibility_style].
  induction IH as [| c r Hc _ IHr]; [reflexivity |].
  cbn [flat_map]. rewrite existsb_app. cbn [existsb].
  destruct c as [cn ca ccs | k s].
  - specialize (Hc eq_refl).
    unfold bears_on_visibility at 1. cbn [is_tag andb].
    destruct (declares_visibility (Tag cn ca ccs)); [reflexivity |].
    cbn [orb].
    destruct (check_html_visibility_attrs_tag cn ca ccs) as [b Hb].
    rewrite Hb. cbn [bind]. destruct b; [reflexivity |].
    rewrite Hc. cbn [bind orb].
    destruct (existsb bears_on_visibility (descendants (Tag cn ca ccs)));
      [reflexivity |].
    cbn [orb]. exact IHr.
  - cbn [descendants existsb orb]. unfold bears_on_visibility at 1.
    cbn [is_tag andb orb]. exact IHr.
Qed.

(** X16.  [_children_have_visibility_style] searches all that is below an
    element: on an element it raises nothing, and it returns [True]
    exactly when some element below it, at any depth, declares a property
    of [VISIBILITY_PROPS] in its inline style or passes
    [_check_html_visibility_attrs]. *)
Theorem X16_visibility_styles_are_sought_at_any_depth :
  forall (nm : string) (a : list (string * string)) (cs : list node),
    exists b,
      _children_have_visibility_style (Tag nm a cs) = Ok b
      /\ (b = true <->
          exists d, In d (descendants (Tag nm a cs))
                    /\ is_tag d = true
                    /\ (declares_visibility d = true
                        \/ _check_html_visibility_attrs d = Ok true)).
Proof.
  intros nm a cs. eexists. split.
  - apply children_have_visibility_style_tag. reflexivity.
  - rewrite existsb_exists. split.
    + intros [d [Hin Hd]]. exists d. split; [exact Hin |].
      unfold bears_on_visibility in Hd.
      apply andb_prop in Hd. destruct Hd as [Ht Hd]. split; [exact Ht |].
      apply orb_prop in Hd. destruct Hd as [Hd | Hd]; [left; exact Hd |].
      right. destruct (_check_html_visibility_attrs d) as [b | e];
        [subst b; reflexivity | discriminate].
    + intros [d [Hin [Ht Hd]]]. exists d. split; [exact Hin |].
      unfold bears_on_visibility. rewrite Ht. cbn [andb].
      destruct Hd as [-> | ->]; [reflexivity | apply orb_true_r].
Qed.

(** ** The log *)













(** ** The order of the offsets *)

(** When every element can be read, [any] returns whether one of them is
    true. *)
Lemma anyM_readable {A} (f : A -> res bool) (l : list A) :
  (forall x, In x l -> exists b, f x = Ok b) ->
  anyM f l = Ok (existsb (fun x => match f x with
                                   | Ok b => b
                                   | Raise _ => false
                                   end) l).
Proof.
  induction l as [| x r IH]; intros H; [reflexivity |].
  cbn [anyM existsb]. destruct (H x (or_introl eq_refl)) as [b Hb].
  rewrite Hb. cbn [bind]. destruct b; [reflexivity |].
  apply IH. intros y Hy. apply H. right. exact Hy.
Qed.

(** X18.  The order in which the set [offset_props] is visited matters
    only through errors.  When [_is_large_offset] can read the offset of
    every property, [_check_position_offset] returns the same answer in
    every order, true exactly when one of the offsets is large.  When one
    cannot be read the order decides: with a large [left] and an
    unreadable [right], the check answers true if it visits [left] first
    and raises [ValueError] if it visits [right] first. *)
Theorem X18_offset_order_matters_only_through_errors :
  (forall (order order' : list string) (st : style),
      (forall k, In k order <-> In k order') ->
      (forall k, In k order ->
                 exists b, _is_large_offset (offset_value st k) = Ok b) ->
      exists b,
        _check_position_offset order st = Ok b
        /\ _check_position_offset order' st = Ok b
        /\ (b = true <->
            exists k, In k order
                      /\ _is_large_offset (offset_value st k) = Ok true))
  /\ _check_position_offset [ "left"; "right" ]%string large_and_unreadable
     = Ok true
  /\ _check_position_offset [ "right"; "left" ]%string large_and_unreadable
     = Raise ValueError.
Proof.
  split; [| split; vm_compute; reflexivity].
  intros order order' st Hsame Hread.
  assert (Hread' : forall k, In k order' ->
                     exists b, _is_large_offset (offset_value st k) = Ok b)
    by (intros k Hk; apply Hread, Hsame, Hk).
  eexists. split; [exact (anyM_readable _ order Hread) |]. split.
  - change (_check_position_offset order' st)
      with (anyM (fun k => _is_large_offset (offset_value st k)) order').
    rewrite (anyM_readable _ order' Hread').
    f_equal. apply eq_true_iff_eq. rewrite !existsb_exists.
    split; intros [k [Hk Hb]]; exists k; (split; [apply Hsame, Hk | exact Hb]).
  - rewrite existsb_exists. split.
    + intros [k [Hk Hb]]. exists k. split; [exact Hk |].
      destruct (_is_large_offset (offset_value st k)) as [b |];
        [subst b; reflexivity | discriminate].
    + intros [k [Hk Hb]]. exists k. split; [exact Hk |]. rewrite Hb.
      reflexivity.
Qed.

(** ** The properties at concrete inputs *)

(** The marks of the records of
    [<p style="color:#fff;background-color:#fff">hello<!-- c --></p>]. *)
Lemma X4_witness :
  exists results file_visible,
    analyze_tree
      (Tag "[document]" []
         [ Tag "p" [("style", "color:#fff;background-color:#fff")]
             [Str NavigableString "hello"; Str Comment " c "] ])
    = Ok (results, file_visible)
    /\ forallb record_consistent results = true.
Proof.
  eexists. eexists. split; [vm_compute; reflexivity |].
  apply (X4_record_marks_agree Reference.offset_order Reference.pow
           Reference.name_to_rgb
           (fun _ => Tag "[document]" [] []) (fun _ => EmptyString) 0
           (collect_paths
              (mkAnalyzer
                 (_prune_tree
                    (Tag "[document]" []
                       [ Tag "p"
                           [("style", "color:#fff;background-color:#fff")]
                           [Str NavigableString "hello";
                            Str Comment " c "] ])) []))
           _ false).
  vm_compute. reflexivity.
Defined.

(** The reasons for a style that sets [visibility], [display], a zero
    opacity, a large offset, a clip, a font of [1px] and a blur: each of
    the seven is listed, and its check fires. *)
Lemma X5_witness :
  (false = true <-> every_reason = [])
  /\ (In Visibility every_reason
      <-> hidden_visibility hidden_in_every_way = true)
  /\ (In DisplayNone every_reason
      <-> is_str "none" (dget "display" hidden_in_every_way) = true)
  /\ (forall shown,
         In (Opacity shown) every_reason
         <-> dget "opacity" hidden_in_every_way = Some shown
             /\ exists o, py_float shown = Ok o
                          /\ PrimFloat.leb o 0.01 = true)
  /\ (In PositionOffset every_reason
      <-> _check_position_offset Reference.offset_order hidden_in_every_way
          = Ok true)
  /\ (In Clipping every_reason
      <-> _check_clipping hidden_in_every_way = Ok true)
  /\ (forall px,
         In (FontTooSmall px) every_reason
         <-> _parse_length (font_size_value hidden_in_every_way)
             = Ok (Some px)
             /\ PrimFloat.ltb px 3 = true)
  /\ (In FilterEffect every_reason
      <-> _check_filter hidden_in_every_way = Ok true).
Proof.
  apply (X5_each_reason_reports_its_check Reference.offset_order
           Reference.pow Reference.name_to_rgb
           hidden_in_every_way false every_reason).
  vm_compute. reflexivity.
Defined.

(** [display] in the style of [<p style="display:none">]: the element
    declares it. *)
Lemma X6_witness :
  In "display"%string (declared (Tag "p" [("style", "display:none")] [])).
Proof.
  eapply (X6_only_inheritable_properties_are_inherited Reference.name_to_rgb
            "display" (Tag "p" [("style", "display:none")] [])
            DEFAULT_STYLE _ (VStr "none"));
    [ reflexivity | reflexivity | vm_compute; reflexivity | reflexivity ].
Defined.

(** The filter function [opacity(0%)]. *)
Lemma X7_witness :
  _is_hiding_filter "opacity(0%)" = Raise ValueError
  /\ (forall (st : style) (text : string) (rest : list string),
         dget "filter" st = Some (VStr text) ->
         split_ws text = "opacity(0%)"%string :: rest ->
         _check_filter st = Raise ValueError).
Proof.
  apply (X7_opacity_filter_raises "opacity(0%)"). reflexivity.
Defined.

(** A paragraph with two comments, one of them a conditional marker
    outside a container. *)
Lemma X8_witness :
  let self :=
    mkAnalyzer
      (Tag "[document]" []
         [ Tag "p" []
             [ Str NavigableString "hello"; Str Comment " note ";
               Str Comment "[cond:mso]" ] ]) [] in
  (forall BeautifulSoup to_markup analyze,
      _process_comments BeautifulSoup to_markup analyze self
      = Ok (flat_map comment_records (comments (soup self))))
  /\ (forall offset_order float_pow names BeautifulSoup to_markup depth
             BeautifulSoup' to_markup' depth',
         analyze_paths offset_order float_pow names BeautifulSoup to_markup
           depth self
         = analyze_paths offset_order float_pow names BeautifulSoup'
             to_markup' depth' self).
Proof.
  intros self. apply (X8_comments_become_comment_records self).
  vm_compute. reflexivity.
Defined.

(** The tuple [(300, -5, 10, 2.0)] is read as [(255, 0, 10)] with the
    alpha [1.0]. *)
Lemma X9_witness :
  _parse_color_tuple [VInt 300; VInt (-5); VInt 10; VFloat 2]
  = Ok (mkColor (255, 0, 10) 1)
  /\ in_gamut (mkColor (255, 0, 10) 1) = true
  /\ unit_alpha (mkColor (255, 0, 10) 1) = true.
Proof.
  split; [vm_compute; reflexivity |].
  apply (X9_tuple_colors_are_clamped
           [VInt 300; VInt (-5); VInt 10; VFloat 2] (mkColor (255, 0, 10) 1)).
  vm_compute. reflexivity.
Defined.

(** The opaque colour [(18, 52, 86)] over any background. *)
Lemma X10_witness :
  (forall bg : Color,
      premultiplied_finite bg = true ->
      _blend_colors Reference.name_to_rgb
        (color_val (mkColor (18, 52, 86) 1)) (color_val bg)
      = Ok (mkColor (18, 52, 86) 1))
  /\ _blend_colors Reference.name_to_rgb
       (color_val (mkColor (18, 52, 86) 1)) (color_val opaque_white)
     = Ok (mkColor (18, 52, 86) 1).
Proof.
  apply (X10_an_opaque_colour_hides_the_background Reference.name_to_rgb
           (mkColor (18, 52, 86) 1)); reflexivity.
Defined.

(** [hsl(120, 100%, 50%)] with the alpha [0.5]. *)
Lemma X11_witness :
  exists c, _hsl_to_rgb 120 100 50 0.5 = Ok c
            /\ in_gamut c = true /\ alpha c = 0.5%float.
Proof.
  apply (X11_hsl_in_range_gives_channels_in_range 120 100 50 0.5); lia.
Defined.

(** The colour [#1A2b3C80]. *)
Lemma X12_witness :
  exists c,
    _parse_color_string Reference.name_to_rgb "#1A2b3C80" = Ok c
    /\ (forall colortype,
           _parse_color Reference.name_to_rgb (VStr "#1A2b3C80") colortype
           = c)
    /\ in_gamut c = true /\ unit_alpha c = true.
Proof.
  apply (X12_hexadecimal_colours_are_in_range Reference.name_to_rgb
           "1A2b3C80"); [reflexivity | cbn; lia].
Defined.

(** The colours [#f0a] and [#f0a8]. *)
Lemma X13_witness :
  _parse_color_string Reference.name_to_rgb "#f0a"
  = _parse_color_string Reference.name_to_rgb "#ff00aa"
  /\ _parse_color_string Reference.name_to_rgb "#f0a8"
     = _parse_color_string Reference.name_to_rgb "#ff00aa88"
  /\ exists d1 d2 d3,
       hex_val "f" = Some d1 /\ hex_val "0" = Some d2 /\ hex_val "a" = Some d3
       /\ _parse_color_string Reference.name_to_rgb "#f0a"
          = Ok (mkColor (17 * d1, 17 * d2, 17 * d3) 1).
Proof.
  apply (X13_short_hexadecimal_forms Reference.name_to_rgb "f" "0" "a" "8");
    reflexivity.
Defined.

